(** * adonis-framework: the HTTP request dispatcher, the configuration store
      and the environment

    A shallow embedding of [src/Server/index.js], [src/Config/index.js] and
    [src/Env/index.js].

    - [Js]        the fragment of JavaScript data the classes work on:
                  primitive values, references to objects in a store, errors,
                  [parseInt], [+] and string conversion.
    - [Lodash]    [_.get], [_.set], [_.unset] and [_.clone] over the object
                  store.
    - [Config]    the [Config] class (the constructor, [get], [set],
                  [delete]).
    - [Response]  the response object the dispatcher drives.
    - [Server]    the [Server] class: route lookup, cluster-group proxying,
                  middleware chains, the timeout race of [_routeHandler],
                  [_endResponse], [_handleException] and [handle].
    - [Scenario]  the scenarios of the specification, as data.
    - [Lifecycle] the server slots of the [Server] class: the getters and
                  setters, [bindExceptionHandler], the [Listen] and [Close]
                  methods.
    - [Env]       the [Env] class: the constructor, [load], [get],
                  [getOrFail] and [set].
    - [View]      [_copyFolderSync] of the [View] class, over a file system.

    Definitions come first, then the vocabulary of the properties, then the
    properties themselves, claim by claim, and the further properties of the
    code around them. *)

From Stdlib Require Import ZArith String Ascii List Lia Bool.
From stdpp Require Import base gmap strings list fin_maps pretty.

Open Scope string_scope.
Open Scope Z_scope.

(* ===================================================================== *)
(** ** JavaScript values *)
(* ===================================================================== *)

Module Js.

(** Numbers are integers or [NaN]: ports, port offsets, status codes and
    durations in milliseconds. Fractions and infinities are not modelled. *)
Inductive Num : Type :=
| NaN
| Int (z : Z).

(** Objects live in a store and are denoted by their location, so that two
    values can be the same object. Values are data: functions, and the other
    values [_.clone] cannot copy, are not modelled. *)
Abbreviation loc := nat.

Inductive Val : Type :=
| VUndef
| VNull
| VBool (b : bool)
| VNum (n : Num)
| VStr (s : string)
| VRef (l : loc).

#[global] Instance Num_eq_dec : EqDecision Num.
Proof. solve_decision. Defined.

#[global] Instance Val_eq_dec : EqDecision Val.
Proof. solve_decision. Defined.

(** An object is its own enumerable properties; a property may hold
    [undefined], which differs from the property being absent ([key in obj]).
    Inherited properties are outside the model. *)
Abbreviation Obj := (gmap string Val).
Abbreviation Heap := (gmap nat (gmap string Val)).

(** [===] on the values of the model. [NaN] differs from itself. *)
Definition strict_eq (a b : Val) : bool :=
  match a, b with
  | VNum NaN, _ | _, VNum NaN => false
  | _, _ => bool_decide (a = b)
  end.

(** [v == null] *)
Definition nullish (v : Val) : bool :=
  match v with
  | VUndef | VNull => true
  | _ => false
  end.


(** ToBoolean *)
Definition truthy (v : Val) : bool :=
  match v with
  | VUndef | VNull => false
  | VBool b => b
  | VNum NaN => false
  | VNum (Int z) => negb (z =? 0)
  | VStr s => negb (String.eqb s EmptyString)
  | VRef _ => true
  end.

Definition num_to_string (n : Num) : string :=
  match n with
  | NaN => "NaN"
  | Int z => pretty z
  end.

(** ToString, as a template literal applies it. *)
Definition to_string (v : Val) : string :=
  match v with
  | VUndef => "undefined"
  | VNull => "null"
  | VBool true => "true"
  | VBool false => "false"
  | VNum n => num_to_string n
  | VStr s => s
  | VRef _ => "[object Object]"
  end.

Definition num_add (a b : Num) : Num :=
  match a, b with
  | Int x, Int y => Int (x + y)
  | _, _ => NaN
  end.

(** [a + v] with a number on the left: concatenation when the right operand
    is a string or an object, numeric addition otherwise. *)
Definition js_add (a : Num) (v : Val) : Val :=
  match v with
  | VStr s => VStr (num_to_string a +:+ s)
  | VRef _ => VStr (num_to_string a +:+ "[object Object]")
  | VNum b => VNum (num_add a b)
  | VBool b => VNum (num_add a (Int (if b then 1 else 0)))
  | VNull => VNum (num_add a (Int 0))
  | VUndef => VNum NaN
  end.

(** *** Strings *)

Fixpoint contains (c : ascii) (s : string) : bool :=
  match s with
  | String a s' => Ascii.eqb a c || contains c s'
  | EmptyString => false
  end.

Fixpoint split_on (c : ascii) (s : string) : list string :=
  match s with
  | EmptyString => [EmptyString]
  | String a s' =>
      if Ascii.eqb a c then EmptyString :: split_on c s'
      else match split_on c s' with
           | w :: ws => String a w :: ws
           | [] => [String a EmptyString]
           end
  end.

(** *** [parseInt] without a radix *)

Definition is_space (c : ascii) : bool :=
  let n := nat_of_ascii c in
  ((9 <=? n) && (n <=? 13))%nat || (n =? 32)%nat.

Definition digit_val (c : ascii) : option nat :=
  let n := nat_of_ascii c in
  if ((48 <=? n) && (n <=? 57))%nat then Some (n - 48)%nat
  else if ((97 <=? n) && (n <=? 102))%nat then Some (n - 87)%nat
  else if ((65 <=? n) && (n <=? 70))%nat then Some (n - 55)%nat
  else None.

Fixpoint skip_spaces (s : string) : string :=
  match s with
  | String c s' => if is_space c then skip_spaces s' else s
  | EmptyString => s
  end.

(** The longest prefix of digits below [radix], most significant first;
    [acc] is [None] until a digit has been read. *)
Fixpoint read_digits (radix : nat) (acc : option Z) (s : string) : option Z :=
  match s with
  | String c s' =>
      match digit_val c with
      | Some d =>
          if (d <? radix)%nat
          then read_digits radix (Some (default 0 acc * Z.of_nat radix + Z.of_nat d)) s'
          else acc
      | None => acc
      end
  | EmptyString => acc
  end.

Definition read_unsigned (s : string) : option Z :=
  match s with
  | String "0" (String "x" s') | String "0" (String "X" s') => read_digits 16 None s'
  | _ => read_digits 10 None s
  end.

Definition parseInt_string (s : string) : Num :=
  let s := skip_spaces s in
  let '(neg, s) :=
    match s with
    | String "-" s' => (true, s')
    | String "+" s' => (false, s')
    | _ => (false, s)
    end in
  match read_unsigned s with
  | Some z => Int (if neg then - z else z)
  | None => NaN
  end.

(** [parseInt(v)]: the argument is converted to a string first, so
    [parseInt(undefined)] is [NaN]. *)
Definition parseInt (v : Val) : Num := parseInt_string (to_string v).

(** *** ToNumber *)

Fixpoint rev_string (acc s : string) : string :=
  match s with
  | String c s' => rev_string (String c acc) s'
  | EmptyString => acc
  end.

Definition trim (s : string) : string :=
  rev_string EmptyString (skip_spaces (rev_string EmptyString (skip_spaces s))).

(** Every character is a digit below [radix], and there is at least one. *)
Fixpoint read_all_digits (radix : nat) (acc : option Z) (s : string) : option Z :=
  match s with
  | String c s' =>
      match digit_val c with
      | Some d =>
          if (d <? radix)%nat
          then read_all_digits radix (Some (default 0 acc * Z.of_nat radix + Z.of_nat d)) s'
          else None
      | None => None
      end
  | EmptyString => acc
  end.

(** ToNumber on a string: the empty string is 0; integer literals in
    decimal, with a sign, or in hexadecimal are read; every other string,
    the forms that would not give an integer among them, is [NaN]. *)
Definition string_to_number (s : string) : Num :=
  match trim s with
  | EmptyString => Int 0
  | String "0" (String "x" s') | String "0" (String "X" s') =>
      match read_all_digits 16 None s' with Some z => Int z | None => NaN end
  | String "-" s' =>
      match read_all_digits 10 None s' with Some z => Int (- z) | None => NaN end
  | String "+" s' =>
      match read_all_digits 10 None s' with Some z => Int z | None => NaN end
  | s' =>
      match read_all_digits 10 None s' with Some z => Int z | None => NaN end
  end.

(** ToNumber: an object converts through its string form, which is not a
    number. *)
Definition to_number (v : Val) : Num :=
  match v with
  | VUndef => NaN
  | VNull => Int 0
  | VBool b => Int (if b then 1 else 0)
  | VNum n => n
  | VStr s => string_to_number s
  | VRef _ => NaN
  end.

(** *** Errors *)

(** What the dispatcher reads from a thrown value: [name], [message],
    [stack], and the [status] and [code] the framework's exceptions carry. *)
Record Error : Type := mkError {
  name : string;
  message : string;
  status : Val;
  code : Val;
  stack : string
}.

#[global] Instance Error_eq_dec : EqDecision Error.
Proof. solve_decision. Defined.

Definition newline : string := String (ascii_of_nat 10) EmptyString.

(** The call-stack text of an error raised by the runtime or the framework:
    V8 heads it with [name: message]; the frames are left as a marker. *)
Definition stack_text (nm msg : string) : string :=
  nm +:+ ": " +:+ msg +:+ newline +:+ "    at <anonymous>".

(** [new GE.HttpException(message, status, code)] *)
Definition HttpException (msg : string) (st : Z) (cd : string) : Error :=
  mkError "HttpException" msg (VNum (Int st)) (VStr cd) (stack_text "HttpException" msg).

(** [GE.RuntimeException.invoke(message)]: status 500, code [E_RUNTIME_ERROR]. *)
Definition RuntimeException_invoke (msg : string) : Error :=
  mkError "RuntimeException" msg (VNum (Int 500)) (VStr "E_RUNTIME_ERROR")
          (stack_text "RuntimeException" msg).

(** The [TypeError] of reading property [p] of [undefined] or [null]. *)
Definition TypeError_read (v : Val) (p : string) : Error :=
  let msg := "Cannot read properties of " +:+ to_string v +:+ " (reading '" +:+ p +:+ "')" in
  mkError "TypeError" msg VUndef VUndef (stack_text "TypeError" msg).

(** The [TypeError] with code [ERR_INVALID_ARG_TYPE] the runtime raises for
    an [options.signal] that is not an [AbortSignal]. *)
Definition invalid_signal : Error :=
  let msg := "The 'options.signal' property must be an instance of AbortSignal." in
  mkError "TypeError" msg VUndef (VStr "ERR_INVALID_ARG_TYPE") (stack_text "TypeError" msg).

(** *** The object store *)

(** [o[k]] for an object of the store: [undefined] when the property is
    absent. *)
Definition own (h : Heap) (l : loc) (k : string) : Val :=
  default VUndef (h !! l ≫= (.!! k)).

(** [k in o] *)
Definition has_own (h : Heap) (l : loc) (k : string) : bool :=
  bool_decide (is_Some (h !! l ≫= (.!! k))).

(** [v[k]] for a value that is not [undefined] or [null]: primitives have no
    own properties in the model. *)
Definition prop (h : Heap) (v : Val) (k : string) : Val :=
  match v with
  | VRef l => own h l k
  | _ => VUndef
  end.

(** [o[k] = v] *)
Definition assign (h : Heap) (l : loc) (k : string) (v : Val) : Heap :=
  <[l := <[k := v]> (default ∅ (h !! l))]> h.

(** A new object with the given properties. *)
Definition alloc (h : Heap) (o : Obj) : loc * Heap :=
  let l := fresh (dom h) in (l, <[l := o]> h).

End Js.

(* ===================================================================== *)
(** ** lodash: [_.get], [_.set], [_.unset], [_.clone] *)
(* ===================================================================== *)

Module Lodash.
Import Js.

(** [stringToPath] on a dotted key. Keys are dotted paths throughout the
    framework; on those the function splits at every dot, empty segments
    included. lodash's bracket syntax ([a[0].b]) is not modelled. *)
Definition stringToPath (key : string) : list string := split_on "." key.

(** [isKey(key, object)]: a key without a dot is a property name, and so is
    any key that is a property of [object] as it stands. *)
Definition isKey (h : Heap) (key : string) (object : Val) : bool :=
  negb (contains "." key)
  || match object with
     | VRef l => has_own h l key
     | _ => false
     end.

Definition castPath (h : Heap) (key : string) (object : Val) : list string :=
  if isKey h key object then [key] else stringToPath key.

(** The loop of [baseGet]: it stops at the first [undefined] or [null] with
    segments left, and the result is then [undefined]. *)
Fixpoint baseGet_loop (h : Heap) (object : Val) (path : list string) : Val :=
  match path with
  | [] => object
  | key :: rest =>
      if nullish object then VUndef
      else baseGet_loop h (prop h object key) rest
  end.

Definition baseGet (h : Heap) (object : Val) (key : string) : Val :=
  match castPath h key object with
  | [] => VUndef
  | path => baseGet_loop h object path
  end.

(** [_.get(object, key, defaultValue)] *)
Definition get (h : Heap) (object : Val) (key : string) (defaultValue : Val) : Val :=
  let result := if nullish object then VUndef else baseGet h object key in
  if bool_decide (result = VUndef) then defaultValue else result.

(** The segments [baseSet] refuses to write through. *)
Definition unsafe_key (key : string) : bool :=
  String.eqb key "__proto__" || String.eqb key "constructor" || String.eqb key "prototype".

(** The loop of [baseSet] below the object [nested]: the last segment
    receives [value]; a segment before it keeps the object it holds, or is
    given a new empty object when it holds anything else. A container made
    for an index segment is an array in lodash; the model reads and writes
    it like any other object. *)
Fixpoint baseSet_loop (h : Heap) (nested : loc) (path : list string) (value : Val) : Heap :=
  match path with
  | [] => h
  | key :: rest =>
      if unsafe_key key then h
      else match rest with
           | [] => assign h nested key value
           | _ :: _ =>
               match own h nested key with
               | VRef l' => baseSet_loop h l' rest value
               | _ =>
                   let '(l', h1) := alloc h ∅ in
                   baseSet_loop (assign h1 nested key (VRef l')) l' rest value
               end
           end
  end.

(** [_.set(object, key, value)] *)
Definition set (h : Heap) (object : Val) (key : string) (value : Val) : Heap :=
  match object with
  | VRef l => baseSet_loop h l (castPath h key object) value
  | _ => h
  end.

(** [_.clone(value)]: a shallow copy. A primitive is returned as it is; an
    object is copied into a new object holding the same property values, so
    nested objects stay shared with the original. *)
Definition clone (h : Heap) (value : Val) : Val * Heap :=
  match value with
  | VRef l => let '(l', h') := alloc h (default ∅ (h !! l)) in (VRef l', h')
  | _ => (value, h)
  end.

(** [parent(object, path)]: what holds the last segment of [path]. *)
Definition parent (h : Heap) (object : Val) (path : list string) : Val :=
  match path with
  | [] | [_] => object
  | _ :: _ :: _ => baseGet_loop h object (removelast path)
  end.

(** [delete o[k]] on an object of the store. *)
Definition delete_prop (h : Heap) (l : loc) (k : string) : Heap :=
  alter (base.delete k) l h.

(** [baseUnset(object, path)]: the last segment is deleted from its parent
    when the parent is an object; on [undefined], [null] and the other
    primitives nothing changes. This is lodash 4.17.21; later releases
    refuse a path through [__proto__] or [constructor.prototype], and what is
    proved of [unset] leaves such keys out. *)
Definition baseUnset (h : Heap) (object : Val) (key : string) : Heap :=
  let path := castPath h key object in
  match parent h object path, last path with
  | VRef l, Some k => delete_prop h l k
  | _, _ => h
  end.

(** [_.unset(object, key)] *)
Definition unset (h : Heap) (object : Val) (key : string) : Heap :=
  if nullish object then h else baseUnset h object key.

End Lodash.

(* ===================================================================== *)
(** ** The configuration store ([src/Config/index.js]) *)
(* ===================================================================== *)

Module Config.
Import Js.

(** The payload of a [config::set] event. *)
Record SetEvent : Type := mkSetEvent {
  ev_key : string;
  ev_value : Val;
  ev_oldValue : Val
}.

(** A [Config] instance: the object store, the root object [this._config]
    and what has been emitted on [this.Event]. *)
Record t : Type := mkConfig {
  heap : Heap;
  _config : loc;
  emitted : list SetEvent
}.

(** [get(key, defaultValue)] *)
Definition get (c : t) (key : string) (defaultValue : Val) : Val * t :=
  let '(v, h') := Lodash.clone (heap c) (Lodash.get (heap c) (VRef (_config c)) key defaultValue) in
  (v, mkConfig h' (_config c) (emitted c)).

(** [set(key, value, emit = true)] *)
Definition set (c : t) (key : string) (value : Val) (emit : bool) : t :=
  let '(oldValue, c1) := get c key VUndef in
  let h2 := Lodash.set (heap c1) (VRef (_config c1)) key value in
  mkConfig h2 (_config c1)
           (if emit then emitted c1 ++ [mkSetEvent key value oldValue] else emitted c1).

(** The payload of a [config::delete] event. *)
Record DeleteEvent : Type := mkDeleteEvent {
  del_key : string;
  del_oldValue : Val
}.

(** [delete(key, emit = true)]. The [config::delete] event is given beside
    the instance: [emitted] lists the [config::set] events. *)
Definition delete (c : t) (key : string) (emit : bool) : t * option DeleteEvent :=
  let '(oldValue, c1) := get c key VUndef in
  let h2 := Lodash.unset (heap c1) (VRef (_config c1)) key in
  (mkConfig h2 (_config c1) (emitted c1),
   if emit then Some (mkDeleteEvent key oldValue) else None).

(** [syncWithFileSystem()]. [requireAll] reads the configuration directory:
    it gives the object it has built, in a store that holds it, or throws.
    A failure with the code [ENOENT] is swallowed. *)
Definition syncWithFileSystem (requireAll : Heap -> Error + loc * Heap) (c : t) : Error + t :=
  match requireAll (heap c) with
  | inr (root, h') => inr (mkConfig h' root (emitted c))
  | inl error =>
      if negb (strict_eq (code error) (VStr "ENOENT")) then inl error else inr c
  end.

(** [new Config(configPath, Event)] *)
Definition constructor (requireAll : Heap -> Error + loc * Heap) : Error + t :=
  let '(l, h) := alloc ∅ ∅ in
  syncWithFileSystem requireAll (mkConfig h l []).

End Config.

(* ===================================================================== *)
(** ** The response object *)
(* ===================================================================== *)

Module Response.
Import Js.

(** [response.lazyBody]: the staged body and the method that will write it. *)
Record LazyBody : Type := mkLazyBody {
  content : Val;
  method : Val
}.

(** Modelled from the spec: the [Response] class ([src/Response]) is not
    among the sources. A response is pending until its stream is closed; a
    body and a status can be staged on it without closing the stream (the
    soft-set state); closing the stream writes the staged body. [implicitEnd]
    is the flag [_endResponse] reads: when it is on (the default) the
    framework closes the stream, when it is off the caller writes and closes
    it. [closes] counts how many times the stream has been closed, so that a
    double close is visible. *)
Record t : Type := mkResponse {
  isPending : bool;
  implicitEnd : bool;
  lazyBody : LazyBody;
  statusCode : Z;
  written : option Val;
  closes : nat
}.

(** The three states of the spec. *)
Inductive State : Type := Pending | SoftSet | Ended.

(** A body is staged: the staged content is not [undefined] or [null] and
    there is a method to write it. *)
Definition staged (r : t) : bool :=
  negb (nullish (content (lazyBody r))) && truthy (method (lazyBody r)).

Definition state (r : t) : State :=
  if negb (isPending r) then Ended
  else if staged r then SoftSet
  else Pending.

(** Modelled from the spec: a response on which nothing has been sent. *)
Definition fresh : t :=
  mkResponse true true (mkLazyBody VNull (VStr "send")) 200 None 0.

(** Modelled from the spec: [response.status(code)] sets the status of the
    response. *)
Definition status (code : Z) (r : t) : t :=
  mkResponse (isPending r) (implicitEnd r) (lazyBody r) code (written r) (closes r).

(** Modelled from the spec: [response.end()] closes the stream, writing the
    staged body if there is one. *)
Definition end_ (r : t) : t :=
  mkResponse false (implicitEnd r) (lazyBody r) (statusCode r)
             (if isPending r && staged r then Some (content (lazyBody r)) else written r)
             (S (closes r)).

(** Modelled from the spec: [response.send(body)] stages the body when the
    framework is to close the stream; otherwise it writes the body and
    closes the stream at once, and does nothing on a closed stream. *)
Definition send (body : Val) (r : t) : t :=
  if implicitEnd r
  then mkResponse (isPending r) (implicitEnd r) (mkLazyBody body (VStr "send"))
                  (statusCode r) (written r) (closes r)
  else if isPending r
  then mkResponse false (implicitEnd r) (lazyBody r) (statusCode r) (Some body) (S (closes r))
  else r.

(** [response.implicitEnd = b] *)
Definition set_implicitEnd (b : bool) (r : t) : t :=
  mkResponse (isPending r) b (lazyBody r) (statusCode r) (written r) (closes r).

End Response.

(* ===================================================================== *)
(** ** The HTTP server ([src/Server/index.js]) *)
(* ===================================================================== *)

Module Server.
Import Js.

(** *** Collaborators *)

(** [ctx.request]: what [_getRoute] reads from it, and the [params] it
    writes to it. *)
Record Request : Type := mkRequest {
  url : string;
  method : string;
  hostname : string;
  request_params : option (list (string * string))
}.

(** What a middleware link, a route handler or an exception handler does to
    the request context. *)
Inductive CtxOp : Type :=
| OpSend (body : Val)
| OpStatus (code : Z)
| OpEnd
| OpImplicitEnd (b : bool)
| OpTimeout (t : Val).

(** How a middleware link ends: it awaits [next()] and returns, it returns
    without calling [next], or it throws. *)
Inductive LinkAction : Type :=
| CallsNext
| Returns
| Throws (e : Error).

(** A link of a chain of the middleware runner (an external package): what
    it does before it ends, how it ends, and what it does once the links
    after it are done. A failure below a link passes through it. *)
Record Middleware : Type := mkMiddleware {
  mw_name : string;
  mw_before : list CtxOp;
  mw_action : LinkAction;
  mw_after : list CtxOp
}.

(** What calling the route's method does. [Settles d r]: it returns a
    promise that settles [d] milliseconds after the call; [Settles 0 r] is a
    promise already settled when the race is built. *)
Inductive Invocation : Type :=
| ThrowsSync (e : Error)
| ReturnsSync (v : Val)
| Settles (d : Z) (r : Error + Val)
| NeverSettles.

(** A route handler as [resolver.resolveFunc] finds it: the resolution can
    fail; the method, once called, acts on the context and completes as
    [invocation] says. *)
Record Handler : Type := mkHandler {
  unresolved : option Error;
  effects : list CtxOp;
  invocation : Invocation
}.

(** Modelled from the spec: the route descriptor of the route store
    ([src/Route]), not among the sources: the cluster-group tag, the named
    middleware of the route and its handler. *)
Record RouteDef : Type := mkRouteDef {
  clusterGroup : Val;
  middlewareList : list string;
  handler : Handler
}.

(** Modelled from the spec: what [Route.match] resolves a request to. *)
Record RouteMatch : Type := mkRouteMatch {
  route : RouteDef;
  params : list (string * string);
  subdomains : list (string * string)
}.

(** The exception handler [ioc.make] builds. [eh_report] and [eh_handle] are
    [None] when the property is not a function. [report] may throw; [handle]
    acts on the context and may throw. *)
Record ExceptionHandler : Type := mkExceptionHandler {
  eh_report : option (Error -> option Error);
  eh_handle : option (Error -> list CtxOp * option Error)
}.

(** [process.env] *)
Record Env : Type := mkEnv {
  WORKER_TYPE : Val;
  HTTP_PORT : Val;
  HTTP_PROXY_ENABLED : Val
}.

(** The server instance. [_proxy] is [true] for a proxy server and [false]
    for [null]. *)
Record t : Type := mkServer {
  Route_match : string -> string -> string -> option RouteMatch;
  middleware_server : list Middleware;
  middleware_global : list Middleware;
  middleware_named : gmap string Middleware;
  _exceptionHandlerNamespace : Val;
  ioc_make : Val -> Error + ExceptionHandler;
  _proxy : bool
}.

(** The constructor: the proxy server exists only when
    [HTTP_PROXY_ENABLED] is the string [true]. The registries are given
    filled, as after the calls to [use], [registerGlobal], [registerNamed]
    and [bindExceptionHandler]. *)
Definition constructor (env : Env)
    (Route_match : string -> string -> string -> option RouteMatch)
    (server global : list Middleware) (named : gmap string Middleware)
    (ns : Val) (ioc_make : Val -> Error + ExceptionHandler) : t :=
  mkServer Route_match server global named ns ioc_make
           (strict_eq (HTTP_PROXY_ENABLED env) (VStr "true")).

(** *** The request context and the world a request runs in *)

(** [ctx.abort]: how many times [abort()] has been called on the
    controller. *)
Record AbortController : Type := mkAbortController {
  abort_calls : nat
}.

(** Modelled from the spec: the request context ([src/Context] is not among
    the sources), with the fields the dispatcher reads and writes. *)
Record Context : Type := mkContext {
  request : Request;
  response : Response.t;
  ctx_params : option (list (string * string));
  ctx_subdomains : option (list (string * string));
  timeout : Val;
  abort : option AbortController
}.

(** [new this.Context(req, res)] *)
Definition new_Context (req : Request) (res : Response.t) : Context :=
  mkContext req res None None VUndef None.

(** A timer of [timers/promises]: its delay and whether it has fired. *)
Record Timer : Type := mkTimer {
  delay : Z;
  fired : bool
}.

(** What can be observed of a request, in order. *)
Inductive Event : Type :=
| EvServerMiddleware (name : string)
| EvRouteMiddleware (name : string)
| EvHandlerInvoked
| EvTimerArmed (delay : Z)
| EvTimerFired
| EvAbort
| EvProxyWeb (target : string)
| EvReport (e : Error)
| EvHandle (e : Error).

#[global] Instance Event_eq_dec : EqDecision Event.
Proof. solve_decision. Defined.

Record World : Type := mkWorld {
  config : Config.t;
  ctx : Context;
  timers : list Timer;
  trace : list Event
}.

(** *** Computations that act on the world and may throw *)

Inductive Res (A : Type) : Type :=
| Ok (a : A)
| Throw (e : Error).
Arguments Ok {A} a.
Arguments Throw {A} e.

Definition M (A : Type) : Type := World -> Res A * World.

Definition ret {A} (a : A) : M A := fun w => (Ok a, w).

Definition bind {A B} (m : M A) (k : A -> M B) : M B :=
  fun w =>
    match m w with
    | (Ok a, w') => k a w'
    | (Throw e, w') => (Throw e, w')
    end.

Definition throw {A} (e : Error) : M A := fun w => (Throw e, w).

(** [try { m } catch (e) { h e }]: what [m] did before it threw stays done. *)
Definition try_catch {A} (m : M A) (h : Error -> M A) : M A :=
  fun w =>
    match m w with
    | (Ok a, w') => (Ok a, w')
    | (Throw e, w') => h e w'
    end.

(** [p.finally(f)]: [f] runs however [p] settles, and [p]'s outcome stands. *)
Definition finally {A} (m : M A) (f : World -> World) : M A :=
  fun w => let '(r, w') := m w in (r, f w').

Definition get_world : M World := fun w => (Ok w, w).

Definition modify (f : World -> World) : M unit := fun w => (Ok tt, f w).

Declare Scope js_scope.
Delimit Scope js_scope with js.
Notation "x <- m ;; k" := (bind m (fun x => k))
  (at level 100, m at next level, right associativity) : js_scope.
Notation "m ;; k" := (bind m (fun _ => k))
  (at level 100, right associativity) : js_scope.
Open Scope js_scope.

Definition with_ctx (f : Context -> Context) (w : World) : World :=
  mkWorld (config w) (f (ctx w)) (timers w) (trace w).

Definition with_response (f : Response.t -> Response.t) (c : Context) : Context :=
  mkContext (request c) (f (response c)) (ctx_params c) (ctx_subdomains c)
            (timeout c) (abort c).

Definition with_timeout (t : Val) (c : Context) : Context :=
  mkContext (request c) (response c) (ctx_params c) (ctx_subdomains c) t (abort c).

Definition with_abort (a : option AbortController) (c : Context) : Context :=
  mkContext (request c) (response c) (ctx_params c) (ctx_subdomains c) (timeout c) a.

Definition emit_event (e : Event) (w : World) : World :=
  mkWorld (config w) (ctx w) (timers w) (trace w ++ [e]).

Definition emit (e : Event) : M unit := modify (emit_event e).

Definition on_response (f : Response.t -> Response.t) : M unit :=
  modify (with_ctx (with_response f)).

(** [this.Config.get(key)] *)
Definition Config_get (key : string) : M Val :=
  fun w =>
    let '(v, c') := Config.get (config w) key VUndef in
    (Ok v, mkWorld c' (ctx w) (timers w) (trace w)).

(** [v.p]: a [TypeError] on [undefined] and [null]. *)
Definition read_prop (v : Val) (p : string) : M Val :=
  fun w =>
    if nullish v then (Throw (TypeError_read v p), w)
    else (Ok (prop (Config.heap (config w)) v p), w).

Definition apply_op (op : CtxOp) (c : Context) : Context :=
  match op with
  | OpSend body => with_response (Response.send body) c
  | OpStatus code => with_response (Response.status code) c
  | OpEnd => with_response Response.end_ c
  | OpImplicitEnd b => with_response (Response.set_implicitEnd b) c
  | OpTimeout t => with_timeout t c
  end.

Definition apply_ops (ops : list CtxOp) : M unit :=
  modify (with_ctx (fun c => fold_left (fun c op => apply_op op c) ops c)).

(** *** Middleware chains *)

Inductive Stage : Type := ServerStage | RouteStage.

Definition link_event (stage : Stage) (name : string) : Event :=
  match stage with
  | ServerStage => EvServerMiddleware name
  | RouteStage => EvRouteMiddleware name
  end.

(** [run()] of the middleware runner on a composed chain: the links run in
    order, each one reaching the next through [next()]; [final] stands after
    the last link. *)
Fixpoint run_chain (stage : Stage) (links : list Middleware) (final : M unit) : M unit :=
  match links with
  | [] => final
  | l :: rest =>
      emit (link_event stage (mw_name l)) ;;
      apply_ops (mw_before l) ;;
      match mw_action l with
      | CallsNext => run_chain stage rest final ;; apply_ops (mw_after l)
      | Returns => ret tt
      | Throws e => throw e
      end
  end.

(** [composeGlobalAndNamed(routeMiddleware)] of the middleware runner: the
    global middleware, then the named middleware of the route, each entry
    looked up by the name before its colon; a name that is not registered
    fails the composition. *)
Fixpoint resolve_named (named : gmap string Middleware) (ids : list string)
  : Error + list Middleware :=
  match ids with
  | [] => inr []
  | id :: rest =>
      match named !! hd id (split_on ":" id) with
      | None =>
          inl (RuntimeException_invoke ("Cannot find any named middleware for " +:+ id))
      | Some m =>
          match resolve_named named rest with
          | inl e => inl e
          | inr ms => inr (m :: ms)
          end
      end
  end.

Definition composeGlobalAndNamed (srv : t) (routeMiddleware : list string)
  : Error + list Middleware :=
  match resolve_named (middleware_named srv) routeMiddleware with
  | inl e => inl e
  | inr ms => inr (middleware_global srv ++ ms)%list
  end.

(** [_executeServerMiddleware(ctx)] *)
Definition _executeServerMiddleware (srv : t) : M unit :=
  run_chain ServerStage (middleware_server srv) (ret tt).

(** *** Response helpers *)

(** [_madeSoftResponse(response)] *)
Definition _madeSoftResponse (response : Response.t) : bool :=
  negb (strict_eq (Response.content (Response.lazyBody response)) VUndef)
  && negb (strict_eq (Response.content (Response.lazyBody response)) VNull)
  && truthy (Response.method (Response.lazyBody response)).

(** [_safelySetResponse(response, content)] *)
Definition _safelySetResponse (response : Response.t) (content : Val) : Response.t :=
  if negb (_madeSoftResponse response) && negb (strict_eq content VUndef)
  then Response.send content response
  else response.

(** [_endResponse(response)] *)
Definition _endResponse (response : Response.t) : Response.t :=
  if Response.isPending response && Response.implicitEnd response
  then Response.end_ response
  else response.

(** [_evaluateResponse(response)] *)
Definition _evaluateResponse (response : Response.t) : Response.t :=
  if _madeSoftResponse response && Response.isPending response
  then _endResponse response
  else response.

(** *** The timeout race of [_routeHandler] *)

(** [TIMEOUT_MAX] of the runtime's timers. *)
Definition TIMEOUT_MAX : Z := 2147483647.

(** The delay a timer is given: [after] is coerced to a number, and a delay
    that is not between 1 and [TIMEOUT_MAX] becomes 1. *)
Definition timer_delay (after : Val) : Z :=
  match (if bool_decide (after = VUndef) then Int 1 else to_number after) with
  | Int n => if (1 <=? n) && (n <=? TIMEOUT_MAX) then n else 1
  | NaN => 1
  end.

(** The promise [setTimeout(...).then(...).catch(...)] of the race: it
    rejects at once when the timer was refused, and otherwise it rejects with
    the timeout failure when the timer fires. *)
Inductive TimerPromise : Type :=
| Rejected (e : Error)
| FiresAfter (T : Z).

(** [setTimeout(after, undefined, { signal })] of [timers/promises]. The
    store holds no [AbortSignal], so a signal other than [undefined] is
    refused (an object made to pass for a signal is not modelled); with no
    signal the timer is armed and nothing can cancel it. *)
Definition setTimeout (after signal : Val) : M TimerPromise :=
  if bool_decide (signal = VUndef)
  then
    modify (fun w => mkWorld (config w) (ctx w)
                             (timers w ++ [mkTimer (timer_delay after) false])
                             (trace w)) ;;
    emit (EvTimerArmed (timer_delay after)) ;;
    ret (FiresAfter (timer_delay after))
  else ret (Rejected invalid_signal).

(** The failure the [then] callback of the timer throws; its code is not
    [ABORT_ERR], so the [catch] callback throws it again. *)
Definition timeout_error (t : Val) : Error :=
  HttpException ("Request timed out after " +:+ to_string t +:+ " ms") 500 "E_SERVER_TIMEOUT".

(** The timer armed last fires. *)
Definition fire_timer : M unit :=
  modify (fun w =>
            mkWorld (config w) (ctx w)
                    (match rev (timers w) with
                     | tm :: older => rev older ++ [mkTimer (delay tm) true]
                     | [] => []
                     end)
                    (trace w)) ;;
  emit EvTimerFired.

(** [resolver.forDir(...).resolveFunc(params[0])] *)
Definition resolveFunc (h : Handler) : M unit :=
  match unresolved h with
  | Some e => throw e
  | None => ret tt
  end.

(** [method(ctx)]: the call itself. A method that returns or throws without
    a promise has acted on the context by then. *)
Definition invoke (h : Handler) : M unit :=
  emit EvHandlerInvoked ;;
  match invocation h with
  | ThrowsSync e => apply_ops (effects h) ;; throw e
  | ReturnsSync _ => apply_ops (effects h)
  | Settles _ _ | NeverSettles => ret tt
  end.

(** The handler's promise settles: its effects on the context are in. *)
Definition settle (h : Handler) (r : Error + Val) : M Val :=
  apply_ops (effects h) ;;
  match r with
  | inl e => throw e
  | inr v => ret v
  end.

(** [Promise.race([method(ctx), timer])]: the handler comes first in the
    array, so a value or a settled promise wins; a pending promise wins when
    it settles before the timer is due. What the loser does afterwards is
    not part of the request. *)
Definition race (h : Handler) (p : TimerPromise) (t : Val) : M Val :=
  match invocation h, p with
  | ThrowsSync e, _ => throw e
  | ReturnsSync v, _ => ret v
  | Settles d r, FiresAfter T =>
      if d <? T then settle h r else fire_timer ;; throw (timeout_error t)
  | Settles d r, Rejected e =>
      if d <=? 0 then settle h r else throw e
  | NeverSettles, FiresAfter T => fire_timer ;; throw (timeout_error t)
  | NeverSettles, Rejected e => throw e
  end.

(** [ctx.abort.abort()] *)
Definition abort_ctx (w : World) : World :=
  emit_event EvAbort
    (with_ctx (fun c => with_abort
                          (match abort c with
                           | Some a => Some (mkAbortController (S (abort_calls a)))
                           | None => None
                           end) c) w).

(** The timeout guard: the statements of [_routeHandler] up to
    [returnValue], with [params[0]] the handler. The elements of the array
    given to [Promise.race] are evaluated before [finally] is attached. *)
Definition timeout_guard (h : Handler) : M Val :=
  resolveFunc h ;;
  modify (with_ctx (with_abort (Some (mkAbortController 0)))) ;;
  w <- get_world ;;
  t <- (if nullish (timeout (ctx w)) then Config_get "app.http.timeout"
        else ret (timeout (ctx w))) ;;
  modify (with_ctx (with_timeout t)) ;;
  invoke h ;;
  signal <- read_prop t "signal" ;;
  p <- setTimeout t signal ;;
  finally (race h p t) abort_ctx.

(** [_routeHandler(ctx, next, params)] *)
Definition _routeHandler (h : Handler) (next : M unit) : M unit :=
  returnValue <- timeout_guard h ;;
  on_response (fun response => _safelySetResponse response returnValue) ;;
  next.

(** Timers still pending when the request is over fire when they are due;
    the race they belonged to is settled, so nothing else happens. *)
Definition after_deadline (w : World) : World :=
  mkWorld (config w) (ctx w)
          (map (fun tm => mkTimer (delay tm) true) (timers w))
          (trace w ++ map (fun _ => EvTimerFired) (filter (fun tm => fired tm = false) (timers w))).

(** [_executeRouteHandler(routeMiddleware, ctx, routeHandler)] *)
Definition _executeRouteHandler (srv : t) (routeMiddleware : list string) (h : Handler)
  : M unit :=
  match composeGlobalAndNamed srv routeMiddleware with
  | inl e => throw e
  | inr links => run_chain RouteStage links (_routeHandler h (ret tt))
  end.

(** *** Routing, proxying, the exception funnel and [handle] *)

(** [_getRoute(ctx)] *)
Definition _getRoute (srv : t) : M RouteMatch :=
  w <- get_world ;;
  let rq := request (ctx w) in
  match Route_match srv (url rq) (method rq) (hostname rq) with
  | None =>
      throw (HttpException ("Route not found " +:+ method rq +:+ " " +:+ url rq)
                           404 "E_ROUTE_NOT_FOUND")
  | Some rt =>
      modify (with_ctx (fun c =>
        mkContext (mkRequest (url rq) (method rq) (hostname rq) (Some (params rt)))
                  (response c) (Some (params rt)) (Some (subdomains rt))
                  (timeout c) (abort c))) ;;
      ret rt
  end.

(** [this._proxy.web(req, res, { target })]: a [TypeError] when [_proxy] is
    [null]. *)
Definition proxy_web (srv : t) (target : string) : M unit :=
  if _proxy srv then emit (EvProxyWeb target)
  else throw (TypeError_read VNull "web").

(** The body of the two [if (route.route.clusterGroup !== WORKER_TYPE)]
    blocks of [handle]. *)
Definition proxy_request (srv : t) (env : Env) (rt : RouteMatch) : M unit :=
  group <- Config_get ("app.cluster.groups." +:+ to_string (clusterGroup (route rt))) ;;
  let base := parseInt (HTTP_PORT env) in
  portScale <- read_prop group "portScale" ;;
  let target := "http://localhost:" +:+ to_string (js_add base portScale) in
  proxy_web srv target.

(** [_handleException(error, ctx)]. The [catch] block binds its own [error]:
    the body it sends describes the failure of the funnel. *)
Definition _handleException (srv : t) (error : Error) : M unit :=
  let error :=
    mkError (name error) (message error)
            (if truthy (status error) then status error else VNum (Int 500))
            (code error) (stack error) in
  try_catch
    match ioc_make srv (_exceptionHandlerNamespace srv) with
    | inl e => throw e
    | inr handler =>
        match eh_handle handler, eh_report handler with
        | Some handle_fn, Some report_fn =>
            emit (EvReport error) ;;
            match report_fn error with
            | Some e => throw e
            | None => ret tt
            end ;;
            emit (EvHandle error) ;;
            apply_ops (fst (handle_fn error)) ;;
            match snd (handle_fn error) with
            | Some e => throw e
            | None => ret tt
            end
        | _, _ =>
            throw (RuntimeException_invoke
                     (to_string (_exceptionHandlerNamespace srv)
                      +:+ " class must have handle and report methods on it"))
        end
    end
    (fun error =>
       on_response (fun response =>
         Response.send
           (VStr (name error +:+ ": " +:+ message error +:+ newline +:+ stack error))
           (Response.status 500 response))) ;;
  on_response _endResponse.

(** The first [then] callback of [handle]. *)
Definition after_server_middleware (srv : t) (env : Env) (rt : RouteMatch) : M unit :=
  on_response _evaluateResponse ;;
  w <- get_world ;;
  if negb (Response.isPending (response (ctx w))) then ret tt
  else if negb (strict_eq (clusterGroup (route rt)) (WORKER_TYPE env))
  then proxy_request srv env rt
  else _executeRouteHandler srv (middlewareList (route rt)) (handler (route rt)).

(** [handle(req, res)], on a world whose context is [new Context(req, res)].
    The route is resolved and the cluster group compared before the promise
    chain starts, so a failure there is thrown by [handle] itself; a failure
    inside the chain goes to its [catch] callback. *)
Definition handle (srv : t) (env : Env) : M unit :=
  rt <- _getRoute srv ;;
  if negb (strict_eq (clusterGroup (route rt)) (WORKER_TYPE env))
  then proxy_request srv env rt
  else
    try_catch
      (_executeServerMiddleware srv ;;
       after_server_middleware srv env rt ;;
       on_response _endResponse)
      (fun error => _handleException srv error).

(** A request arrives: [handle(req, res)] runs on a new context. *)
Definition serve (srv : t) (env : Env) (cfg : Config.t) (req : Request) (res : Response.t)
  : Res unit * World :=
  handle srv env (mkWorld cfg (new_Context req res) [] []).

End Server.

(* ===================================================================== *)
(** ** The scenarios of the specification, as data *)
(* ===================================================================== *)

Module Scenario.
Import Js Server.

(** The configuration: a default timeout of 5000 ms and the cluster group
    [web] at port offset 10. *)
Definition store : Heap :=
  {[ 0%nat := {[ "app" := VRef 1%nat ]};
     1%nat := {[ "http" := VRef 2%nat; "cluster" := VRef 3%nat ]};
     2%nat := {[ "timeout" := VNum (Int 5000) ]};
     3%nat := {[ "groups" := VRef 4%nat ]};
     4%nat := {[ "web" := VRef 5%nat ]};
     5%nat := {[ "portScale" := VNum (Int 10) ]} ]}.

Definition cfg : Config.t := Config.mkConfig store 0%nat [].

(** A configuration with nothing in it. *)
Definition bare : Config.t := Config.mkConfig {[ 0%nat := ∅ ]} 0%nat [].

(** A handler that resolves with [hello] after [d] milliseconds. *)
Definition greets_after (d : Z) : Handler :=
  mkHandler None [] (Settles d (inr (VStr "hello"))).

(** [GET /users/:id] for the cluster group [group], resolved with
    [id = 42]. *)
Definition users (group : Val) (h : Handler) : RouteMatch :=
  mkRouteMatch (mkRouteDef group [] h) [("id", "42")] [].

Definition router (group : Val) (h : Handler) (u m host : string) : option RouteMatch :=
  if String.eqb u "/users/42" && String.eqb m "GET" then Some (users group h) else None.

(** An exception handler that reports, and answers with the message of the
    failure under its status. *)
Definition exceptions : ExceptionHandler :=
  mkExceptionHandler
    (Some (fun _ => None))
    (Some (fun e => ([OpStatus (match status e with VNum (Int z) => z | _ => 500 end);
                      OpSend (VStr (message e))], None))).


(** A server middleware that answers from a cache and does not call
    [next]. *)
Definition cache : Middleware :=
  mkMiddleware "cache" [OpSend (VStr "cached")] Returns [].

Definition server (env : Env) (group : Val) (h : Handler) (links : list Middleware)
  : Server.t :=
  constructor env (router group h) links [] ∅
              (VStr "App/Exceptions/Handler") (fun _ => inr exceptions).

(** A worker of the group [utility] over the base port 8000, with and
    without the proxy. *)
Definition proxying : Env := mkEnv (VStr "utility") (VStr "8000") (VStr "true").
Definition standalone : Env := mkEnv (VStr "utility") (VStr "8000") VUndef.


Definition get_user : Request := mkRequest "/users/42" "GET" "localhost" None.
Definition get_nothing : Request := mkRequest "/nothing" "GET" "localhost" None.

End Scenario.

(* ===================================================================== *)
(** ** Vocabulary of the properties *)
(* ===================================================================== *)

Import Js.

(** The world in which the promise chain of [handle] starts: the context
    carries the parameters of the matched route. *)
Definition routed (cfg : Config.t) (req : Server.Request) (res : Response.t)
    (rt : Server.RouteMatch) : Server.World :=
  Server.mkWorld cfg
    (Server.mkContext
       (Server.mkRequest (Server.url req) (Server.method req) (Server.hostname req)
                         (Some (Server.params rt)))
       res (Some (Server.params rt)) (Some (Server.subdomains rt)) VUndef None)
    [] [].

(** The timeout [_routeHandler] works with: [ctx.timeout], or the
    configured [app.http.timeout] when that is [undefined] or [null]. *)
Definition configured_timeout (w : Server.World) : Val :=
  if nullish (Server.timeout (Server.ctx w))
  then fst (Config.get (Server.config w) "app.http.timeout" VUndef)
  else Server.timeout (Server.ctx w).

(** The handler's promise is still pending when a timer of delay [T]
    fires. *)
Definition pending_after (h : Server.Handler) (T : Z) : bool :=
  match Server.invocation h with
  | Server.Settles d _ => T <=? d
  | Server.NeverSettles => true
  | Server.ThrowsSync _ | Server.ReturnsSync _ => false
  end.

(** The handler takes more than [n] milliseconds. *)
Definition exceeds (h : Server.Handler) (n : Z) : bool :=
  match Server.invocation h with
  | Server.Settles d _ => n <? d
  | Server.NeverSettles => true
  | Server.ThrowsSync _ | Server.ReturnsSync _ => false
  end.

(** The link awaits [next()]. *)
Definition passes (l : Server.Middleware) : bool :=
  match Server.mw_action l with
  | Server.CallsNext => true
  | _ => false
  end.

(** The world in which the end of a chain is reached when every link of it
    has passed: each link has been entered and has done what it does before
    [next()]. *)
Definition entered (stage : Server.Stage) (links : list Server.Middleware)
    (w : Server.World) : Server.World :=
  fold_left
    (fun w l =>
       snd (Server.apply_ops (Server.mw_before l)
              (Server.emit_event (Server.link_event stage (Server.mw_name l)) w)))
    links w.

(** The world in which the race of [_routeHandler] starts, for a handler
    that returns a promise: the controller is new, the timeout is [t], the
    method has been called and the timer is armed. *)
Definition racing (w : Server.World) (t : Val) : Server.World :=
  Server.mkWorld
    (if nullish (Server.timeout (Server.ctx w))
     then snd (Config.get (Server.config w) "app.http.timeout" VUndef)
     else Server.config w)
    (Server.with_timeout t
       (Server.with_abort (Some (Server.mkAbortController 0)) (Server.ctx w)))
    (Server.timers w ++ [Server.mkTimer (Server.timer_delay t) false])
    (Server.trace w ++ [Server.EvHandlerInvoked; Server.EvTimerArmed (Server.timer_delay t)]).

(** The method of the handler returns a promise. *)
Definition returns_promise (h : Server.Handler) : bool :=
  match Server.invocation h with
  | Server.Settles _ _ | Server.NeverSettles => true
  | Server.ThrowsSync _ | Server.ReturnsSync _ => false
  end.

(** The world in which the guard throws the timeout failure: the timer has
    fired and [finally] has aborted the controller. *)
Definition timed_out (w : Server.World) (t : Val) : Server.World :=
  Server.abort_ctx
    (Server.mkWorld
       (Server.config (racing w t))
       (Server.ctx (racing w t))
       (Server.timers w ++ [Server.mkTimer (Server.timer_delay t) true])
       (Server.trace (racing w t) ++ [Server.EvTimerFired])).

(** How the method of the handler completes by itself. *)
Definition own_outcome (h : Server.Handler) : option (Server.Res Val) :=
  match Server.invocation h with
  | Server.ThrowsSync e => Some (Server.Throw e)
  | Server.ReturnsSync v => Some (Server.Ok v)
  | Server.Settles _ (inl e) => Some (Server.Throw e)
  | Server.Settles _ (inr v) => Some (Server.Ok v)
  | Server.NeverSettles => None
  end.

(** A world for the route handler alone: the context of a new request whose
    [timeout] is [t]. *)
Definition at_handler (cfg : Config.t) (t : Val) : Server.World :=
  Server.mkWorld cfg
    (Server.with_timeout t (Server.new_Context Scenario.get_user Response.fresh)) [] [].





(** A value is valid in a store when the object it refers to, if any, is in
    the store. *)
Definition valid (h : Heap) (v : Val) : Prop :=
  match v with
  | VRef l => l ∈ dom h
  | _ => True
  end.

#[global] Instance valid_dec h v : Decision (valid h v).
Proof. destruct v; cbn; apply _. Defined.

(** A store is closed when every reference held by one of its objects is
    valid: there is no dangling reference. *)
Definition closed (h : Heap) : Prop :=
  map_Forall (fun _ (o : gmap string Val) => map_Forall (fun _ v => valid h v) o) h.

(** Two stores agree on the objects of the first. *)
Definition extends (h h' : Heap) : Prop :=
  forall l, l ∈ dom h -> h' !! l = h !! l.


(** The objects [baseSet] goes through from [nested] along [path], as the
    store stands before the write. *)
Fixpoint walk (h : Heap) (nested : loc) (path : list string) : list loc :=
  match path with
  | [] => []
  | key :: rest =>
      nested :: match rest with
                | [] => []
                | _ :: _ =>
                    match own h nested key with
                    | VRef l' => walk h l' rest
                    | _ => []
                    end
                end
  end.

(** A key can be set and read back when none of its segments is one
    [baseSet] refuses, and the objects along its path are distinct: the
    store has no cycle there. *)
Definition settable (h : Heap) (root : loc) (key : string) : Prop :=
  Forall (fun k => Lodash.unsafe_key k = false) (Lodash.castPath h key (VRef root))
  /\ NoDup (walk h root (Lodash.castPath h key (VRef root))).

#[global] Instance closed_dec h : Decision (closed h).
Proof. unfold closed. apply _. Defined.

#[global] Instance settable_dec h root key : Decision (settable h root key).
Proof. unfold settable. apply _. Defined.

(** A property assignment [target[p] = w] made by a caller of [Config.get]
    on a value it holds; nothing happens to the store when the value is a
    primitive. *)
Definition caller_assign (c : Config.t) (target : Val) (p : string) (w : Val) : Config.t :=
  match target with
  | VRef l => Config.mkConfig (assign (Config.heap c) l p w) (Config._config c)
                              (Config.emitted c)
  | _ => c
  end.


(** The link awaits [next()] and does nothing once the links after it are
    done. *)
Definition hands_over (l : Server.Middleware) : bool :=
  match Server.mw_action l, Server.mw_after l with
  | Server.CallsNext, [] => true
  | _, _ => false
  end.

(** The event of entering a link of the route chain. *)
Definition route_event (l : Server.Middleware) : Server.Event :=
  Server.EvRouteMiddleware (Server.mw_name l).

(* ===================================================================== *)
(** ** Server instances and listening ([src/Server/index.js]) *)
(* ===================================================================== *)

Module Lifecycle.
Import Js.

(** How a server object came to be: made by [http.createServer], by
    [https.createServer] from the contents of a [pfx] file and a passphrase,
    or by the caller of one of the setters. *)
Inductive Origin : Type :=
| HttpServer
| HttpsServer (pfx : string) (passphrase : Val)
| Custom.

(** A Node server object, as far as the framework acts on it: the targets of
    the [upgrade] listeners it has registered, the [(port, host)] of the
    calls to [listen] and the number of calls to [close]. *)
Record Instance : Type := mkInstance {
  origin : Origin;
  upgrade : list string;
  listen_calls : list (Val * Val);
  close_calls : nat
}.

(** What the framework asks of its host: whether [Handler.js] of the
    exceptions directory can be read, the namespace the resolver gives that
    file, the contents of a file, whether [https.createServer] accepts a
    certificate, and whether [server.listen] accepts a port and a host
    ([None]) or throws. *)
Record Host : Type := mkHost {
  accessSync_Handler : bool;
  translate_Handler : string;
  readFileSync : Val -> Error + string;
  https_createServer : string -> Val -> option Error;
  server_listen : Val -> Val -> option Error
}.

(** The three server slots of the class. *)
Inductive Kind : Type := ClusterWorker | Http | Https.

(** The [Server] instance with its server slots. A slot is [None] while it
    holds [null] or another falsy value, and refers to a server object of
    [servers] otherwise. [info] is what has been passed to [Logger.info]. *)
Record t : Type := mkState {
  server : Server.t;
  servers : gmap nat Instance;
  _httpClusterWorkerInstance : option nat;
  _httpInstance : option nat;
  _httpsInstance : option nat;
  config : Config.t;
  info : list string
}.

(** The constructor leaves the three slots [null]. *)
Definition constructor (srv : Server.t) (cfg : Config.t) : t :=
  mkState srv ∅ None None None cfg [].

Definition with_server (srv : Server.t) (s : t) : t :=
  mkState srv (servers s) (_httpClusterWorkerInstance s) (_httpInstance s)
          (_httpsInstance s) (config s) (info s).

Definition with_servers (m : gmap nat Instance) (s : t) : t :=
  mkState (server s) m (_httpClusterWorkerInstance s) (_httpInstance s)
          (_httpsInstance s) (config s) (info s).

Definition with_config (c : Config.t) (s : t) : t :=
  mkState (server s) (servers s) (_httpClusterWorkerInstance s) (_httpInstance s)
          (_httpsInstance s) c (info s).

Definition Logger_info (line : string) (s : t) : t :=
  mkState (server s) (servers s) (_httpClusterWorkerInstance s) (_httpInstance s)
          (_httpsInstance s) (config s) (info s ++ [line]).

Definition slot (k : Kind) (s : t) : option nat :=
  match k with
  | ClusterWorker => _httpClusterWorkerInstance s
  | Http => _httpInstance s
  | Https => _httpsInstance s
  end.

Definition set_slot (k : Kind) (v : option nat) (s : t) : t :=
  match k with
  | ClusterWorker =>
      mkState (server s) (servers s) v (_httpInstance s) (_httpsInstance s)
              (config s) (info s)
  | Http =>
      mkState (server s) (servers s) (_httpClusterWorkerInstance s) v (_httpsInstance s)
              (config s) (info s)
  | Https =>
      mkState (server s) (servers s) (_httpClusterWorkerInstance s) (_httpInstance s) v
              (config s) (info s)
  end.

(** The server object behind a reference; an object the framework has not
    seen yet is the caller's, with nothing done to it. *)
Definition instance (s : t) (id : nat) : Instance :=
  default (mkInstance Custom [] [] 0) (servers s !! id).

(** A method call that changes the server object [id]. *)
Definition on_instance (id : nat) (f : Instance -> Instance) (s : t) : t :=
  with_servers (<[id := f (instance s id)]> (servers s)) s.

(** [createServer]: a new server object. *)
Definition createServer (o : Origin) (s : t) : nat * t :=
  let id := fresh (dom (servers s)) in
  (id, with_servers (<[id := mkInstance o [] [] 0]> (servers s)) s).

(** *** The getters *)

(** [getHttpClusterWorkerInstance()] *)
Definition getHttpClusterWorkerInstance (s : t) : nat * t :=
  match _httpClusterWorkerInstance s with
  | Some id => (id, s)
  | None =>
      let '(id, s1) := createServer HttpServer s in
      (id, set_slot ClusterWorker (Some id) s1)
  end.

(** [getHttpInstance()] *)
Definition getHttpInstance (s : t) : nat * t :=
  match _httpInstance s with
  | Some id => (id, s)
  | None =>
      let '(id, s1) := createServer HttpServer s in
      (id, set_slot Http (Some id) s1)
  end.

(** [getHttpsInstance(pfxPath, pfxPassphrase)]: the certificate is read only
    when there is no instance yet. *)
Definition getHttpsInstance (host : Host) (pfxPath pfxPassphrase : Val) (s : t)
  : Server.Res nat * t :=
  match _httpsInstance s with
  | Some id => (Server.Ok id, s)
  | None =>
      match readFileSync host pfxPath with
      | inl e => (Server.Throw e, s)
      | inr pfx =>
          match https_createServer host pfx pfxPassphrase with
          | Some e => (Server.Throw e, s)
          | None =>
              let '(id, s1) := createServer (HttpsServer pfx pfxPassphrase) s in
              (Server.Ok id, set_slot Https (Some id) s1)
          end
      end
  end.

(** The getter of a slot. *)
Definition getInstance (host : Host) (k : Kind) (pfxPath pfxPassphrase : Val) (s : t)
  : Server.Res nat * t :=
  match k with
  | ClusterWorker => let '(id, s1) := getHttpClusterWorkerInstance s in (Server.Ok id, s1)
  | Http => let '(id, s1) := getHttpInstance s in (Server.Ok id, s1)
  | Https => getHttpsInstance host pfxPath pfxPassphrase s
  end.

(** *** The setters *)

(** [GE.RuntimeException.invoke(message, status, code)] *)
Definition RuntimeException_invoke3 (msg : string) (st : Z) (cd : string) : Error :=
  mkError "RuntimeException" msg (VNum (Int st)) (VStr cd)
          (stack_text "RuntimeException" msg).

Definition cannot_swap_http : Error :=
  RuntimeException_invoke3
    "Attempt to hot swap http instance failed. Make sure to call Server.setHttpInstance before starting the http server"
    500 "E_CANNOT_SWAP_SERVER".

Definition cannot_swap_https : Error :=
  RuntimeException_invoke3
    "Attempt to hot swap https instance failed. Make sure to call Server.setHttpsInstance before starting the https server"
    500 "E_CANNOT_SWAP_SERVER".

(** The argument of a setter: a server object of the caller, entered among
    the server objects when it is new, or a falsy value. *)
Definition adopt (v : option nat) (s : t) : t :=
  match v with
  | Some id => with_servers (<[id := instance s id]> (servers s)) s
  | None => s
  end.

(** [setHttpClusterWorkerInstance(httpClusterWorkerInstance)] *)
Definition setHttpClusterWorkerInstance (v : option nat) (s : t) : Server.Res unit * t :=
  match _httpClusterWorkerInstance s with
  | Some _ => (Server.Throw cannot_swap_http, s)
  | None => (Server.Ok tt, set_slot ClusterWorker v (adopt v s))
  end.

(** [setHttpInstance(httpInstance)] *)
Definition setHttpInstance (v : option nat) (s : t) : Server.Res unit * t :=
  match _httpInstance s with
  | Some _ => (Server.Throw cannot_swap_http, s)
  | None => (Server.Ok tt, set_slot Http v (adopt v s))
  end.

(** [setHttpsInstance(httpsInstance)] *)
Definition setHttpsInstance (v : option nat) (s : t) : Server.Res unit * t :=
  match _httpsInstance s with
  | Some _ => (Server.Throw cannot_swap_https, s)
  | None => (Server.Ok tt, set_slot Https v (adopt v s))
  end.

(** The setter of a slot. *)
Definition setInstance (k : Kind) (v : option nat) (s : t) : Server.Res unit * t :=
  match k with
  | ClusterWorker => setHttpClusterWorkerInstance v s
  | Http => setHttpInstance v s
  | Https => setHttpsInstance v s
  end.

(** *** The exception handler *)

(** [_getExceptionHandlerNamespace()] *)
Definition _getExceptionHandlerNamespace (host : Host) : string :=
  if accessSync_Handler host then translate_Handler host
  else "Adonis/Exceptions/BaseExceptionHandler".

Definition with_namespace (ns : Val) (srv : Server.t) : Server.t :=
  Server.mkServer (Server.Route_match srv) (Server.middleware_server srv)
                  (Server.middleware_global srv) (Server.middleware_named srv)
                  ns (Server.ioc_make srv) (Server._proxy srv).

(** [bindExceptionHandler(namespace)] *)
Definition bindExceptionHandler (host : Host) (namespace : Val) (s : t) : t :=
  with_server
    (with_namespace
       (if truthy namespace then namespace
        else VStr (_getExceptionHandlerNamespace host))
       (server s))
    s.

(** *** Listening *)

(** A parameter with a default: the default stands in for [undefined]
    only. *)
Definition default_arg (v d : Val) : Val :=
  if bool_decide (v = VUndef) then d else v.

(** The opening lines of the three [Listen] methods: the exception handler
    is bound when none is, and a line is logged. *)
Definition announce (host : Host) (env : Server.Env) (scheme : string) (h p : Val) (s : t)
  : t :=
  let s1 :=
    if negb (truthy (Server._exceptionHandlerNamespace (server s)))
    then bindExceptionHandler host VUndef s
    else s in
  Logger_info ("serving app on " +:+ scheme +:+ "://" +:+ to_string h +:+ ":"
               +:+ to_string p +:+ " (" +:+ to_string (Server.WORKER_TYPE env) +:+ ")")
              s1.

(** The guard of the [upgrade] wiring. *)
Definition forwards_upgrades (env : Server.Env) : bool :=
  strict_eq (Server.HTTP_PROXY_ENABLED env) (VStr "true")
  && negb (strict_eq (Server.WORKER_TYPE env) (VStr "utility")).

(** The closing lines of the three [Listen] methods, on the server object
    they have obtained: the [upgrade] listener is registered when upgrades
    are forwarded, and [server.listen(port, host, callback)] is called. *)
Definition wire_and_listen (host : Host) (env : Server.Env) (id : nat) (h p : Val) (s : t)
  : Server.Res nat * t :=
  let wired :=
    if forwards_upgrades env then
      let '(group, c') := Config.get (config s) "app.cluster.groups.utility" VUndef in
      let s1 := with_config c' s in
      if nullish group then (Server.Throw (TypeError_read group "portScale"), s1)
      else
        let target :=
          "http://localhost:"
          +:+ to_string (js_add (parseInt (Server.HTTP_PORT env))
                                (prop (Config.heap c') group "portScale")) in
        (Server.Ok tt,
         on_instance id (fun i => mkInstance (origin i) (upgrade i ++ [target])
                                             (listen_calls i) (close_calls i)) s1)
    else (Server.Ok tt, s) in
  match wired with
  | (Server.Throw e, s2) => (Server.Throw e, s2)
  | (Server.Ok _, s2) =>
      match server_listen host p h with
      | Some e => (Server.Throw e, s2)
      | None =>
          (Server.Ok id,
           on_instance id (fun i => mkInstance (origin i) (upgrade i)
                                               (listen_calls i ++ [(p, h)]) (close_calls i)) s2)
      end
  end.

(** [httpClusterWorkerListen(host = 'localhost', port = 81, callback)] *)
Definition httpClusterWorkerListen (host : Host) (env : Server.Env) (h p : Val) (s : t)
  : Server.Res nat * t :=
  let h := default_arg h (VStr "localhost") in
  let p := default_arg p (VNum (Int 81)) in
  let '(id, s1) := getHttpClusterWorkerInstance (announce host env "http" h p s) in
  wire_and_listen host env id h p s1.

(** [httpListen(host = 'localhost', port = 80, callback)] *)
Definition httpListen (host : Host) (env : Server.Env) (h p : Val) (s : t)
  : Server.Res nat * t :=
  let h := default_arg h (VStr "localhost") in
  let p := default_arg p (VNum (Int 80)) in
  let '(id, s1) := getHttpInstance (announce host env "http" h p s) in
  wire_and_listen host env id h p s1.

(** [httpsListen(host = 'localhost', port = 443, pfxPath, pfxPassphrase,
    callback)] *)
Definition httpsListen (host : Host) (env : Server.Env) (h p pfxPath pfxPassphrase : Val)
    (s : t) : Server.Res nat * t :=
  let h := default_arg h (VStr "localhost") in
  let p := default_arg p (VNum (Int 443)) in
  match getHttpsInstance host pfxPath pfxPassphrase (announce host env "https" h p s) with
  | (Server.Throw e, s1) => (Server.Throw e, s1)
  | (Server.Ok id, s1) => wire_and_listen host env id h p s1
  end.

(** The [Listen] method of a slot. *)
Definition listen (host : Host) (env : Server.Env) (k : Kind) (h p pfxPath pfxPassphrase : Val)
    (s : t) : Server.Res nat * t :=
  match k with
  | ClusterWorker => httpClusterWorkerListen host env h p s
  | Http => httpListen host env h p s
  | Https => httpsListen host env h p pfxPath pfxPassphrase s
  end.

(** The body of an [upgrade] listener: [this._proxy.ws(req, socket, head,
    { target })] forwards to [target], and fails on a [null] proxy. *)
Definition on_upgrade (s : t) (target : string) : Error + string :=
  if Server._proxy (server s) then inr target
  else inl (TypeError_read VNull "ws").

(** *** Closing *)

Definition close_instance (id : nat) (s : t) : t :=
  on_instance id (fun i => mkInstance (origin i) (upgrade i) (listen_calls i)
                                      (S (close_calls i))) s.

(** [httpClusterWorkerClose(callback)] *)
Definition httpClusterWorkerClose (s : t) : t :=
  let '(id, s1) := getHttpClusterWorkerInstance s in close_instance id s1.

(** [httpClose(callback)] *)
Definition httpClose (s : t) : t :=
  let '(id, s1) := getHttpInstance s in close_instance id s1.

(** [httpsClose(callback)]: the getter is called without arguments. *)
Definition httpsClose (host : Host) (s : t) : Server.Res unit * t :=
  match getHttpsInstance host VUndef VUndef s with
  | (Server.Throw e, s1) => (Server.Throw e, s1)
  | (Server.Ok id, s1) => (Server.Ok tt, close_instance id s1)
  end.

(** The [Close] method of a slot. *)
Definition close (host : Host) (k : Kind) (s : t) : Server.Res unit * t :=
  match k with
  | ClusterWorker => (Server.Ok tt, httpClusterWorkerClose s)
  | Http => (Server.Ok tt, httpClose s)
  | Https => httpsClose host s
  end.

(** *** Sequences of calls *)

(** A call to one of the methods above. *)
Inductive Call : Type :=
| Get (k : Kind) (pfxPath pfxPassphrase : Val)
| Set_ (k : Kind) (v : option nat)
| Bind (namespace : Val)
| Listen (k : Kind) (h p pfxPath pfxPassphrase : Val)
| Close (k : Kind).

(** The instance after a call, whether the call returned or threw. *)
Definition call (host : Host) (env : Server.Env) (c : Call) (s : t) : t :=
  match c with
  | Get k pfxPath pfxPassphrase => snd (getInstance host k pfxPath pfxPassphrase s)
  | Set_ k v => snd (setInstance k v s)
  | Bind namespace => bindExceptionHandler host namespace s
  | Listen k h p pfxPath pfxPassphrase => snd (listen host env k h p pfxPath pfxPassphrase s)
  | Close k => snd (close host k s)
  end.

Definition calls (host : Host) (env : Server.Env) (cs : list Call) (s : t) : t :=
  fold_left (fun s c => call host env c s) cs s.

End Lifecycle.

(** *** Vocabulary of the server instances *)

#[global] Instance Kind_eq_dec : EqDecision Lifecycle.Kind.
Proof. solve_decision. Defined.

(** What has been done to a server object is never undone: its origin stays,
    listeners and calls to [listen] are added at the end, and the calls to
    [close] only count up. *)
Definition instance_grows (i i' : Lifecycle.Instance) : Prop :=
  Lifecycle.origin i' = Lifecycle.origin i
  /\ Lifecycle.upgrade i `prefix_of` Lifecycle.upgrade i'
  /\ Lifecycle.listen_calls i `prefix_of` Lifecycle.listen_calls i'
  /\ (Lifecycle.close_calls i <= Lifecycle.close_calls i')%nat.

(** A slot that refers to a server object keeps referring to it, and the
    server objects only grow. *)
Definition grows (s s' : Lifecycle.t) : Prop :=
  (forall k id, Lifecycle.slot k s = Some id -> Lifecycle.slot k s' = Some id)
  /\ (forall id i, Lifecycle.servers s !! id = Some i ->
        exists i', Lifecycle.servers s' !! id = Some i' /\ instance_grows i i').

(** The call returned, rather than threw. *)
Definition returned (host : Lifecycle.Host) (env : Server.Env) (c : Lifecycle.Call)
    (s : Lifecycle.t) : bool :=
  match c with
  | Lifecycle.Get k pfxPath pfxPassphrase =>
      match fst (Lifecycle.getInstance host k pfxPath pfxPassphrase s) with
      | Server.Ok _ => true
      | Server.Throw _ => false
      end
  | Lifecycle.Set_ k v =>
      match fst (Lifecycle.setInstance k v s) with
      | Server.Ok _ => true
      | Server.Throw _ => false
      end
  | Lifecycle.Bind _ => true
  | Lifecycle.Listen k h p pfxPath pfxPassphrase =>
      match fst (Lifecycle.listen host env k h p pfxPath pfxPassphrase s) with
      | Server.Ok _ => true
      | Server.Throw _ => false
      end
  | Lifecycle.Close k =>
      match fst (Lifecycle.close host k s) with
      | Server.Ok _ => true
      | Server.Throw _ => false
      end
  end.

(** The call goes through the getter of the slot [k]. *)
Definition obtains (k : Lifecycle.Kind) (c : Lifecycle.Call) : bool :=
  match c with
  | Lifecycle.Get k' _ _ | Lifecycle.Listen k' _ _ _ _ | Lifecycle.Close k' =>
      bool_decide (k' = k)
  | _ => false
  end.

(** No server object has an [upgrade] listener yet. *)
Definition unwired (s : Lifecycle.t) : Prop :=
  map_Forall (fun _ i => Lifecycle.upgrade i = []) (Lifecycle.servers s).

#[global] Instance unwired_dec s : Decision (unwired s).
Proof. unfold unwired. apply _. Defined.

(** Every server object shows the same under [proj] in [s'] as in [s]: with
    [Lifecycle.listen_calls], none has been asked to listen in between. *)
Definition keeps {A} (proj : Lifecycle.Instance -> A) (s s' : Lifecycle.t) : Prop :=
  forall id, proj (Lifecycle.instance s' id) = proj (Lifecycle.instance s id).

(** *** Scenarios of the server instances *)

Module Boot.

(** The failure of [fs.readFileSync] on a path that is not a path. *)
Definition invalid_path : Error :=
  let msg := "The 'path' argument must be of type string or an instance of Buffer or URL." in
  mkError "TypeError" msg VUndef (VStr "ERR_INVALID_ARG_TYPE") (stack_text "TypeError" msg).

(** A host with no [Handler.js], where every path that is a string can be
    read, every certificate is accepted and every port is free. *)
Definition host : Lifecycle.Host :=
  Lifecycle.mkHost false "App/Exceptions/Handler"
    (fun path => match path with
                 | VStr _ => inr "certificate"
                 | _ => inl invalid_path
                 end)
    (fun _ _ => None)
    (fun _ _ => None).

(** A configuration with the cluster group [utility] at port offset 5. *)
Definition cluster : Config.t :=
  Config.mkConfig
    {[ 0%nat := {[ "app" := VRef 1%nat ]};
       1%nat := {[ "cluster" := VRef 2%nat ]};
       2%nat := {[ "groups" := VRef 3%nat ]};
       3%nat := {[ "utility" := VRef 4%nat ]};
       4%nat := {[ "portScale" := VNum (Int 5) ]} ]}
    0%nat [].

(** A worker of the group [web] over the base port 8000, behind the
    proxy. *)
Definition web : Server.Env := Server.mkEnv (VStr "web") (VStr "8000") (VStr "true").

(** A server as its constructor leaves it, with no exception handler bound,
    whose one route belongs to the group [utility]. *)
Definition created (env : Server.Env) (cfg : Config.t) : Lifecycle.t :=
  Lifecycle.constructor
    (Server.constructor env (Scenario.router (VStr "utility") (Scenario.greets_after 10))
                        [] [] ∅ VNull (fun _ => inr Scenario.exceptions))
    cfg.

End Boot.

(** *** Vocabulary of the configuration store and the environment *)

(** The names every object inherits from [Object.prototype]. The store has
    no prototypes: a read in the model does not see them, so a property
    about reading a key leaves these names out. *)
Definition inherited (k : string) : bool :=
  existsb (String.eqb k)
          ["constructor"; "__proto__"; "hasOwnProperty"; "isPrototypeOf";
           "propertyIsEnumerable"; "toLocaleString"; "toString"; "valueOf";
           "__defineGetter__"; "__defineSetter__"; "__lookupGetter__";
           "__lookupSetter__"].

(** The key is a dotted path, without lodash's bracket syntax, and none of
    its segments is an inherited name. *)
Definition plain_key (key : string) : Prop :=
  contains "[" key = false
  /\ Forall (fun k => inherited k = false) (Lodash.stringToPath key).

#[global] Instance plain_key_dec key : Decision (plain_key key).
Proof. unfold plain_key. apply _. Defined.

(** A read of [path] from [object] goes through objects only, up to the
    value it ends on or the [undefined] or [null] it stops at: it reads no
    property of a string, a number or a boolean, which the model does not
    give. *)
Fixpoint through_objects (h : Heap) (object : Val) (path : list string) : bool :=
  match path with
  | [] => true
  | key :: rest =>
      match object with
      | VRef l => through_objects h (own h l key) rest
      | VUndef | VNull => true
      | _ => false
      end
  end.

(* ===================================================================== *)
(** ** The environment ([src/Env/index.js]) *)
(* ===================================================================== *)

Module Env.
Import Js.

(** [process.env]: the variables that are defined, with their values. The
    runtime keeps strings only. *)
Abbreviation Vars := (gmap string string).

(** [process.env] as an object of a store, for lodash to read and write. *)
Definition process_env : loc := 0%nat.

Definition store (vars : Vars) : Heap := {[ process_env := VStr <$> vars ]}.

(** What a store leaves in [process.env]: a value assigned to a variable is
    converted to a string. *)
Definition stored (h : Heap) : Vars := to_string <$> default ∅ (h !! process_env).

(** What the class asks of its host: the contents of a file or the failure
    of reading it, [dotenv.parse] as the keys and values of a file in the
    order [_.each] visits them, [path.isAbsolute], [path.join], and the
    [.env] beside the executable when the process is packaged. *)
Record Host : Type := mkHost {
  readFileSync : string -> Error + string;
  parse : string -> list (string * string);
  isAbsolute : string -> bool;
  join : string -> string -> string;
  pkg_env : option string
}.

(** [_interpolate(env, envConfig)] is taken as given: the value with its
    references to variables replaced, or the failure of doing so. It reads
    [process.env]. *)
Definition Interpolate : Type := string -> list (string * string) -> Vars -> Error + string.

(** An instance: [appRoot] and [_defaults]. *)
Record t : Type := mkEnv {
  appRoot : string;
  _defaults : list (string * string)
}.

(** [process.env[key] === undefined]: the variable is not defined, and the
    name is not one every object inherits. *)
Definition undefined_in (vars : Vars) (key : string) : bool :=
  bool_decide (vars !! key = None) && negb (inherited key).

(** The loop of [load] over the entries of the file. A failure of
    [_interpolate] ends it, with the variables assigned so far in place. *)
Fixpoint assign_each (interpolate : Interpolate) (envConfig : list (string * string))
    (overwrite : bool) (entries : list (string * string)) (vars : Vars)
  : option Error * Vars :=
  match entries with
  | [] => (None, vars)
  | (key, value) :: rest =>
      if undefined_in vars key || overwrite then
        match interpolate value envConfig vars with
        | inl error => (Some error, vars)
        | inr s => assign_each interpolate envConfig overwrite rest (<[key := s]> vars)
        end
      else assign_each interpolate envConfig overwrite rest vars
  end.

(** [load(filePath, overwrite = true, encoding = 'utf8')]: [parsed] or
    [error], beside the environment it leaves. *)
Definition load (host : Host) (interpolate : Interpolate) (appRoot filePath : string)
    (overwrite : bool) (vars : Vars) : (Error + list (string * string)) * Vars :=
  let path := if isAbsolute host filePath then filePath else join host appRoot filePath in
  match readFileSync host path with
  | inl error => (inl error, vars)
  | inr contents =>
      let envConfig := parse host contents in
      match assign_each interpolate envConfig overwrite envConfig vars with
      | (Some error, vars') => (inl error, vars')
      | (None, vars') => (inr envConfig, vars')
      end
  end.

(** [getEnvPath()] *)
Definition getEnvPath (host : Host) (vars : Vars) : string :=
  match vars !! "ENV_PATH" with
  | Some p => if (String.length p =? 0)%nat then default ".env" (pkg_env host) else p
  | None => default ".env" (pkg_env host)
  end.

(** [getDefaultEnvPath()] *)
Definition getDefaultEnvPath (vars : Vars) : string :=
  match vars !! "DEFAULT_ENV_PATH" with
  | Some p => if (String.length p =? 0)%nat then ".env.default" else p
  | None => ".env.default"
  end.

(** [readDefaultEnvFile()] *)
Definition readDefaultEnvFile (host : Host) (vars : Vars) : Error + list (string * string) :=
  match readFileSync host (getDefaultEnvPath vars) with
  | inl error => inl error
  | inr contents => inr (parse host contents)
  end.

(** [new Env(appRoot)]: the instance or what the constructor throws, beside
    the environment it leaves. *)
Definition constructor (host : Host) (interpolate : Interpolate) (appRoot : string)
    (vars : Vars) : (Error + t) * Vars :=
  let bootedAsTesting := bool_decide (vars !! "NODE_ENV" = Some "testing") in
  let '(env, vars1) := load host interpolate appRoot (getEnvPath host vars) false vars in
  match readDefaultEnvFile host vars1 with
  | inl error => (inl error, vars1)
  | inr defaults =>
      match env with
      | inl error =>
          if negb (bool_decide (vars1 !! "ENV_SILENT" = Some "true")) then (inl error, vars1)
          else
            (inr (mkEnv appRoot defaults),
             if bootedAsTesting
             then snd (load host interpolate appRoot ".env.testing" true vars1)
             else vars1)
      | inr _ =>
          (inr (mkEnv appRoot defaults),
           if bootedAsTesting
           then snd (load host interpolate appRoot ".env.testing" true vars1)
           else vars1)
      end
  end.

(** [get(key, defaultValue = null)] *)
Definition get (vars : Vars) (key : string) (defaultValue : Val) : Val :=
  let defaultValue := if bool_decide (defaultValue = VUndef) then VNull else defaultValue in
  Lodash.get (store vars) (VRef process_env) key defaultValue.

(** [getOrFail(key)], with [GE.RuntimeException.missingEnvKey] taken as
    given. *)
Definition getOrFail (missingEnvKey : string -> Error) (vars : Vars) (key : string)
  : Error + Val :=
  let val := Lodash.get (store vars) (VRef process_env) key VUndef in
  if bool_decide (val = VUndef) then inl (missingEnvKey key) else inr val.

(** [set(key, value)]. For a key that is a path, lodash assigns a container
    to its first segment, which the environment keeps as a string. *)
Definition set (vars : Vars) (key : string) (value : Val) : Vars :=
  stored (Lodash.set (store vars) (VRef process_env) key value).

End Env.

(** *** Scenarios of the environment *)

Module Dotenv.

Definition no_such_file : Error :=
  mkError "Error" "ENOENT: no such file or directory" VUndef (VStr "ENOENT") EmptyString.

(** A host with one file, [/app/.env], that defines [PORT] and [APP_KEY]. *)
Definition host : Env.Host :=
  Env.mkHost
    (fun path => if String.eqb path "/app/.env" then inr "PORT=3333 APP_KEY=secret"
                 else inl no_such_file)
    (fun contents => if String.eqb contents "PORT=3333 APP_KEY=secret"
                     then [("PORT", "3333"); ("APP_KEY", "secret")]
                     else [])
    (fun path => match path with
                 | String "/" _ => true
                 | _ => false
                 end)
    (fun dir file => dir +:+ "/" +:+ file)
    None.

(** Values without references to variables are what they are. *)
Definition literal : Env.Interpolate := fun value _ _ => inr value.

(** The environment of a process started with [PORT=8080]. *)
Definition started : Env.Vars := {[ "PORT" := "8080" ]}.

(** A host with the three files: [/app/.env], an empty [.env.default] and
    [/app/.env.testing], which sets [PORT] to 4000. *)
Definition under_test : Env.Host :=
  Env.mkHost
    (fun path => if String.eqb path "/app/.env" then inr "PORT=3333 APP_KEY=secret"
                 else if String.eqb path ".env.default" then inr EmptyString
                 else if String.eqb path "/app/.env.testing" then inr "PORT=4000"
                 else inl no_such_file)
    (fun contents => if String.eqb contents "PORT=3333 APP_KEY=secret"
                     then [("PORT", "3333"); ("APP_KEY", "secret")]
                     else if String.eqb contents "PORT=4000" then [("PORT", "4000")]
                     else [])
    (fun path => match path with
                 | String "/" _ => true
                 | _ => false
                 end)
    (fun dir file => dir +:+ "/" +:+ file)
    None.

(** The environment of a process started with [NODE_ENV=testing] and
    [PORT=8080]. *)
Definition started_for_tests : Env.Vars := {[ "NODE_ENV" := "testing"; "PORT" := "8080" ]}.

End Dotenv.

(* ===================================================================== *)
(** ** Copying the views ([View._copyFolderSync]) *)
(* ===================================================================== *)

Module View.
Import Js.
#[local] Open Scope list_scope.

(** The file system, as far as [_copyFolderSync] sees it: files with their
    contents and directories, by path. There are no symbolic links, and no
    entry is out of reach for want of a permission. A path is the list of its
    segments: [path.join(from, element)] adds one at the end. *)
Inductive Node : Type :=
| File (content : string)
| Dir.

#[global] Instance Node_eq_dec : EqDecision Node.
Proof. solve_decision. Defined.

Abbreviation Path := (list string).
Abbreviation Fs := (gmap (list string) Node).

(** The failure of a file system call, by its code. *)
Definition fs_error (cd : string) : Error :=
  mkError "Error" cd VUndef (VStr cd) (stack_text "Error" cd).

(** [fs.existsSync(p)] *)
Definition existsSync (fs : Fs) (p : Path) : bool := bool_decide (is_Some (fs !! p)).

Definition is_dir (fs : Fs) (p : Path) : bool := bool_decide (fs !! p = Some Dir).

(** [fs.mkdirSync(p)]: the directory must not exist, and its parent must. *)
Definition mkdirSync (fs : Fs) (p : Path) : Error + Fs :=
  if existsSync fs p then inl (fs_error "EEXIST")
  else if is_dir fs (removelast p) then inr (<[p := Dir]> fs)
  else inl (fs_error "ENOENT").

(** The name [q] has in the directory [p], when it is an entry of it. *)
Definition entry_of (p q : Path) : option string :=
  if decide (removelast q = p) then last q else None.

(** [fs.readdirSync(p)]: the names of the entries of a directory, in the
    order the host gives them, which is the order of the map here. *)
Definition readdirSync (fs : Fs) (p : Path) : Error + list string :=
  if is_dir fs p then inr (omap (entry_of p) (map_to_list fs).*1)
  else inl (fs_error (if existsSync fs p then "ENOTDIR" else "ENOENT")).

(** [fs.copyFileSync(src, dest)]: [dest] is made, or overwritten, with the
    contents of the file [src]. *)
Definition copyFileSync (fs : Fs) (src dest : Path) : Error + Fs :=
  match fs !! src with
  | Some (File content) =>
      if is_dir fs dest then inl (fs_error "EISDIR")
      else if is_dir fs (removelast dest) then inr (<[dest := File content]> fs)
      else inl (fs_error "ENOENT")
  | Some Dir => inl (fs_error "EISDIR")
  | None => inl (fs_error "ENOENT")
  end.

(** How a call ends: it returns, it throws, or it is still running when the
    fuel is spent. *)
Inductive Run : Type :=
| Returned (fs : Fs)
| Thrown (e : Error) (fs : Fs)
| OutOfFuel.

(** The callback of [forEach], over the elements in turn; [copy] is the
    recursive call. *)
Fixpoint each (copy : Path -> Path -> Fs -> Run) (from to : Path)
    (elements : list string) (fs : Fs) : Run :=
  match elements with
  | [] => Returned fs
  | element :: rest =>
      match fs !! (from ++ [element]) with
      | None => Thrown (fs_error "ENOENT") fs
      | Some (File _) =>
          if negb (existsSync fs (to ++ [element])) then
            match copyFileSync fs (from ++ [element]) (to ++ [element]) with
            | inl e => Thrown e fs
            | inr fs' => each copy from to rest fs'
            end
          else each copy from to rest fs
      | Some Dir =>
          match copy (from ++ [element]) (to ++ [element]) fs with
          | Returned fs' => each copy from to rest fs'
          | stopped => stopped
          end
      end
  end.

(** [_copyFolderSync(from, to)], with fuel for the depth of the recursion. *)
Fixpoint _copyFolderSync (fuel : nat) (from to : Path) (fs : Fs) : Run :=
  match fuel with
  | O => OutOfFuel
  | S fuel =>
      match (if negb (existsSync fs to) then mkdirSync fs to else inr fs) with
      | inl e => Thrown e fs
      | inr fs1 =>
          match readdirSync fs1 from with
          | inl e => Thrown e fs1
          | inr elements => each (_copyFolderSync fuel) from to elements fs1
          end
      end
  end.

(** The file system a call leaves, when it ends. *)
Definition left_by (r : Run) : option Fs :=
  match r with
  | Returned fs | Thrown _ fs => Some fs
  | OutOfFuel => None
  end.

End View.

(** *** Vocabulary of the file system *)

(** Every entry but the root lies in a directory. *)
Definition well_formed (fs : View.Fs) : Prop :=
  forall p, is_Some (fs !! p) -> p <> [] -> fs !! removelast p = Some View.Dir.

(** Neither path lies below the other. *)
Definition apart (p q : View.Path) : Prop :=
  ~ p `prefix_of` q /\ ~ q `prefix_of` p.

(** No entry below [from] has more than [n] segments. *)
Definition no_deeper_than (n : nat) (fs : View.Fs) (from : View.Path) : Prop :=
  forall p, from `prefix_of` p -> is_Some (fs !! p) -> (length p <= n)%nat.

(** From [fs] to [fs'] nothing is changed or removed, what is added lies
    below [to], and every entry still lies in a directory. *)
Definition grows_below (to : View.Path) (fs fs' : View.Fs) : Prop :=
  fs ⊆ fs'
  /\ (forall p, fs !! p = None -> is_Some (fs' !! p) -> to `prefix_of` p)
  /\ (well_formed fs -> well_formed fs').

(** What is added from [fs] to [fs'] has its like below [from], at the same
    place as it has below [to]. *)
Definition mirrors (from to : View.Path) (fs fs' : View.Fs) : Prop :=
  forall p n, fs !! p = None -> fs' !! p = Some n ->
    exists q, p = (to ++ q)%list /\ fs' !! (from ++ q)%list = Some n.

#[global] Instance apart_dec p q : Decision (apart p q).
Proof. unfold apart. apply _. Defined.

(** *** Scenarios of the views *)

Module Views.

(** Two views under [views], one of them in a directory, and a copy of the
    first one under [public] that has been edited there. *)
Definition disk : View.Fs :=
  {[ [] := View.Dir;
     ["views"] := View.Dir;
     ["views"; "home.edge"] := View.File "<h1>home</h1>";
     ["views"; "partials"] := View.Dir;
     ["views"; "partials"; "nav.edge"] := View.File "<nav/>";
     ["public"] := View.Dir;
     ["public"; "home.edge"] := View.File "<h1>edited</h1>" ]}.

(** What copying [views] to [public] leaves. *)
Definition copied : View.Fs :=
  default ∅ (View.left_by (View._copyFolderSync 3 ["views"] ["public"] disk)).

End Views.

(* ===================================================================== *)
(** ** Properties *)
(* ===================================================================== *)

Open Scope list_scope.

(** *** Evaluating the dispatcher *)

Lemma handle_unmatched_route srv env cfg req res :
  Server.Route_match srv (Server.url req) (Server.method req) (Server.hostname req) = None ->
  Server.serve srv env cfg req res
  = (Server.Throw
       (HttpException ("Route not found " +:+ Server.method req +:+ " " +:+ Server.url req)
                      404 "E_ROUTE_NOT_FOUND"),
     Server.mkWorld cfg (Server.new_Context req res) [] []).
Proof.
  intros Hnone.
  unfold Server.serve, Server.handle, Server._getRoute, Server.bind, Server.get_world.
  cbn. rewrite Hnone. reflexivity.
Qed.

Lemma handle_matched_route srv env cfg req res rt :
  Server.Route_match srv (Server.url req) (Server.method req) (Server.hostname req) = Some rt ->
  Server.serve srv env cfg req res
  = (if negb (strict_eq (Server.clusterGroup (Server.route rt)) (Server.WORKER_TYPE env))
     then Server.proxy_request srv env rt
     else Server.try_catch
            (Server.bind (Server._executeServerMiddleware srv) (fun _ =>
             Server.bind (Server.after_server_middleware srv env rt) (fun _ =>
             Server.on_response Server._endResponse)))
            (fun error => Server._handleException srv error))
      (routed cfg req res rt).
Proof.
  intros Hsome.
  unfold Server.serve, Server.handle, Server._getRoute.
  unfold Server.bind at 1 2. unfold Server.get_world. cbn.
  rewrite Hsome. unfold Server.bind at 1. cbn.
  destruct (negb _); reflexivity.
Qed.

(** ** C1 *)

(** C1 (the code departs from the claim). A request that matches no route:
    [handle] throws the [E_ROUTE_NOT_FOUND] failure with status 404 itself,
    before its promise chain and its [catch] callback exist. The exception
    funnel is not entered, nothing is reported, and the response is left as
    it came: pending, with the status it had. *)
Theorem unmatched_route_escapes_the_funnel :
  let srv := Scenario.server Scenario.proxying (VStr "utility") (Scenario.greets_after 10) [] in
  Server.serve srv Scenario.proxying Scenario.cfg Scenario.get_nothing Response.fresh
  = (Server.Throw (HttpException "Route not found GET /nothing" 404 "E_ROUTE_NOT_FOUND"),
     Server.mkWorld Scenario.cfg
                    (Server.new_Context Scenario.get_nothing Response.fresh) [] [])
  /\ Response.isPending Response.fresh = true
  /\ Response.statusCode Response.fresh = 200.
Proof.
  cbv zeta. split; [| split; reflexivity].
  rewrite handle_unmatched_route; reflexivity.
Qed.

(** ** C9 *)

(** C9, as stated, fails: a response that is still pending is left pending
    by the finalization step when its [implicitEnd] flag is off. *)
Lemma endResponse_leaves_explicit_response_pending :
  let r := Response.set_implicitEnd false Response.fresh in
  Response.state r = Response.Pending
  /\ Server._endResponse r = r
  /\ Response.state (Server._endResponse r) = Response.Pending
  /\ Response.closes (Server._endResponse r) = 0%nat.
Proof. cbv zeta. repeat split; reflexivity. Qed.

(** C9 (amended). On an ended response the finalization step changes
    nothing, once or twice in a row. On a pending or soft-set response it
    closes the stream, once, when the [implicitEnd] flag of the response is
    on; when the flag is off it changes nothing. *)
Theorem endResponse_closes_implicit_responses_once (r : Response.t) :
  (Response.isPending r = false ->
     Response.state r = Response.Ended
     /\ Server._endResponse r = r
     /\ Server._endResponse (Server._endResponse r) = r)
  /\ (Response.isPending r = true -> Response.implicitEnd r = true ->
        Response.state r <> Response.Ended
        /\ Response.state (Server._endResponse r) = Response.Ended
        /\ Response.closes (Server._endResponse r) = S (Response.closes r)
        /\ Server._endResponse (Server._endResponse r) = Server._endResponse r)
  /\ (Response.implicitEnd r = false -> Server._endResponse r = r).
Proof.
  unfold Server._endResponse, Response.state.
  split; [| split].
  - intros Hended. rewrite Hended. cbn. rewrite Hended. auto.
  - intros Hopen Himplicit. rewrite Hopen, Himplicit. cbn. repeat split.
    destruct (Response.staged r); discriminate.
  - intros ->. rewrite andb_false_r. reflexivity.
Qed.

Lemma endResponse_closes_implicit_responses_once_witness :
  let r := Response.send (VStr "cached") Response.fresh in
  Response.state r = Response.SoftSet
  /\ Response.state (Server._endResponse r) = Response.Ended
  /\ Response.closes (Server._endResponse r) = 1%nat
  /\ Server._endResponse (Server._endResponse r) = Server._endResponse r.
Proof.
  cbv zeta. split; [reflexivity |].
  apply (proj1 (proj2 (endResponse_closes_implicit_responses_once
                         (Response.send (VStr "cached") Response.fresh))));
    reflexivity.
Defined.

(** ** C2 *)





(** ** C8 *)

(** The proxy server exists exactly when the deployment flag is the string
    [true]. *)
Lemma constructor_proxy env rm server global named ns ioc :
  Server._proxy (Server.constructor env rm server global named ns ioc) = true
  <-> Server.HTTP_PROXY_ENABLED env = VStr "true".
Proof.
  cbn. unfold strict_eq.
  destruct (Server.HTTP_PROXY_ENABLED env) as [| | b | [| z] | s | l]; cbn;
    try (split; [discriminate | intros [=]]).
  apply bool_decide_eq_true.
Qed.

(** C8. With the proxy on, a request whose route belongs to another cluster
    group than the worker's, the group being configured at the port offset
    [k] and [HTTP_PORT] reading as [base], is forwarded once, to
    [http://localhost:(base + k)]; no middleware and no handler runs
    locally, and the dispatcher does not touch the response. *)
Theorem mismatch_with_proxy_forwards_once srv env cfg req res rt group cfg' base k :
  Server.Route_match srv (Server.url req) (Server.method req) (Server.hostname req) = Some rt ->
  strict_eq (Server.clusterGroup (Server.route rt)) (Server.WORKER_TYPE env) = false ->
  Server._proxy srv = true ->
  Config.get cfg ("app.cluster.groups." +:+ to_string (Server.clusterGroup (Server.route rt)))
             VUndef = (group, cfg') ->
  prop (Config.heap cfg') group "portScale" = VNum (Int k) ->
  parseInt (Server.HTTP_PORT env) = Int base ->
  fst (Server.serve srv env cfg req res) = Server.Ok tt
  /\ Server.trace (snd (Server.serve srv env cfg req res))
     = [Server.EvProxyWeb ("http://localhost:" +:+ pretty (base + k))]
  /\ Server.timers (snd (Server.serve srv env cfg req res)) = []
  /\ Server.response (Server.ctx (snd (Server.serve srv env cfg req res))) = res.
Proof.
  intros Hroute Hne Hon Hget Hoffset Hbase.
  rewrite (handle_matched_route _ _ _ _ _ _ Hroute), Hne. cbn [negb].
  unfold Server.proxy_request, Server.bind, Server.Config_get, Server.read_prop,
    Server.proxy_web.
  cbn. rewrite Hget. cbn.
  destruct group; cbn in Hoffset; try discriminate.
  cbn. rewrite Hoffset, Hbase, Hon. cbn. auto.
Qed.

Lemma mismatch_with_proxy_forwards_once_witness :
  let on := Scenario.proxying in
  let srv := Scenario.server on (VStr "web") (Scenario.greets_after 10) [Scenario.cache] in
  fst (Server.serve srv on Scenario.cfg Scenario.get_user Response.fresh) = Server.Ok tt
  /\ Server.trace (snd (Server.serve srv on Scenario.cfg Scenario.get_user Response.fresh))
     = [Server.EvProxyWeb "http://localhost:8010"]
  /\ Server.timers (snd (Server.serve srv on Scenario.cfg Scenario.get_user Response.fresh)) = []
  /\ Server.response
       (Server.ctx (snd (Server.serve srv on Scenario.cfg Scenario.get_user Response.fresh)))
     = Response.fresh.
Proof.
  cbv zeta.
  apply (mismatch_with_proxy_forwards_once _ _ _ _ _
           (Scenario.users (VStr "web") (Scenario.greets_after 10))
           (fst (Config.get Scenario.cfg "app.cluster.groups.web" VUndef))
           (snd (Config.get Scenario.cfg "app.cluster.groups.web" VUndef))
           8000 10);
    vm_compute; reflexivity.
Defined.

(** *** The timeout guard *)

Lemma emit_trace e w :
  Server.emit e w = (Server.Ok tt, Server.emit_event e w).
Proof. reflexivity. Qed.

(** With a number for timeout, a handler that returns a promise is raced
    against an armed timer. *)
Lemma guard_enters_race h w n :
  Server.unresolved h = None ->
  configured_timeout w = VNum (Int n) ->
  returns_promise h = true ->
  Server.timeout_guard h w
  = Server.finally
      (Server.race h (Server.FiresAfter (Server.timer_delay (VNum (Int n)))) (VNum (Int n)))
      Server.abort_ctx
      (racing w (VNum (Int n))).
Proof.
  intros Hres Hcfg Hpromise.
  assert (Hinv : Server.invoke h = Server.emit Server.EvHandlerInvoked).
  { unfold Server.invoke, returns_promise in *.
    destruct (Server.invocation h); try discriminate; reflexivity. }
  unfold Server.timeout_guard, Server.resolveFunc. rewrite Hres, Hinv.
  unfold configured_timeout in Hcfg. unfold racing.
  unfold Server.bind, Server.ret, Server.modify, Server.get_world, Server.Config_get,
    Server.read_prop, Server.setTimeout, Server.emit.
  cbn.
  destruct (nullish (Server.timeout (Server.ctx w))) eqn:Hnull.
  - destruct (Config.get (Server.config w) "app.http.timeout" VUndef) as [t c'] eqn:Hget.
    cbn in Hcfg. subst t. cbn. rewrite Hget. cbn.
    rewrite bool_decide_eq_true_2 by reflexivity.
    unfold Server.bind, Server.modify, Server.ret, Server.emit_event. cbn.
    rewrite <- app_assoc. reflexivity.
  - rewrite Hcfg. cbn.
    rewrite bool_decide_eq_true_2 by reflexivity.
    unfold Server.bind, Server.modify, Server.ret, Server.emit_event. cbn.
    rewrite <- app_assoc. reflexivity.
Qed.

Lemma pending_returns_promise h T :
  pending_after h T = true -> returns_promise h = true.
Proof.
  unfold pending_after, returns_promise.
  destruct (Server.invocation h); (discriminate || reflexivity).
Qed.

(** The timer wins: the guard throws the timeout failure, the timer has
    fired and the controller has been aborted, once. *)
Lemma guard_timer_wins h w n :
  Server.unresolved h = None ->
  configured_timeout w = VNum (Int n) ->
  pending_after h (Server.timer_delay (VNum (Int n))) = true ->
  Server.timeout_guard h w
  = (Server.Throw (Server.timeout_error (VNum (Int n))), timed_out w (VNum (Int n))).
Proof.
  intros Hres Hcfg Hpending.
  rewrite (guard_enters_race h w n Hres Hcfg (pending_returns_promise _ _ Hpending)).
  unfold Server.finally, Server.race, pending_after, timed_out in *.
  destruct (Server.invocation h) as [e | v | d r |]; try discriminate.
  - apply Z.leb_le in Hpending.
    destruct (d <? Server.timer_delay (VNum (Int n))) eqn:Hlt;
      [apply Z.ltb_lt in Hlt; lia |].
    unfold Server.bind, Server.fire_timer, Server.modify, Server.emit, Server.throw.
    cbn. rewrite rev_unit. cbn. rewrite rev_involutive. reflexivity.
  - unfold Server.bind, Server.fire_timer, Server.modify, Server.emit, Server.throw.
    cbn. rewrite rev_unit. cbn. rewrite rev_involutive. reflexivity.
Qed.

(** The handler wins: its promise settles, and the controller is aborted;
    the timer stays armed. *)
Lemma guard_handler_wins h w n d r :
  Server.unresolved h = None ->
  configured_timeout w = VNum (Int n) ->
  Server.invocation h = Server.Settles d r ->
  d < Server.timer_delay (VNum (Int n)) ->
  Server.timeout_guard h w
  = Server.finally (Server.settle h r) Server.abort_ctx (racing w (VNum (Int n))).
Proof.
  intros Hres Hcfg Hinv Hlt.
  rewrite (guard_enters_race h w n Hres Hcfg)
    by (unfold returns_promise; rewrite Hinv; reflexivity).
  unfold Server.finally, Server.race. rewrite Hinv.
  apply Z.ltb_lt in Hlt. rewrite Hlt. reflexivity.
Qed.

(** A handler that does not return a promise is not raced: its outcome is
    the guard's, whatever the timeout. *)
Lemma guard_without_promise h w n :
  Server.unresolved h = None ->
  configured_timeout w = VNum (Int n) ->
  returns_promise h = false ->
  Some (fst (Server.timeout_guard h w)) = own_outcome h.
Proof.
  intros Hres Hcfg Hsync.
  unfold Server.timeout_guard, Server.resolveFunc, Server.invoke, own_outcome,
    returns_promise in *.
  rewrite Hres.
  unfold configured_timeout in Hcfg.
  unfold Server.bind, Server.ret, Server.modify, Server.get_world, Server.Config_get,
    Server.read_prop, Server.setTimeout, Server.emit, Server.throw, Server.apply_ops.
  cbn.
  destruct (nullish (Server.timeout (Server.ctx w))) eqn:Hnull; cbn.
  - destruct (Config.get (Server.config w) "app.http.timeout" VUndef) as [t c'] eqn:Hget.
    cbn in Hcfg. subst t.
    destruct (Server.invocation h) as [e | v | d r |] eqn:Hinv; try discriminate; cbn.
    + reflexivity.
    + rewrite bool_decide_eq_true_2 by reflexivity.
      unfold Server.bind, Server.modify, Server.ret, Server.finally, Server.race. cbn.
      rewrite Hinv. reflexivity.
  - rewrite Hcfg.
    destruct (Server.invocation h) as [e | v | d r |] eqn:Hinv; try discriminate; cbn.
    + reflexivity.
    + rewrite bool_decide_eq_true_2 by reflexivity.
      unfold Server.bind, Server.modify, Server.ret, Server.finally, Server.race. cbn.
      rewrite Hinv. reflexivity.
Qed.

(** ** C3 *)

(** C3, as stated, fails. With [ctx.timeout] zero the race is run: the timer
    is armed for 1 ms and a handler that takes 50 ms fails with the timeout
    failure. With the timeout set nowhere the guard fails on
    [ctx.timeout.signal] once the handler has been called, and the
    handler's result is lost. *)
Lemma zero_timeout_is_enforced :
  let zero := Server.timeout_guard (Scenario.greets_after 50)
                                   (at_handler Scenario.cfg (VNum (Int 0))) in
  let unset := Server.timeout_guard (Scenario.greets_after 50)
                                    (at_handler Scenario.bare VUndef) in
  configured_timeout (at_handler Scenario.cfg (VNum (Int 0))) = VNum (Int 0)
  /\ fst zero
     = Server.Throw (HttpException "Request timed out after 0 ms" 500 "E_SERVER_TIMEOUT")
  /\ Server.trace (snd zero)
     = [Server.EvHandlerInvoked; Server.EvTimerArmed 1; Server.EvTimerFired; Server.EvAbort]
  /\ configured_timeout (at_handler Scenario.bare VUndef) = VUndef
  /\ fst unset = Server.Throw (TypeError_read VUndef "signal")
  /\ Server.trace (snd unset) = [Server.EvHandlerInvoked].
Proof. cbv zeta. repeat split; vm_compute; reflexivity. Qed.

(** C3 (amended). A timeout of zero, on the context or configured, does not
    switch the guard off. A handler that returns a promise is raced against
    a timer armed for 1 ms: when the promise is still pending after 1 ms,
    the guard throws the timeout failure for 0 ms, with status 500 and code
    [E_SERVER_TIMEOUT]; a promise settled by then, like a handler that
    returns no promise, gives its own outcome. *)
Theorem zero_timeout_races_for_one_millisecond h w :
  Server.unresolved h = None ->
  configured_timeout w = VNum (Int 0) ->
  Server.timer_delay (VNum (Int 0)) = 1
  /\ (returns_promise h = true ->
        In (Server.EvTimerArmed 1) (Server.trace (snd (Server.timeout_guard h w))))
  /\ (if pending_after h 1
      then fst (Server.timeout_guard h w)
           = Server.Throw (HttpException "Request timed out after 0 ms" 500 "E_SERVER_TIMEOUT")
      else Some (fst (Server.timeout_guard h w)) = own_outcome h).
Proof.
  intros Hres Hcfg. split; [reflexivity |]. split.
  - intros Hpromise.
    rewrite (guard_enters_race h w 0 Hres Hcfg Hpromise).
    unfold Server.finally.
    destruct (Server.race _ _ _ _) as [r w'] eqn:Hrace. cbn.
    assert (Hpre : exists evs, Server.trace w' = Server.trace (racing w (VNum (Int 0))) ++ evs).
    { unfold Server.race, returns_promise in *.
      destruct (Server.invocation h) as [e | v | d r0 |]; try discriminate.
      - destruct (d <? _).
        + unfold Server.settle, Server.bind, Server.apply_ops, Server.modify in Hrace.
          cbn in Hrace. exists [].
          destruct r0; inversion Hrace; cbn; rewrite app_nil_r; reflexivity.
        + inversion Hrace. exists [Server.EvTimerFired]. reflexivity.
      - inversion Hrace. exists [Server.EvTimerFired]. reflexivity. }
    destruct Hpre as [evs Hpre]. rewrite Hpre. cbn.
    rewrite !in_app_iff. cbn. auto 10.
  - destruct (pending_after h 1) eqn:Hpending.
    + rewrite (guard_timer_wins h w 0 Hres Hcfg Hpending). reflexivity.
    + unfold pending_after in Hpending.
      destruct (returns_promise h) eqn:Hpromise.
      * unfold returns_promise in Hpromise.
        destruct (Server.invocation h) as [e | v | d r |] eqn:Hinv; try discriminate.
        apply Z.leb_gt in Hpending.
        rewrite (guard_handler_wins h w 0 d r Hres Hcfg Hinv)
          by (change (Server.timer_delay (VNum (Int 0))) with 1; lia).
        unfold own_outcome. rewrite Hinv.
        unfold Server.finally, Server.settle, Server.bind, Server.apply_ops, Server.modify.
        destruct r; reflexivity.
      * apply (guard_without_promise h w 0 Hres Hcfg Hpromise).
Qed.

Lemma zero_timeout_races_for_one_millisecond_witness :
  Server.timer_delay (VNum (Int 0)) = 1
  /\ (returns_promise (Scenario.greets_after 50) = true ->
        In (Server.EvTimerArmed 1)
           (Server.trace (snd (Server.timeout_guard (Scenario.greets_after 50)
                                 (at_handler Scenario.cfg (VNum (Int 0)))))))
  /\ (if pending_after (Scenario.greets_after 50) 1
      then fst (Server.timeout_guard (Scenario.greets_after 50)
                  (at_handler Scenario.cfg (VNum (Int 0))))
           = Server.Throw (HttpException "Request timed out after 0 ms" 500 "E_SERVER_TIMEOUT")
      else Some (fst (Server.timeout_guard (Scenario.greets_after 50)
                        (at_handler Scenario.cfg (VNum (Int 0)))))
           = own_outcome (Scenario.greets_after 50)).
Proof.
  apply (zero_timeout_races_for_one_millisecond
           (Scenario.greets_after 50) (at_handler Scenario.cfg (VNum (Int 0))));
    reflexivity.
Defined.

(** ** C4 *)

(** A handler that settles with a value before the timer is due: the guard
    returns the value and aborts the controller once. Nothing cancels the
    timer: it stays armed. *)
Lemma guard_returns_in_time h w n d v :
  Server.unresolved h = None ->
  configured_timeout w = VNum (Int n) ->
  Server.invocation h = Server.Settles d (inr v) ->
  d < Server.timer_delay (VNum (Int n)) ->
  fst (Server.timeout_guard h w) = Server.Ok v
  /\ Server.timers (snd (Server.timeout_guard h w))
     = Server.timers w ++ [Server.mkTimer (Server.timer_delay (VNum (Int n))) false]
  /\ Server.abort (Server.ctx (snd (Server.timeout_guard h w)))
     = Some (Server.mkAbortController 1).
Proof.
  intros Hres Hcfg Hinv Hlt.
  rewrite (guard_handler_wins h w n d (inr v) Hres Hcfg Hinv Hlt).
  unfold Server.finally, Server.settle, Server.bind, Server.apply_ops, Server.modify,
    Server.ret.
  cbn. repeat split.
  generalize (Server.ctx w). intros c.
  assert (Hkeep : forall ops c0,
             Server.abort (fold_left (fun c1 op => Server.apply_op op c1) ops c0)
             = Server.abort c0).
  { induction ops as [| op ops IH]; intros c0; [reflexivity |].
    cbn. rewrite IH. destruct op; reflexivity. }
  rewrite Hkeep. reflexivity.
Qed.

(** C4 (the code departs from the claim). With the configured timeout of
    5000 ms and a handler that resolves after 10 ms, the guard returns the
    handler's value and no timeout failure is raised, as the claim says, and
    the controller is aborted once. The timer is not cancelled: it was given
    [ctx.timeout.signal], which is [undefined] on a number, so aborting
    [ctx.abort] does not reach it. It is still armed when the guard returns,
    and it fires when the 5000 ms are over. *)
Theorem finished_handler_leaves_the_timer_armed :
  let w := at_handler Scenario.cfg VUndef in
  let out := Server.timeout_guard (Scenario.greets_after 10) w in
  configured_timeout w = VNum (Int 5000)
  /\ fst out = Server.Ok (VStr "hello")
  /\ Server.trace (snd out)
     = [Server.EvHandlerInvoked; Server.EvTimerArmed 5000; Server.EvAbort]
  /\ Server.abort (Server.ctx (snd out)) = Some (Server.mkAbortController 1)
  /\ Server.timers (snd out) = [Server.mkTimer 5000 false]
  /\ Server.timers (Server.after_deadline (snd out)) = [Server.mkTimer 5000 true]
  /\ Server.trace (Server.after_deadline (snd out))
     = [Server.EvHandlerInvoked; Server.EvTimerArmed 5000; Server.EvAbort;
        Server.EvTimerFired].
Proof. cbv zeta. repeat split; vm_compute; reflexivity. Qed.

(** ** C5 *)

Lemma timer_delay_number n :
  Server.timer_delay (VNum (Int n))
  = if (1 <=? n) && (n <=? Server.TIMEOUT_MAX) then n else 1.
Proof.
  unfold Server.timer_delay.
  rewrite bool_decide_eq_false_2 by discriminate. reflexivity.
Qed.

Lemma timer_delay_at_most n :
  1 <= n -> Server.timer_delay (VNum (Int n)) <= n.
Proof.
  intros Hpos. rewrite timer_delay_number.
  destruct ((1 <=? n) && (n <=? Server.TIMEOUT_MAX)); lia.
Qed.

Lemma exceeds_pending h n :
  1 <= n -> exceeds h n = true ->
  pending_after h (Server.timer_delay (VNum (Int n))) = true.
Proof.
  intros Hpos. unfold exceeds, pending_after.
  destruct (Server.invocation h) as [e | v | d r |]; try discriminate; [| reflexivity].
  intros Hlt. apply Z.ltb_lt in Hlt. apply Z.leb_le.
  pose proof (timer_delay_at_most n Hpos). lia.
Qed.

(** A failure at the end of a chain whose links all pass comes out of the
    chain. *)
Lemma run_chain_passes_failure stage links final e w' :
  forallb passes links = true ->
  forall w,
    final (entered stage links w) = (Server.Throw e, w') ->
    Server.run_chain stage links final w = (Server.Throw e, w').
Proof.
  intros Hpass. induction links as [| l rest IH]; intros w Hfinal.
  - exact Hfinal.
  - cbn in Hpass. apply andb_true_iff in Hpass as [Hl Hrest].
    unfold passes in Hl. cbn [Server.run_chain].
    destruct (Server.mw_action l); try discriminate.
    unfold Server.bind at 1 2 3. cbn.
    erewrite IH; [reflexivity | exact Hrest | exact Hfinal].
Qed.

(** What the exception handler does to the context leaves the controller
    alone. *)
Lemma apply_ops_abort ops w :
  Server.abort (Server.ctx (snd (Server.apply_ops ops w))) = Server.abort (Server.ctx w).
Proof.
  unfold Server.apply_ops, Server.modify. cbn.
  generalize (Server.ctx w).
  induction ops as [| op ops IH]; intros c; [reflexivity |].
  cbn. rewrite IH. destruct op; reflexivity.
Qed.

Lemma handleException_abort srv e w :
  Server.abort (Server.ctx (snd (Server._handleException srv e w)))
  = Server.abort (Server.ctx w).
Proof.
  unfold Server._handleException, Server.bind, Server.try_catch, Server.on_response,
    Server.modify, Server.throw, Server.emit.
  destruct (Server.ioc_make srv _) as [e' | handler]; [reflexivity |].
  destruct (Server.eh_handle handler) as [handle_fn |]; [| reflexivity].
  destruct (Server.eh_report handler) as [report_fn |]; [| reflexivity].
  cbn.
  destruct (report_fn _); [reflexivity |]. cbn.
  pose proof (apply_ops_abort
                (fst (handle_fn
                        {| name := name e; message := message e;
                           status := if truthy (status e) then status e else VNum (Int 500);
                           code := code e; stack := stack e |}))) as Hops.
  unfold Server.apply_ops, Server.modify in Hops. cbn in Hops.
  destruct (snd (handle_fn _)); cbn; rewrite Hops; reflexivity.
Qed.

(** C5. A request that reaches its handler with a timeout of [n]
    milliseconds, [n] positive, and whose handler takes more than [n]
    milliseconds: the guard throws the timeout failure, which carries [n] in
    its message, the status 500 and the code [E_SERVER_TIMEOUT]; the failure
    comes out of the route middleware and is handed to [_handleException];
    the controller of the request has been aborted exactly once, when the
    guard failed, and is not aborted again. *)
Theorem timed_out_handler_reaches_the_funnel srv env cfg req res rt ws links n :
  Server.Route_match srv (Server.url req) (Server.method req) (Server.hostname req) = Some rt ->
  strict_eq (Server.clusterGroup (Server.route rt)) (Server.WORKER_TYPE env) = true ->
  Server._executeServerMiddleware srv (routed cfg req res rt) = (Server.Ok tt, ws) ->
  Response.isPending (Server._evaluateResponse (Server.response (Server.ctx ws))) = true ->
  Server.composeGlobalAndNamed srv (Server.middlewareList (Server.route rt)) = inr links ->
  forallb passes links = true ->
  let wh := entered Server.RouteStage links
              (Server.with_ctx (Server.with_response Server._evaluateResponse) ws) in
  let h := Server.handler (Server.route rt) in
  let failure := HttpException ("Request timed out after " +:+ pretty n +:+ " ms")
                               500 "E_SERVER_TIMEOUT" in
  Server.unresolved h = None ->
  configured_timeout wh = VNum (Int n) ->
  1 <= n ->
  exceeds h n = true ->
  Server.timeout_guard h wh = (Server.Throw failure, timed_out wh (VNum (Int n)))
  /\ Server.serve srv env cfg req res
     = Server._handleException srv failure (timed_out wh (VNum (Int n)))
  /\ Server.abort (Server.ctx (timed_out wh (VNum (Int n))))
     = Some (Server.mkAbortController 1)
  /\ Server.abort (Server.ctx (snd (Server.serve srv env cfg req res)))
     = Some (Server.mkAbortController 1).
Proof.
  intros Hroute Hsame Hserver Hopen Hlinks Hpass wh h failure Hres Hcfg Hpos Hslow.
  assert (Hguard : Server.timeout_guard h wh
                   = (Server.Throw failure, timed_out wh (VNum (Int n)))).
  { apply (guard_timer_wins h wh n Hres Hcfg (exceeds_pending h n Hpos Hslow)). }
  assert (Hserve : Server.serve srv env cfg req res
                   = Server._handleException srv failure (timed_out wh (VNum (Int n)))).
  { rewrite (handle_matched_route _ _ _ _ _ _ Hroute), Hsame. cbn [negb].
    unfold Server.try_catch. unfold Server.bind at 1. rewrite Hserver.
    unfold Server.bind at 1.
    unfold Server.after_server_middleware.
    unfold Server.bind at 1. unfold Server.on_response at 1, Server.modify at 1.
    unfold Server.bind at 1, Server.get_world.
    cbn [Server.ctx Server.with_ctx Server.response Server.with_response].
    rewrite Hopen, Hsame. cbn [negb].
    unfold Server._executeRouteHandler. rewrite Hlinks.
    rewrite (run_chain_passes_failure Server.RouteStage links _ failure
               (timed_out wh (VNum (Int n))) Hpass); [reflexivity |].
    unfold Server._routeHandler, Server.bind. fold wh h. rewrite Hguard. reflexivity. }
  split; [exact Hguard |]. split; [exact Hserve |]. split.
  - reflexivity.
  - rewrite Hserve, handleException_abort. reflexivity.
Qed.

Lemma timed_out_handler_reaches_the_funnel_witness :
  let on := Scenario.proxying in
  let h := Scenario.greets_after 6000 in
  let srv := Scenario.server on (VStr "utility") h [] in
  let wh := Server.with_ctx (Server.with_response Server._evaluateResponse)
              (routed Scenario.cfg Scenario.get_user Response.fresh
                      (Scenario.users (VStr "utility") h)) in
  let failure := HttpException "Request timed out after 5000 ms" 500 "E_SERVER_TIMEOUT" in
  Server.timeout_guard h wh = (Server.Throw failure, timed_out wh (VNum (Int 5000)))
  /\ Server.serve srv on Scenario.cfg Scenario.get_user Response.fresh
     = Server._handleException srv failure (timed_out wh (VNum (Int 5000)))
  /\ Server.abort (Server.ctx (timed_out wh (VNum (Int 5000))))
     = Some (Server.mkAbortController 1)
  /\ Server.abort
       (Server.ctx (snd (Server.serve srv on Scenario.cfg Scenario.get_user Response.fresh)))
     = Some (Server.mkAbortController 1).
Proof.
  cbv zeta.
  apply (timed_out_handler_reaches_the_funnel
           (Scenario.server Scenario.proxying (VStr "utility") (Scenario.greets_after 6000) [])
           Scenario.proxying Scenario.cfg Scenario.get_user Response.fresh
           (Scenario.users (VStr "utility") (Scenario.greets_after 6000))
           (routed Scenario.cfg Scenario.get_user Response.fresh
                   (Scenario.users (VStr "utility") (Scenario.greets_after 6000)))
           [] 5000);
    try reflexivity.
  lia.
Defined.

(** ** C6 *)

Lemma apply_ops_frame ops w :
  Server.apply_ops ops w
  = (Server.Ok tt,
     Server.mkWorld (Server.config w)
                    (fold_left (fun c op => Server.apply_op op c) ops (Server.ctx w))
                    (Server.timers w) (Server.trace w)).
Proof. reflexivity. Qed.

(** The server chain only adds the events of its links to the trace, and
    arms no timer. *)
Lemma server_chain_events links :
  forall w r w',
    Server.run_chain Server.ServerStage links (Server.ret tt) w = (r, w') ->
    (exists names, Server.trace w' = Server.trace w ++ map Server.EvServerMiddleware names)
    /\ Server.timers w' = Server.timers w.
Proof.
  induction links as [| l rest IH]; intros w r w' Hrun.
  - inversion Hrun. split; [exists []; cbn; rewrite app_nil_r |]; reflexivity.
  - cbn [Server.run_chain] in Hrun.
    unfold Server.bind at 1 2 in Hrun. rewrite emit_trace, apply_ops_frame in Hrun.
    destruct (Server.mw_action l).
    + unfold Server.bind in Hrun.
      destruct (Server.run_chain _ rest _ _) as [r1 w1] eqn:Hrest.
      apply IH in Hrest as [[names Htrace] Htimers]. cbn in Htrace, Htimers.
      assert (Hw' : Server.trace w' = Server.trace w1 /\ Server.timers w' = Server.timers w1).
      { destruct r1; [rewrite apply_ops_frame in Hrun |]; inversion Hrun; auto. }
      destruct Hw' as [-> ->]. split; [| exact Htimers].
      exists (Server.mw_name l :: names). rewrite Htrace, <- app_assoc. reflexivity.
    + inversion Hrun. cbn. split; [| reflexivity].
      exists [Server.mw_name l]. reflexivity.
    + inversion Hrun. cbn. split; [| reflexivity].
      exists [Server.mw_name l]. reflexivity.
Qed.

(** C6. A request whose route is matched and served locally, and whose
    server middleware chain completes with the response ended (closed by the
    middleware itself, or staged by it and closed by [_evaluateResponse]):
    nothing runs after the server middleware, so no route middleware and no
    handler; the response is the one the server middleware left, with the
    body it staged, and a staged body is the one written; the stream has
    been closed once more than the middleware closed it if the middleware
    left it open, and not again if the middleware closed it: in all, it has
    been closed exactly once, unless the middleware itself closed it more
    than once. *)
Theorem server_middleware_short_circuit srv env cfg req res rt ws :
  Server.Route_match srv (Server.url req) (Server.method req) (Server.hostname req) = Some rt ->
  strict_eq (Server.clusterGroup (Server.route rt)) (Server.WORKER_TYPE env) = true ->
  Server._executeServerMiddleware srv (routed cfg req res rt) = (Server.Ok tt, ws) ->
  Response.isPending (Server._evaluateResponse (Server.response (Server.ctx ws))) = false ->
  let out := Server.serve srv env cfg req res in
  let left := Server.response (Server.ctx ws) in
  let final := Server.response (Server.ctx (snd out)) in
  fst out = Server.Ok tt
  /\ (exists names, Server.trace (snd out) = map Server.EvServerMiddleware names)
  /\ Server.timers (snd out) = []
  /\ final = Server._evaluateResponse left
  /\ Response.lazyBody final = Response.lazyBody left
  /\ Response.statusCode final = Response.statusCode left
  /\ Response.written final
     = (if Response.isPending left then Some (Response.content (Response.lazyBody left))
        else Response.written left)
  /\ Response.closes final
     = (Response.closes left + if Response.isPending left then 1 else 0)%nat
  /\ (Response.closes left = (if Response.isPending left then 0 else 1)%nat ->
        Response.closes final = 1%nat).
Proof.
  intros Hroute Hsame Hserver Hended out left final.
  cut (fst out = Server.Ok tt
       /\ (exists names, Server.trace (snd out) = map Server.EvServerMiddleware names)
       /\ Server.timers (snd out) = []
       /\ final = Server._evaluateResponse left
       /\ Response.lazyBody final = Response.lazyBody left
       /\ Response.statusCode final = Response.statusCode left
       /\ Response.written final
          = (if Response.isPending left then Some (Response.content (Response.lazyBody left))
             else Response.written left)
       /\ Response.closes final
          = (Response.closes left + if Response.isPending left then 1 else 0)%nat).
  { intros (H1 & H2 & H3 & H4 & H5 & H6 & H7 & H8).
    repeat (split; [assumption |]).
    intros Hconsistent. rewrite H8, Hconsistent.
    destruct (Response.isPending left); reflexivity. }
  assert (Hout : out = (Server.Ok tt,
                        Server.with_ctx (Server.with_response Server._evaluateResponse) ws)).
  { unfold out.
    rewrite (handle_matched_route _ _ _ _ _ _ Hroute), Hsame. cbn [negb].
    unfold Server.try_catch. unfold Server.bind at 1. rewrite Hserver.
    unfold Server.bind at 1.
    unfold Server.after_server_middleware.
    unfold Server.bind at 1. unfold Server.on_response at 1, Server.modify at 1.
    unfold Server.bind at 1, Server.get_world.
    cbn [Server.ctx Server.with_ctx Server.response Server.with_response].
    rewrite Hended. cbn [negb Server.ret].
    unfold Server.on_response, Server.modify, Server.with_ctx, Server.with_response.
    cbn [Server.ctx Server.response Server.config Server.timers Server.trace
         Server.request Server.ctx_params Server.ctx_subdomains Server.timeout Server.abort].
    unfold Server._endResponse at 1. rewrite Hended. reflexivity. }
  apply server_chain_events in Hserver as [[names Htrace] Htimers].
  unfold final. rewrite Hout. cbn. fold left.
  split; [reflexivity |]. split; [exists names; exact Htrace |].
  split; [exact Htimers |]. split; [reflexivity |].
  fold left in Hended. revert Hended.
  unfold Server._evaluateResponse, Server._endResponse.
  destruct (Server._madeSoftResponse left) eqn:Hsoft;
    destruct (Response.isPending left) eqn:Hopen; cbn;
    try discriminate;
    try (intros Hc; rewrite Hopen in Hc; discriminate);
    try (intros _; repeat split; lia).
  destruct (Response.implicitEnd left); cbn; [| rewrite Hopen; discriminate].
  intros _. repeat split; [| lia].
  rewrite Hopen.
  assert (Hstaged : Response.staged left = true).
  { revert Hsoft. unfold Server._madeSoftResponse, Response.staged, strict_eq, nullish.
    destruct (Response.content (Response.lazyBody left)) as [| | b | [| z] | s | l];
      cbn; intros H; try discriminate; exact H. }
  rewrite Hstaged. reflexivity.
Qed.

Lemma server_middleware_short_circuit_witness :
  let on := Scenario.proxying in
  let srv := Scenario.server on (VStr "utility") (Scenario.greets_after 10) [Scenario.cache] in
  let out := Server.serve srv on Scenario.cfg Scenario.get_user Response.fresh in
  fst out = Server.Ok tt
  /\ Server.trace (snd out) = [Server.EvServerMiddleware "cache"]
  /\ Response.written (Server.response (Server.ctx (snd out))) = Some (VStr "cached")
  /\ Response.closes (Server.response (Server.ctx (snd out))) = 1%nat.
Proof.
  cbv zeta.
  pose proof (server_middleware_short_circuit
                (Scenario.server Scenario.proxying (VStr "utility")
                                 (Scenario.greets_after 10) [Scenario.cache])
                Scenario.proxying Scenario.cfg Scenario.get_user Response.fresh
                (Scenario.users (VStr "utility") (Scenario.greets_after 10))
                (snd (Server._executeServerMiddleware
                        (Scenario.server Scenario.proxying (VStr "utility")
                                         (Scenario.greets_after 10) [Scenario.cache])
                        (routed Scenario.cfg Scenario.get_user Response.fresh
                                (Scenario.users (VStr "utility") (Scenario.greets_after 10)))))
                eq_refl eq_refl eq_refl eq_refl)
    as (Hok & _ & _ & _ & _ & _ & Hwritten & _ & Hcloses).
  split; [exact Hok |]. split; [reflexivity |].
  split; [exact Hwritten | exact (Hcloses eq_refl)].
Defined.

(** ** C7 *)





(** ** C10 *)

(** *** The object store *)

Lemma extends_refl h : extends h h.
Proof. intros l _. reflexivity. Qed.

Lemma extends_trans h1 h2 h3 :
  extends h1 h2 -> extends h2 h3 -> dom h1 ⊆ dom h2 -> extends h1 h3.
Proof.
  intros H12 H23 Hdom l Hl. rewrite H23 by set_solver. apply H12, Hl.
Qed.



Lemma extends_has_own h h' l k :
  extends h h' -> l ∈ dom h -> has_own h' l k = has_own h l k.
Proof. intros Hext Hl. unfold has_own. rewrite (Hext l Hl). reflexivity. Qed.


Lemma alloc_extends h o : extends h (snd (alloc h o)).
Proof.
  intros l Hl. cbn. apply lookup_insert_ne. intros <-.
  exact (is_fresh (dom h) Hl).
Qed.

Lemma alloc_fresh h o : fst (alloc h o) ∉ dom h.
Proof. apply is_fresh. Qed.

Lemma alloc_lookup h o : snd (alloc h o) !! fst (alloc h o) = Some o.
Proof. cbn. apply lookup_insert_eq. Qed.



(** *** [_.clone] *)

Lemma clone_extends h v : extends h (snd (Lodash.clone h v)).
Proof.
  destruct v; cbn; try apply extends_refl.
  apply (alloc_extends h).
Qed.



(** *** [_.get] reads the store only *)




(** *** [Config.get] *)

Lemma Config_get_unfold c key d :
  Config.get c key d
  = (fst (Lodash.clone (Config.heap c)
                       (Lodash.get (Config.heap c) (VRef (Config._config c)) key d)),
     Config.mkConfig
       (snd (Lodash.clone (Config.heap c)
                          (Lodash.get (Config.heap c) (VRef (Config._config c)) key d)))
       (Config._config c) (Config.emitted c)).
Proof.
  unfold Config.get. destruct (Lodash.clone _ _). reflexivity.
Qed.




(** *** [_.set] *)













Lemma split_on_head c s :
  exists w ws, split_on c s = w :: ws /\ contains c w = false.
Proof.
  induction s as [| a s IH]; cbn.
  - exists EmptyString, []. auto.
  - destruct (Ascii.eqb a c) eqn:Hac.
    + exists EmptyString, (split_on c s). auto.
    + destruct IH as (w & ws & -> & Hw).
      exists (String a w), ws. cbn. rewrite Hac, Hw. auto.
Qed.

Lemma castPath_nonempty h key object : Lodash.castPath h key object <> [].
Proof.
  unfold Lodash.castPath, Lodash.stringToPath.
  destruct (Lodash.isKey h key object); [discriminate |].
  destruct (split_on_head "." key) as (w & ws & -> & _). discriminate.
Qed.







(** The copy is shallow. What [Config.get] returns for [app.cluster.groups]
    is a new object, but its property [web] is the object the store holds:
    an assignment made through that property is seen by the next
    [Config.get]. Only the properties of the returned value itself are the
    caller's own. *)
Example config_get_shares_nested_objects :
  let got := Config.get Scenario.cfg "app.cluster.groups" VUndef in
  let c' := caller_assign (snd got) (VRef 5%nat) "portScale" (VNum (Int 99)) in
  fst got = VRef 6%nat
  /\ prop (Config.heap (snd got)) (fst got) "web" = VRef 5%nat
  /\ fst (Config.get Scenario.cfg "app.cluster.groups.web.portScale" VUndef) = VNum (Int 10)
  /\ fst (Config.get c' "app.cluster.groups.web.portScale" VUndef) = VNum (Int 99).
Proof. cbv zeta. repeat split; vm_compute; reflexivity. Qed.



(* ===================================================================== *)
(** ** Further properties of the dispatcher *)
(* ===================================================================== *)

(** *** [_safelySetResponse] *)

(** X1. The first writer wins. Once a body that is not [undefined] or [null]
    has been set through [_safelySetResponse] on a response whose
    [implicitEnd] flag is on, a second call, whatever its content, changes
    nothing: the staged body is still the first one. *)
Theorem safelySetResponse_keeps_the_first_body r v1 v2 :
  Response.implicitEnd r = true ->
  Server._madeSoftResponse r = false ->
  nullish v1 = false ->
  Server._madeSoftResponse (Server._safelySetResponse r v1) = true
  /\ Response.content (Response.lazyBody (Server._safelySetResponse r v1)) = v1
  /\ Server._safelySetResponse (Server._safelySetResponse r v1) v2
     = Server._safelySetResponse r v1.
Proof.
  intros Himplicit Hunset Hv1.
  assert (Hsent : Server._safelySetResponse r v1 = Response.send v1 r).
  { unfold Server._safelySetResponse. rewrite Hunset.
    destruct v1 as [| | b | [| z] | s | l]; try discriminate; reflexivity. }
  assert (Hsoft : Server._madeSoftResponse (Response.send v1 r) = true).
  { unfold Server._madeSoftResponse, Response.send. rewrite Himplicit. cbn.
    destruct v1 as [| | b | [| z] | s | l]; try discriminate; reflexivity. }
  rewrite Hsent. split; [exact Hsoft |]. split.
  - unfold Response.send. rewrite Himplicit. reflexivity.
  - unfold Server._safelySetResponse at 1. rewrite Hsoft. reflexivity.
Qed.

Lemma safelySetResponse_keeps_the_first_body_witness :
  Response.content
    (Response.lazyBody
       (Server._safelySetResponse
          (Server._safelySetResponse Response.fresh (VStr "first")) (VStr "second")))
  = VStr "first".
Proof.
  destruct (safelySetResponse_keeps_the_first_body
              Response.fresh (VStr "first") (VStr "second") eq_refl eq_refl eq_refl)
    as (_ & Hfirst & Hsame).
  rewrite Hsame. exact Hfirst.
Defined.

(** X2. What does not count as a body. [_safelySetResponse] with [undefined]
    leaves the response as it is. With [null], on a response with nothing
    staged and [implicitEnd] on, it stages [null], which is not a soft
    response: the next writer replaces it. *)
Theorem safelySetResponse_null_is_no_body r v :
  Response.implicitEnd r = true ->
  Server._madeSoftResponse r = false ->
  nullish v = false ->
  Server._safelySetResponse r VUndef = r
  /\ Server._madeSoftResponse (Server._safelySetResponse r VNull) = false
  /\ Response.content
       (Response.lazyBody (Server._safelySetResponse (Server._safelySetResponse r VNull) v))
     = v.
Proof.
  intros Himplicit Hunset Hv.
  assert (Hnull : Server._safelySetResponse r VNull = Response.send VNull r).
  { unfold Server._safelySetResponse. rewrite Hunset. reflexivity. }
  assert (Hstill : Server._madeSoftResponse (Response.send VNull r) = false).
  { unfold Server._madeSoftResponse, Response.send. rewrite Himplicit. reflexivity. }
  split; [| split].
  - unfold Server._safelySetResponse. rewrite andb_false_r. reflexivity.
  - rewrite Hnull. exact Hstill.
  - rewrite Hnull. unfold Server._safelySetResponse. rewrite Hstill.
    assert (Hdefined : strict_eq v VUndef = false)
      by (destruct v as [| | b | [| z] | s | l]; try discriminate; reflexivity).
    rewrite Hdefined. cbn [negb andb].
    unfold Response.send. cbn. rewrite Himplicit. reflexivity.
Qed.

Lemma safelySetResponse_null_is_no_body_witness :
  Server._safelySetResponse Response.fresh VUndef = Response.fresh
  /\ Server._madeSoftResponse (Server._safelySetResponse Response.fresh VNull) = false
  /\ Response.content
       (Response.lazyBody
          (Server._safelySetResponse (Server._safelySetResponse Response.fresh VNull)
                                     (VStr "late")))
     = VStr "late".
Proof.
  apply (safelySetResponse_null_is_no_body Response.fresh (VStr "late")); reflexivity.
Defined.

(** *** [handle] *)




(** A chain whose links all hand over is as good as its end. *)
Lemma run_chain_hands_over stage links final :
  forallb hands_over links = true ->
  forall w r w',
    final (entered stage links w) = (r, w') ->
    exists w'',
      Server.run_chain stage links final w = (r, w'')
      /\ Server.ctx w'' = Server.ctx w'
      /\ Server.trace w'' = Server.trace w'
      /\ Server.timers w'' = Server.timers w'
      /\ Server.config w'' = Server.config w'.
Proof.
  intros Hover. induction links as [| l rest IH]; intros w r w' Hfinal.
  - exists w'. auto.
  - cbn in Hover. apply andb_true_iff in Hover as [Hl Hrest].
    unfold hands_over in Hl. cbn [Server.run_chain].
    destruct (Server.mw_action l); try discriminate.
    destruct (Server.mw_after l); try discriminate.
    unfold Server.bind at 1 2. rewrite emit_trace, apply_ops_frame.
    destruct (IH Hrest _ r w' Hfinal) as (w1 & Hrun & Hctx & Htrace & Htimers & Hconfig).
    rewrite apply_ops_frame in Hrun. cbn [snd] in Hrun.
    unfold Server.bind. rewrite Hrun.
    destruct r as [[] | e].
    + eexists. split; [reflexivity |]. cbn. auto.
    + exists w1. auto.
Qed.

Lemma routeHandler_in_time h w n d v :
  Server.unresolved h = None ->
  Server.effects h = [] ->
  Server.invocation h = Server.Settles d (inr v) ->
  configured_timeout w = VNum (Int n) ->
  d < Server.timer_delay (VNum (Int n)) ->
  exists w',
    Server._routeHandler h (Server.ret tt) w = (Server.Ok tt, w')
    /\ Server.response (Server.ctx w')
       = Server._safelySetResponse (Server.response (Server.ctx w)) v
    /\ Server.trace w'
       = Server.trace w ++ [Server.EvHandlerInvoked;
                            Server.EvTimerArmed (Server.timer_delay (VNum (Int n)));
                            Server.EvAbort].
Proof.
  intros Hres Heff Hinv Hcfg Hlt.
  unfold Server._routeHandler. unfold Server.bind at 1.
  rewrite (guard_handler_wins h w n d (inr v) Hres Hcfg Hinv Hlt).
  unfold Server.finally, Server.settle, Server.bind, Server.apply_ops, Server.modify,
    Server.ret, Server.on_response.
  rewrite Heff. cbn.
  eexists. split; [reflexivity |]. cbn. split; [reflexivity |].
  rewrite <- app_assoc. reflexivity.
Qed.

(** X4. The handler's value becomes the body. A request that reaches its
    handler through links that hand over, with the response still pending,
    nothing staged and [implicitEnd] on: when the handler leaves the
    response alone and resolves, before the timer is due, with a value that
    is not [undefined] or [null], [handle] ends normally with the stream
    closed once and that value written under the status the response had.
    The exception handler is not called. *)
Theorem handler_value_becomes_the_body srv env cfg req res rt ws links n d v :
  Server.Route_match srv (Server.url req) (Server.method req) (Server.hostname req) = Some rt ->
  strict_eq (Server.clusterGroup (Server.route rt)) (Server.WORKER_TYPE env) = true ->
  Server._executeServerMiddleware srv (routed cfg req res rt) = (Server.Ok tt, ws) ->
  Response.isPending (Server._evaluateResponse (Server.response (Server.ctx ws))) = true ->
  Server.composeGlobalAndNamed srv (Server.middlewareList (Server.route rt)) = inr links ->
  forallb hands_over links = true ->
  let wh := entered Server.RouteStage links
              (Server.with_ctx (Server.with_response Server._evaluateResponse) ws) in
  let h := Server.handler (Server.route rt) in
  let before := Server.response (Server.ctx wh) in
  Response.isPending before = true ->
  Response.implicitEnd before = true ->
  Server._madeSoftResponse before = false ->
  Server.unresolved h = None ->
  Server.effects h = [] ->
  Server.invocation h = Server.Settles d (inr v) ->
  configured_timeout wh = VNum (Int n) ->
  d < Server.timer_delay (VNum (Int n)) ->
  nullish v = false ->
  let out := Server.serve srv env cfg req res in
  let final := Server.response (Server.ctx (snd out)) in
  fst out = Server.Ok tt
  /\ Response.isPending final = false
  /\ Response.written final = Some v
  /\ Response.statusCode final = Response.statusCode before
  /\ Response.closes final = S (Response.closes before)
  /\ Server.trace (snd out)
     = Server.trace wh ++ [Server.EvHandlerInvoked;
                           Server.EvTimerArmed (Server.timer_delay (VNum (Int n)));
                           Server.EvAbort].
Proof.
  intros Hroute Hsame Hserver Hopen Hlinks Hover wh h before
         Hpending Himplicit Hunset Hres Heff Hinv Hcfg Hlt Hv out final.
  destruct (routeHandler_in_time h wh n d v Hres Heff Hinv Hcfg Hlt)
    as (w1 & Hhandler & Hresp & Htrace).
  destruct (run_chain_hands_over Server.RouteStage links
              (Server._routeHandler h (Server.ret tt)) Hover _ _ _ Hhandler)
    as (w2 & Hchain & Hctx & Htrace2 & _ & _).
  assert (Hout : out = Server.on_response Server._endResponse w2).
  { unfold out.
    rewrite (handle_matched_route _ _ _ _ _ _ Hroute), Hsame. cbn [negb].
    unfold Server.try_catch. unfold Server.bind at 1. rewrite Hserver.
    unfold Server.bind at 1.
    unfold Server.after_server_middleware.
    unfold Server.bind at 1. unfold Server.on_response at 1, Server.modify at 1.
    unfold Server.bind at 1, Server.get_world.
    cbn [Server.ctx Server.with_ctx Server.response Server.with_response].
    rewrite Hopen, Hsame. cbn [negb].
    unfold Server._executeRouteHandler. rewrite Hlinks.
    fold h. rewrite Hchain. reflexivity. }
  unfold final. rewrite Hout. cbn. rewrite Hctx, Hresp, Htrace2, Htrace. fold before.
  assert (Hset : Server._safelySetResponse before v = Response.send v before).
  { unfold Server._safelySetResponse. rewrite Hunset.
    destruct v as [| | b | [| z] | s | l]; try discriminate; reflexivity. }
  rewrite Hset. unfold Server._endResponse, Response.send, Response.end_, Response.staged.
  rewrite Himplicit, Hpending. cbn. rewrite Hv. cbn. auto 10.
Qed.

Lemma handler_value_becomes_the_body_witness :
  let srv := Scenario.server Scenario.standalone (VStr "utility") (Scenario.greets_after 10) [] in
  let out := Server.serve srv Scenario.standalone Scenario.cfg Scenario.get_user Response.fresh in
  fst out = Server.Ok tt
  /\ Response.isPending (Server.response (Server.ctx (snd out))) = false
  /\ Response.written (Server.response (Server.ctx (snd out))) = Some (VStr "hello")
  /\ Response.statusCode (Server.response (Server.ctx (snd out))) = 200
  /\ Response.closes (Server.response (Server.ctx (snd out))) = 1%nat
  /\ Server.trace (snd out)
     = [Server.EvHandlerInvoked; Server.EvTimerArmed 5000; Server.EvAbort].
Proof.
  cbv zeta.
  apply (handler_value_becomes_the_body
           (Scenario.server Scenario.standalone (VStr "utility") (Scenario.greets_after 10) [])
           Scenario.standalone Scenario.cfg Scenario.get_user Response.fresh
           (Scenario.users (VStr "utility") (Scenario.greets_after 10))
           (routed Scenario.cfg Scenario.get_user Response.fresh
                   (Scenario.users (VStr "utility") (Scenario.greets_after 10)))
           [] 5000 10 (VStr "hello"));
    try reflexivity.
Defined.

(** A chain stops at the first link that returns without calling [next]:
    the links before it have been entered, and nothing after it is. *)
Lemma run_chain_halts stage pre l post final :
  forallb passes pre = true ->
  Server.mw_action l = Server.Returns ->
  forall w,
    exists w',
      Server.run_chain stage (pre ++ l :: post) final w = (Server.Ok tt, w')
      /\ Server.trace w'
         = Server.trace w
           ++ map (fun m => Server.link_event stage (Server.mw_name m)) (pre ++ [l])
      /\ Server.timers w' = Server.timers w.
Proof.
  intros Hpre Hl. induction pre as [| p pre IH]; intros w.
  - cbn [app Server.run_chain]. rewrite Hl.
    unfold Server.bind. rewrite emit_trace, apply_ops_frame.
    eexists. split; [reflexivity |]. cbn. auto.
  - cbn in Hpre. apply andb_true_iff in Hpre as [Hp Hpre].
    unfold passes in Hp. cbn [app Server.run_chain].
    destruct (Server.mw_action p); try discriminate.
    unfold Server.bind at 1 2. rewrite emit_trace, apply_ops_frame.
    destruct (IH Hpre
                (Server.mkWorld
                   (Server.config (Server.emit_event
                                     (Server.link_event stage (Server.mw_name p)) w))
                   (fold_left (fun c op => Server.apply_op op c) (Server.mw_before p)
                      (Server.ctx (Server.emit_event
                                     (Server.link_event stage (Server.mw_name p)) w)))
                   (Server.timers (Server.emit_event
                                     (Server.link_event stage (Server.mw_name p)) w))
                   (Server.trace (Server.emit_event
                                    (Server.link_event stage (Server.mw_name p)) w))))
      as (w1 & Hrun & Htrace & Htimers).
    unfold Server.bind. rewrite Hrun, apply_ops_frame.
    eexists. split; [reflexivity |]. cbn in *.
    rewrite Htrace, Htimers, <- app_assoc. auto.
Qed.

(** X5. A route middleware that returns without calling [next] halts the
    request: the links before it have run, no link after it and no handler
    runs, no timer is armed, and [handle] goes on to the finalization step
    and ends normally. *)
Theorem route_middleware_short_circuit srv env cfg req res rt ws pre l post :
  Server.Route_match srv (Server.url req) (Server.method req) (Server.hostname req) = Some rt ->
  strict_eq (Server.clusterGroup (Server.route rt)) (Server.WORKER_TYPE env) = true ->
  Server._executeServerMiddleware srv (routed cfg req res rt) = (Server.Ok tt, ws) ->
  Response.isPending (Server._evaluateResponse (Server.response (Server.ctx ws))) = true ->
  Server.composeGlobalAndNamed srv (Server.middlewareList (Server.route rt))
  = inr (pre ++ l :: post) ->
  forallb passes pre = true ->
  Server.mw_action l = Server.Returns ->
  let out := Server.serve srv env cfg req res in
  let final := Server.response (Server.ctx (snd out)) in
  fst out = Server.Ok tt
  /\ (exists names,
        Server.trace (snd out)
        = map Server.EvServerMiddleware names ++ map route_event (pre ++ [l]))
  /\ ~ In Server.EvHandlerInvoked (Server.trace (snd out))
  /\ Server.timers (snd out) = []
  /\ (exists r, final = Server._endResponse r)
  /\ (Response.implicitEnd final = true -> Response.isPending final = false).
Proof.
  intros Hroute Hsame Hserver Hopen Hlinks Hpre Hl out final.
  destruct (run_chain_halts Server.RouteStage pre l post
              (Server._routeHandler (Server.handler (Server.route rt)) (Server.ret tt))
              Hpre Hl
              (Server.with_ctx (Server.with_response Server._evaluateResponse) ws))
    as (w1 & Hchain & Htrace & Htimers).
  assert (Hout : out = Server.on_response Server._endResponse w1).
  { unfold out.
    rewrite (handle_matched_route _ _ _ _ _ _ Hroute), Hsame. cbn [negb].
    unfold Server.try_catch. unfold Server.bind at 1. rewrite Hserver.
    unfold Server.bind at 1.
    unfold Server.after_server_middleware.
    unfold Server.bind at 1. unfold Server.on_response at 1, Server.modify at 1.
    unfold Server.bind at 1, Server.get_world.
    cbn [Server.ctx Server.with_ctx Server.response Server.with_response].
    rewrite Hopen, Hsame. cbn [negb].
    unfold Server._executeRouteHandler. rewrite Hlinks, Hchain. reflexivity. }
  apply server_chain_events in Hserver as [[names Hnames] Hnone].
  cbn in Hnames, Hnone, Htrace, Htimers.
  assert (Hevents : Server.trace (snd out)
                    = map Server.EvServerMiddleware names ++ map route_event (pre ++ [l])).
  { rewrite Hout. cbn. rewrite Htrace, Hnames. reflexivity. }
  split; [rewrite Hout; reflexivity |].
  split; [exists names; exact Hevents |].
  split.
  - rewrite Hevents. intros Hin. apply in_app_iff in Hin as [Hin | Hin];
      apply in_map_iff in Hin as (x & Hx & _); discriminate.
  - split; [rewrite Hout; cbn; rewrite Htimers; exact Hnone |].
    unfold final. rewrite Hout. cbn.
    split; [eexists; reflexivity |].
    generalize (Server.response (Server.ctx w1)). intros r.
    unfold Server._endResponse.
    destruct (Response.isPending r) eqn:Hp; cbn; [| auto].
    destruct (Response.implicitEnd r) eqn:Hi; cbn; [auto |].
    rewrite Hi. discriminate.
Qed.

Lemma route_middleware_short_circuit_witness :
  let guard := Server.mkMiddleware "auth" [Server.OpStatus 401; Server.OpSend (VStr "denied")]
                                   Server.Returns [] in
  let srv := Server.constructor Scenario.standalone
               (Scenario.router (VStr "utility") (Scenario.greets_after 10))
               [] [guard] ∅ (VStr "App/Exceptions/Handler")
               (fun _ => inr Scenario.exceptions) in
  let out := Server.serve srv Scenario.standalone Scenario.cfg Scenario.get_user
                          Response.fresh in
  fst out = Server.Ok tt
  /\ Server.trace (snd out) = [Server.EvRouteMiddleware "auth"]
  /\ ~ In Server.EvHandlerInvoked (Server.trace (snd out))
  /\ Response.written (Server.response (Server.ctx (snd out))) = Some (VStr "denied")
  /\ Response.statusCode (Server.response (Server.ctx (snd out))) = 401.
Proof.
  cbv zeta.
  destruct (route_middleware_short_circuit
              (Server.constructor Scenario.standalone
                 (Scenario.router (VStr "utility") (Scenario.greets_after 10))
                 []
                 [Server.mkMiddleware "auth"
                    [Server.OpStatus 401; Server.OpSend (VStr "denied")] Server.Returns []]
                 ∅ (VStr "App/Exceptions/Handler") (fun _ => inr Scenario.exceptions))
              Scenario.standalone Scenario.cfg Scenario.get_user Response.fresh
              (Scenario.users (VStr "utility") (Scenario.greets_after 10))
              (routed Scenario.cfg Scenario.get_user Response.fresh
                      (Scenario.users (VStr "utility") (Scenario.greets_after 10)))
              []
              (Server.mkMiddleware "auth"
                 [Server.OpStatus 401; Server.OpSend (VStr "denied")] Server.Returns [])
              [] eq_refl eq_refl eq_refl eq_refl eq_refl eq_refl eq_refl)
    as (Hok & _ & Hnever & _).
  split; [exact Hok |]. split; [reflexivity |]. split; [exact Hnever |].
  split; reflexivity.
Defined.

(* --------------------------------------------------------------------- *)
(** ** Server instances and listening *)
(* --------------------------------------------------------------------- *)

Lemma instance_grows_refl i : instance_grows i i.
Proof. repeat split; reflexivity. Qed.

Lemma instance_grows_trans i1 i2 i3 :
  instance_grows i1 i2 -> instance_grows i2 i3 -> instance_grows i1 i3.
Proof.
  intros (Ho & Hu & Hl & Hc) (Ho' & Hu' & Hl' & Hc').
  repeat split; [congruence | etrans; eauto | etrans; eauto | lia].
Qed.

Lemma grows_refl s : grows s s.
Proof.
  split; [auto |]. intros id i Hi. exists i. split; [exact Hi | apply instance_grows_refl].
Qed.

Lemma grows_trans s1 s2 s3 : grows s1 s2 -> grows s2 s3 -> grows s1 s3.
Proof.
  intros [Hs Ho] [Hs' Ho']. split; [auto |].
  intros id i Hi. destruct (Ho _ _ Hi) as (i2 & Hi2 & Hg).
  destruct (Ho' _ _ Hi2) as (i3 & Hi3 & Hg'). exists i3.
  split; [exact Hi3 | eapply instance_grows_trans; eauto].
Qed.

Lemma slot_on_instance k id f s :
  Lifecycle.slot k (Lifecycle.on_instance id f s) = Lifecycle.slot k s.
Proof. destruct k; reflexivity. Qed.

Lemma slot_set_slot k k' v s :
  Lifecycle.slot k (Lifecycle.set_slot k' v s) = if decide (k = k') then v else Lifecycle.slot k s.
Proof. destruct k, k'; reflexivity. Qed.

Lemma instance_lookup s id i : Lifecycle.servers s !! id = Some i -> Lifecycle.instance s id = i.
Proof. unfold Lifecycle.instance. intros ->. reflexivity. Qed.

Lemma grows_on_instance id f s :
  (forall i, instance_grows i (f i)) -> grows s (Lifecycle.on_instance id f s).
Proof.
  intros Hf. split; [intros k id0; rewrite slot_on_instance; auto |].
  intros id0 i Hi. cbn. destruct (decide (id = id0)) as [-> | Hne].
  - rewrite lookup_insert_eq. eexists. split; [reflexivity |].
    rewrite (instance_lookup _ _ _ Hi). apply Hf.
  - rewrite lookup_insert_ne by exact Hne. exists i.
    split; [exact Hi | apply instance_grows_refl].
Qed.

Lemma grows_createServer o s : grows s (snd (Lifecycle.createServer o s)).
Proof.
  split; [intros k id; destruct k; auto |].
  intros id i Hi. cbn. exists i. split; [| apply instance_grows_refl].
  rewrite lookup_insert_ne; [exact Hi |].
  intros <-. apply elem_of_dom_2 in Hi. exact (is_fresh _ Hi).
Qed.

Lemma grows_set_slot k v s : Lifecycle.slot k s = None -> grows s (Lifecycle.set_slot k v s).
Proof.
  intros Hnone. split.
  - intros k0 id. rewrite slot_set_slot. destruct (decide (k0 = k)) as [-> | _]; [| auto].
    rewrite Hnone. discriminate.
  - intros id i Hi. exists i. split; [destruct k; exact Hi | apply instance_grows_refl].
Qed.

Lemma grows_adopt v s : grows s (Lifecycle.adopt v s).
Proof.
  destruct v as [id |]; [| apply grows_refl].
  split; [intros k id0; destruct k; auto |].
  intros id0 i Hi. cbn. exists i. split; [| apply instance_grows_refl].
  destruct (decide (id = id0)) as [-> | Hne].
  - rewrite lookup_insert_eq, (instance_lookup _ _ _ Hi). reflexivity.
  - rewrite lookup_insert_ne by exact Hne. exact Hi.
Qed.

Lemma grows_announce host env scheme h p s :
  grows s (Lifecycle.announce host env scheme h p s).
Proof.
  unfold Lifecycle.announce.
  destruct (negb _); (split; [intros k id; destruct k; auto |]);
    intros id i Hi; exists i; (split; [exact Hi | apply instance_grows_refl]).
Qed.

Lemma grows_with_config c s : grows s (Lifecycle.with_config c s).
Proof.
  split; [intros k id; destruct k; auto |].
  intros id i Hi. exists i. split; [exact Hi | apply instance_grows_refl].
Qed.

Lemma grows_getHttpClusterWorkerInstance s :
  grows s (snd (Lifecycle.getHttpClusterWorkerInstance s)).
Proof.
  unfold Lifecycle.getHttpClusterWorkerInstance.
  destruct (Lifecycle._httpClusterWorkerInstance s) eqn:Hslot; [apply grows_refl |].
  eapply grows_trans; [apply (grows_createServer Lifecycle.HttpServer) |].
  apply grows_set_slot. exact Hslot.
Qed.

Lemma grows_getHttpInstance s : grows s (snd (Lifecycle.getHttpInstance s)).
Proof.
  unfold Lifecycle.getHttpInstance.
  destruct (Lifecycle._httpInstance s) eqn:Hslot; [apply grows_refl |].
  eapply grows_trans; [apply (grows_createServer Lifecycle.HttpServer) |].
  apply grows_set_slot. exact Hslot.
Qed.

Lemma grows_getHttpsInstance host a b s :
  grows s (snd (Lifecycle.getHttpsInstance host a b s)).
Proof.
  unfold Lifecycle.getHttpsInstance.
  destruct (Lifecycle._httpsInstance s) eqn:Hslot; [apply grows_refl |].
  destruct (Lifecycle.readFileSync host a) as [e | pfx]; [apply grows_refl |].
  destruct (Lifecycle.https_createServer host pfx b); [apply grows_refl |].
  eapply grows_trans; [apply (grows_createServer (Lifecycle.HttpsServer pfx b)) |].
  apply grows_set_slot. exact Hslot.
Qed.

Lemma grows_getInstance host k a b s : grows s (snd (Lifecycle.getInstance host k a b s)).
Proof.
  destruct k; cbn.
  - pose proof (grows_getHttpClusterWorkerInstance s) as Hg.
    destruct (Lifecycle.getHttpClusterWorkerInstance s). exact Hg.
  - pose proof (grows_getHttpInstance s) as Hg.
    destruct (Lifecycle.getHttpInstance s). exact Hg.
  - apply grows_getHttpsInstance.
Qed.

Lemma grows_setInstance k v s : grows s (snd (Lifecycle.setInstance k v s)).
Proof.
  destruct k; cbn;
    [unfold Lifecycle.setHttpClusterWorkerInstance;
     destruct (Lifecycle._httpClusterWorkerInstance s) eqn:Hslot
    |unfold Lifecycle.setHttpInstance; destruct (Lifecycle._httpInstance s) eqn:Hslot
    |unfold Lifecycle.setHttpsInstance; destruct (Lifecycle._httpsInstance s) eqn:Hslot];
    try apply grows_refl;
    (eapply grows_trans; [apply (grows_adopt v) |]);
    apply grows_set_slot; destruct v; exact Hslot.
Qed.

Lemma grows_wire_and_listen host env id h p s :
  grows s (snd (Lifecycle.wire_and_listen host env id h p s)).
Proof.
  unfold Lifecycle.wire_and_listen.
  assert (Hlisten : forall s2,
            grows s s2 ->
            grows s (snd (match Lifecycle.server_listen host p h with
                          | Some e => (Server.Throw e, s2)
                          | None =>
                              (Server.Ok id,
                               Lifecycle.on_instance id
                                 (fun i => Lifecycle.mkInstance
                                             (Lifecycle.origin i) (Lifecycle.upgrade i)
                                             (Lifecycle.listen_calls i ++ [(p, h)])
                                             (Lifecycle.close_calls i)) s2)
                          end))).
  { intros s2 Hs2. destruct (Lifecycle.server_listen host p h); [exact Hs2 |].
    eapply grows_trans; [exact Hs2 |]. apply grows_on_instance.
    intros i. repeat split; cbn; try reflexivity. apply prefix_app_r. reflexivity. }
  destruct (Lifecycle.forwards_upgrades env); [| apply Hlisten, grows_refl].
  destruct (Config.get _ _ _) as [group c'].
  destruct (nullish group); [apply grows_with_config |].
  apply Hlisten. eapply grows_trans; [apply (grows_with_config c') |].
  apply grows_on_instance.
  intros i. repeat split; cbn; try reflexivity. apply prefix_app_r. reflexivity.
Qed.

Lemma grows_listen host env k h p a b s :
  grows s (snd (Lifecycle.listen host env k h p a b s)).
Proof.
  destruct k; cbn.
  - unfold Lifecycle.httpClusterWorkerListen.
    destruct (Lifecycle.getHttpClusterWorkerInstance _) as [id s1] eqn:Hget.
    eapply grows_trans; [apply grows_announce |].
    eapply grows_trans; [| apply grows_wire_and_listen].
    pose proof (grows_getHttpClusterWorkerInstance
                  (Lifecycle.announce host env "http"
                     (Lifecycle.default_arg h (VStr "localhost"))
                     (Lifecycle.default_arg p (VNum (Int 81))) s)) as Hg.
    rewrite Hget in Hg. exact Hg.
  - unfold Lifecycle.httpListen.
    destruct (Lifecycle.getHttpInstance _) as [id s1] eqn:Hget.
    eapply grows_trans; [apply grows_announce |].
    eapply grows_trans; [| apply grows_wire_and_listen].
    pose proof (grows_getHttpInstance
                  (Lifecycle.announce host env "http"
                     (Lifecycle.default_arg h (VStr "localhost"))
                     (Lifecycle.default_arg p (VNum (Int 80))) s)) as Hg.
    rewrite Hget in Hg. exact Hg.
  - unfold Lifecycle.httpsListen.
    pose proof (grows_getHttpsInstance host a b
                  (Lifecycle.announce host env "https"
                     (Lifecycle.default_arg h (VStr "localhost"))
                     (Lifecycle.default_arg p (VNum (Int 443))) s)) as Hg.
    destruct (Lifecycle.getHttpsInstance _ _ _ _) as [[id | e] s1].
    + eapply grows_trans; [apply grows_announce |].
      eapply grows_trans; [exact Hg | apply grows_wire_and_listen].
    + eapply grows_trans; [apply grows_announce | exact Hg].
Qed.

Lemma grows_close_instance id s : grows s (Lifecycle.close_instance id s).
Proof.
  apply grows_on_instance. intros i. repeat split; cbn; try reflexivity. lia.
Qed.

Lemma grows_close host k s : grows s (snd (Lifecycle.close host k s)).
Proof.
  destruct k; cbn.
  - unfold Lifecycle.httpClusterWorkerClose.
    pose proof (grows_getHttpClusterWorkerInstance s) as Hg.
    destruct (Lifecycle.getHttpClusterWorkerInstance s) as [id s1].
    eapply grows_trans; [exact Hg | apply grows_close_instance].
  - unfold Lifecycle.httpClose.
    pose proof (grows_getHttpInstance s) as Hg.
    destruct (Lifecycle.getHttpInstance s) as [id s1].
    eapply grows_trans; [exact Hg | apply grows_close_instance].
  - unfold Lifecycle.httpsClose.
    pose proof (grows_getHttpsInstance host VUndef VUndef s) as Hg.
    destruct (Lifecycle.getHttpsInstance host VUndef VUndef s) as [[id | e] s1];
      [| exact Hg].
    eapply grows_trans; [exact Hg | apply grows_close_instance].
Qed.

Lemma grows_call host env c s : grows s (Lifecycle.call host env c s).
Proof.
  destruct c; cbn.
  - apply grows_getInstance.
  - apply grows_setInstance.
  - split; [intros k id; destruct k; auto |].
    intros id i Hi. exists i. split; [exact Hi | apply instance_grows_refl].
  - apply grows_listen.
  - apply grows_close.
Qed.

Lemma grows_calls host env cs : forall s, grows s (Lifecycle.calls host env cs s).
Proof.
  induction cs as [| c cs IH]; intros s; [apply grows_refl |].
  cbn. eapply grows_trans; [apply (grows_call host env c) | apply IH].
Qed.

(** What the calls leave alone. *)

Section Keeps.
Context {A : Type} (proj : Lifecycle.Instance -> A).
Hypothesis proj_new :
  forall o, proj (Lifecycle.mkInstance o [] [] 0) = proj (Lifecycle.mkInstance Lifecycle.Custom [] [] 0).

Lemma keeps_refl s : keeps proj s s.
Proof. intros id. reflexivity. Qed.

Lemma keeps_trans s1 s2 s3 : keeps proj s1 s2 -> keeps proj s2 s3 -> keeps proj s1 s3.
Proof. intros H12 H23 id. rewrite H23. apply H12. Qed.

Lemma keeps_same_servers s s' : Lifecycle.servers s' = Lifecycle.servers s -> keeps proj s s'.
Proof. intros Heq id. unfold Lifecycle.instance. rewrite Heq. reflexivity. Qed.

Lemma keeps_on_instance id f s :
  (forall i, proj (f i) = proj i) -> keeps proj s (Lifecycle.on_instance id f s).
Proof.
  intros Hf id0. unfold Lifecycle.instance at 1. cbn.
  destruct (decide (id = id0)) as [-> | Hne].
  - rewrite lookup_insert_eq. cbn. apply Hf.
  - rewrite lookup_insert_ne by exact Hne. reflexivity.
Qed.

Lemma keeps_createServer o s : keeps proj s (snd (Lifecycle.createServer o s)).
Proof.
  intros id0. unfold Lifecycle.instance. cbn.
  destruct (decide (fresh (dom (Lifecycle.servers s)) = id0)) as [<- | Hne].
  - rewrite lookup_insert_eq.
    rewrite (not_elem_of_dom_1 (Lifecycle.servers s) _ (is_fresh _)). cbn. apply proj_new.
  - rewrite lookup_insert_ne by exact Hne. reflexivity.
Qed.

Lemma keeps_set_slot k v s : keeps proj s (Lifecycle.set_slot k v s).
Proof. apply keeps_same_servers. destruct k; reflexivity. Qed.

Lemma keeps_adopt v s : keeps proj s (Lifecycle.adopt v s).
Proof.
  destruct v as [id |]; [| apply keeps_refl].
  intros id0. unfold Lifecycle.instance at 1. cbn.
  destruct (decide (id = id0)) as [-> | Hne].
  - rewrite lookup_insert_eq. reflexivity.
  - rewrite lookup_insert_ne by exact Hne. reflexivity.
Qed.

Lemma keeps_announce host env scheme h p s :
  keeps proj s (Lifecycle.announce host env scheme h p s).
Proof.
  apply keeps_same_servers. unfold Lifecycle.announce. destruct (negb _); reflexivity.
Qed.

Lemma keeps_getHttpClusterWorkerInstance s :
  keeps proj s (snd (Lifecycle.getHttpClusterWorkerInstance s)).
Proof.
  unfold Lifecycle.getHttpClusterWorkerInstance.
  destruct (Lifecycle._httpClusterWorkerInstance s); [apply keeps_refl |].
  eapply keeps_trans; [apply (keeps_createServer Lifecycle.HttpServer) | apply keeps_set_slot].
Qed.

Lemma keeps_getHttpInstance s : keeps proj s (snd (Lifecycle.getHttpInstance s)).
Proof.
  unfold Lifecycle.getHttpInstance.
  destruct (Lifecycle._httpInstance s); [apply keeps_refl |].
  eapply keeps_trans; [apply (keeps_createServer Lifecycle.HttpServer) | apply keeps_set_slot].
Qed.

Lemma keeps_getHttpsInstance host a b s :
  keeps proj s (snd (Lifecycle.getHttpsInstance host a b s)).
Proof.
  unfold Lifecycle.getHttpsInstance.
  destruct (Lifecycle._httpsInstance s); [apply keeps_refl |].
  destruct (Lifecycle.readFileSync host a) as [e | pfx]; [apply keeps_refl |].
  destruct (Lifecycle.https_createServer host pfx b); [apply keeps_refl |].
  eapply keeps_trans; [apply (keeps_createServer (Lifecycle.HttpsServer pfx b))
                      | apply keeps_set_slot].
Qed.

Lemma keeps_getInstance host k a b s :
  keeps proj s (snd (Lifecycle.getInstance host k a b s)).
Proof.
  destruct k; cbn.
  - pose proof (keeps_getHttpClusterWorkerInstance s) as Hg.
    destruct (Lifecycle.getHttpClusterWorkerInstance s). exact Hg.
  - pose proof (keeps_getHttpInstance s) as Hg.
    destruct (Lifecycle.getHttpInstance s). exact Hg.
  - apply keeps_getHttpsInstance.
Qed.

Lemma keeps_setInstance k v s : keeps proj s (snd (Lifecycle.setInstance k v s)).
Proof.
  destruct k; cbn;
    [unfold Lifecycle.setHttpClusterWorkerInstance;
     destruct (Lifecycle._httpClusterWorkerInstance s)
    |unfold Lifecycle.setHttpInstance; destruct (Lifecycle._httpInstance s)
    |unfold Lifecycle.setHttpsInstance; destruct (Lifecycle._httpsInstance s)];
    try apply keeps_refl;
    (eapply keeps_trans; [apply (keeps_adopt v) | apply keeps_set_slot]).
Qed.

End Keeps.

(** The methods that start with a getter act on the state the getter leaves. *)
Lemma listen_unfold host env k h p a b s :
  exists h' p' scheme,
    Lifecycle.listen host env k h p a b s
    = match Lifecycle.getInstance host k a b (Lifecycle.announce host env scheme h' p' s) with
      | (Server.Throw e, s1) => (Server.Throw e, s1)
      | (Server.Ok id, s1) => Lifecycle.wire_and_listen host env id h' p' s1
      end.
Proof.
  destruct k; cbn.
  - exists (Lifecycle.default_arg h (VStr "localhost")),
           (Lifecycle.default_arg p (VNum (Int 81))), "http".
    unfold Lifecycle.httpClusterWorkerListen.
    destruct (Lifecycle.getHttpClusterWorkerInstance _). reflexivity.
  - exists (Lifecycle.default_arg h (VStr "localhost")),
           (Lifecycle.default_arg p (VNum (Int 80))), "http".
    unfold Lifecycle.httpListen.
    destruct (Lifecycle.getHttpInstance _). reflexivity.
  - exists (Lifecycle.default_arg h (VStr "localhost")),
           (Lifecycle.default_arg p (VNum (Int 443))), "https".
    reflexivity.
Qed.

Lemma close_unfold host k s :
  Lifecycle.close host k s
  = match Lifecycle.getInstance host k VUndef VUndef s with
    | (Server.Throw e, s1) => (Server.Throw e, s1)
    | (Server.Ok id, s1) => (Server.Ok tt, Lifecycle.close_instance id s1)
    end.
Proof.
  destruct k; cbn.
  - unfold Lifecycle.httpClusterWorkerClose.
    destruct (Lifecycle.getHttpClusterWorkerInstance _). reflexivity.
  - unfold Lifecycle.httpClose. destruct (Lifecycle.getHttpInstance _). reflexivity.
  - reflexivity.
Qed.

(** A getter that returns leaves its slot referring to what it returns. *)
Lemma getInstance_fills host k a b s id s1 :
  Lifecycle.getInstance host k a b s = (Server.Ok id, s1) -> Lifecycle.slot k s1 = Some id.
Proof.
  destruct k; cbn.
  - unfold Lifecycle.getHttpClusterWorkerInstance.
    destruct (Lifecycle._httpClusterWorkerInstance s) eqn:Hslot; cbn; intros [= <- <-];
      [exact Hslot | reflexivity].
  - unfold Lifecycle.getHttpInstance.
    destruct (Lifecycle._httpInstance s) eqn:Hslot; cbn; intros [= <- <-];
      [exact Hslot | reflexivity].
  - unfold Lifecycle.getHttpsInstance.
    destruct (Lifecycle._httpsInstance s) eqn:Hslot; [intros [= <- <-]; exact Hslot |].
    destruct (Lifecycle.readFileSync host a) as [e | pfx]; [discriminate |].
    destruct (Lifecycle.https_createServer host pfx b); [discriminate |].
    cbn. intros [= <- <-]. reflexivity.
Qed.

(** A setter refuses a slot that refers to a server object. *)
Lemma setInstance_refuses k v s id :
  Lifecycle.slot k s = Some id ->
  exists e, Lifecycle.setInstance k v s = (Server.Throw e, s)
            /\ code e = VStr "E_CANNOT_SWAP_SERVER"
            /\ status e = VNum (Int 500).
Proof.
  destruct k; cbn; intros Hslot;
    [unfold Lifecycle.setHttpClusterWorkerInstance
    |unfold Lifecycle.setHttpInstance
    |unfold Lifecycle.setHttpsInstance];
    rewrite Hslot; eexists; (split; [reflexivity |]); split; reflexivity.
Qed.

Lemma obtains_fills host env k c s :
  obtains k c = true -> returned host env c s = true ->
  is_Some (Lifecycle.slot k (Lifecycle.call host env c s)).
Proof.
  destruct c as [k' a b | | | k' h p a b | k']; cbn; try discriminate;
    intros Hk; apply bool_decide_eq_true_1 in Hk; subst k'.
  - destruct (Lifecycle.getInstance host k a b s) as [[id | e] s1] eqn:Hget;
      cbn; [intros _ | discriminate].
    rewrite (getInstance_fills _ _ _ _ _ _ _ Hget). eauto.
  - destruct (listen_unfold host env k h p a b s) as (h' & p' & scheme & ->).
    destruct (Lifecycle.getInstance host k a b _) as [[id | e] s1] eqn:Hget;
      cbn; [intros _ | discriminate].
    apply getInstance_fills in Hget.
    destruct (grows_wire_and_listen host env id h' p' s1) as [Hslots _].
    rewrite (Hslots _ _ Hget). eauto.
  - rewrite close_unfold.
    destruct (Lifecycle.getInstance host k VUndef VUndef s) as [[id | e] s1] eqn:Hget;
      cbn; [intros _ | discriminate].
    apply getInstance_fills in Hget.
    destruct (grows_close_instance id s1) as [Hslots _].
    rewrite (Hslots _ _ Hget). eauto.
Qed.

(** X6. Once a getter, a [Listen] method or a [Close] method of a slot has
    returned, the setter of that slot throws [E_CANNOT_SWAP_SERVER] with
    status 500 and changes nothing, whatever has been called in between. *)
Theorem hot_swap_is_refused_after_first_use host env k c cs v s :
  obtains k c = true ->
  returned host env c s = true ->
  let s' := Lifecycle.calls host env cs (Lifecycle.call host env c s) in
  exists e, Lifecycle.setInstance k v s' = (Server.Throw e, s')
            /\ code e = VStr "E_CANNOT_SWAP_SERVER"
            /\ status e = VNum (Int 500).
Proof.
  intros Hk Hret s'.
  destruct (obtains_fills host env k c s Hk Hret) as [id Hslot].
  destruct (grows_calls host env cs (Lifecycle.call host env c s)) as [Hslots _].
  apply (setInstance_refuses k v s' id), Hslots, Hslot.
Qed.

Lemma hot_swap_is_refused_after_first_use_witness :
  let s' := Lifecycle.calls Boot.host Scenario.standalone
              [Lifecycle.Close Lifecycle.Http; Lifecycle.Bind VNull]
              (Lifecycle.call Boot.host Scenario.standalone
                 (Lifecycle.Listen Lifecycle.Http VUndef VUndef VUndef VUndef)
                 (Boot.created Scenario.standalone Scenario.cfg)) in
  exists e, Lifecycle.setInstance Lifecycle.Http (Some 7%nat) s' = (Server.Throw e, s')
            /\ code e = VStr "E_CANNOT_SWAP_SERVER"
            /\ status e = VNum (Int 500).
Proof.
  apply (hot_swap_is_refused_after_first_use Boot.host Scenario.standalone Lifecycle.Http
           (Lifecycle.Listen Lifecycle.Http VUndef VUndef VUndef VUndef)
           [Lifecycle.Close Lifecycle.Http; Lifecycle.Bind VNull] (Some 7%nat)
           (Boot.created Scenario.standalone Scenario.cfg));
    vm_compute; reflexivity.
Defined.

(** X7. A slot that refers to a server object refers to the same object
    after any sequence of calls to the getters, the setters,
    [bindExceptionHandler], the [Listen] methods and the [Close] methods. *)
Theorem server_in_place_is_never_replaced host env cs s k id :
  Lifecycle.slot k s = Some id ->
  Lifecycle.slot k (Lifecycle.calls host env cs s) = Some id.
Proof.
  intros Hslot. destruct (grows_calls host env cs s) as [Hslots _]. auto.
Qed.

Lemma server_in_place_is_never_replaced_witness :
  let s := snd (Lifecycle.getInstance Boot.host Lifecycle.Https (VStr "server.pfx") (VStr "secret")
                  (Boot.created Boot.web Boot.cluster)) in
  Lifecycle.slot Lifecycle.Https
    (Lifecycle.calls Boot.host Boot.web
       [Lifecycle.Set_ Lifecycle.Https (Some 9%nat);
        Lifecycle.Listen Lifecycle.Https VUndef VUndef (VStr "other.pfx") (VStr "secret");
        Lifecycle.Close Lifecycle.Https;
        Lifecycle.Set_ Lifecycle.Http (Some 9%nat)] s)
  = Some 0%nat.
Proof.
  cbv zeta.
  apply (server_in_place_is_never_replaced Boot.host Boot.web). vm_compute. reflexivity.
Defined.

(** X8. A server object is never dropped, and what has been done to it is
    never undone, by any sequence of calls: its origin stays, its [upgrade]
    listeners and its calls to [listen] are only added to, and its calls to
    [close] only count up. *)
Theorem server_objects_only_grow host env cs s id i :
  Lifecycle.servers s !! id = Some i ->
  exists i', Lifecycle.servers (Lifecycle.calls host env cs s) !! id = Some i'
             /\ Lifecycle.origin i' = Lifecycle.origin i
             /\ Lifecycle.upgrade i `prefix_of` Lifecycle.upgrade i'
             /\ Lifecycle.listen_calls i `prefix_of` Lifecycle.listen_calls i'
             /\ (Lifecycle.close_calls i <= Lifecycle.close_calls i')%nat.
Proof.
  intros Hi. destruct (grows_calls host env cs s) as [_ Hobjects].
  destruct (Hobjects _ _ Hi) as (i' & Hi' & Hgrows). exists i'. split; [exact Hi' | exact Hgrows].
Qed.

Lemma server_objects_only_grow_witness :
  let s := snd (Lifecycle.listen Boot.host Boot.web Lifecycle.Http VUndef VUndef VUndef VUndef
                  (Boot.created Boot.web Boot.cluster)) in
  exists i', Lifecycle.servers
               (Lifecycle.calls Boot.host Boot.web
                  [Lifecycle.Close Lifecycle.Http;
                   Lifecycle.Listen Lifecycle.Http VUndef (VNum (Int 8080)) VUndef VUndef] s)
             !! 0%nat = Some i'
             /\ Lifecycle.origin i' = Lifecycle.HttpServer
             /\ ["http://localhost:8005"] `prefix_of` Lifecycle.upgrade i'
             /\ [(VNum (Int 80), VStr "localhost")] `prefix_of` Lifecycle.listen_calls i'
             /\ (0 <= Lifecycle.close_calls i')%nat.
Proof.
  cbv zeta.
  apply (server_objects_only_grow Boot.host Boot.web
           [Lifecycle.Close Lifecycle.Http;
            Lifecycle.Listen Lifecycle.Http VUndef (VNum (Int 8080)) VUndef VUndef]
           (snd (Lifecycle.listen Boot.host Boot.web Lifecycle.Http VUndef VUndef VUndef VUndef
                   (Boot.created Boot.web Boot.cluster)))
           0%nat
           (Lifecycle.mkInstance Lifecycle.HttpServer ["http://localhost:8005"]
                                 [(VNum (Int 80), VStr "localhost")] 0)).
  vm_compute. reflexivity.
Defined.

(** The getters, the setters and the closing lines of the [Listen] methods
    leave the rest of the instance alone. *)

Lemma server_getInstance host k a b s :
  Lifecycle.server (snd (Lifecycle.getInstance host k a b s)) = Lifecycle.server s.
Proof.
  destruct k; cbn;
    [unfold Lifecycle.getHttpClusterWorkerInstance;
     destruct (Lifecycle._httpClusterWorkerInstance s)
    |unfold Lifecycle.getHttpInstance; destruct (Lifecycle._httpInstance s)
    |unfold Lifecycle.getHttpsInstance; destruct (Lifecycle._httpsInstance s);
     [| destruct (Lifecycle.readFileSync host a) as [e | pfx];
        [| destruct (Lifecycle.https_createServer host pfx b)]]];
    reflexivity.
Qed.

Lemma config_getInstance host k a b s :
  Lifecycle.config (snd (Lifecycle.getInstance host k a b s)) = Lifecycle.config s.
Proof.
  destruct k; cbn;
    [unfold Lifecycle.getHttpClusterWorkerInstance;
     destruct (Lifecycle._httpClusterWorkerInstance s)
    |unfold Lifecycle.getHttpInstance; destruct (Lifecycle._httpInstance s)
    |unfold Lifecycle.getHttpsInstance; destruct (Lifecycle._httpsInstance s);
     [| destruct (Lifecycle.readFileSync host a) as [e | pfx];
        [| destruct (Lifecycle.https_createServer host pfx b)]]];
    reflexivity.
Qed.

Lemma server_setInstance k v s :
  Lifecycle.server (snd (Lifecycle.setInstance k v s)) = Lifecycle.server s.
Proof.
  destruct k; cbn;
    [unfold Lifecycle.setHttpClusterWorkerInstance;
     destruct (Lifecycle._httpClusterWorkerInstance s)
    |unfold Lifecycle.setHttpInstance; destruct (Lifecycle._httpInstance s)
    |unfold Lifecycle.setHttpsInstance; destruct (Lifecycle._httpsInstance s)];
    destruct v; reflexivity.
Qed.

Lemma server_wire_and_listen host env id h p s :
  Lifecycle.server (snd (Lifecycle.wire_and_listen host env id h p s)) = Lifecycle.server s.
Proof.
  unfold Lifecycle.wire_and_listen.
  destruct (Lifecycle.forwards_upgrades env).
  - destruct (Config.get _ _ _) as [group c']. destruct (nullish group); [reflexivity |].
    destruct (Lifecycle.server_listen host p h); reflexivity.
  - destruct (Lifecycle.server_listen host p h); reflexivity.
Qed.

Lemma config_announce host env scheme h p s :
  Lifecycle.config (Lifecycle.announce host env scheme h p s) = Lifecycle.config s.
Proof. unfold Lifecycle.announce. destruct (negb _); reflexivity. Qed.

Lemma with_namespace_same srv :
  Lifecycle.with_namespace (Server._exceptionHandlerNamespace srv) srv = srv.
Proof. destruct srv. reflexivity. Qed.

Lemma server_listen_announce host env k h p a b s :
  exists h' p' scheme,
    Lifecycle.server (snd (Lifecycle.listen host env k h p a b s))
    = Lifecycle.server (Lifecycle.announce host env scheme h' p' s).
Proof.
  destruct (listen_unfold host env k h p a b s) as (h' & p' & scheme & ->).
  exists h', p', scheme.
  pose proof (server_getInstance host k a b (Lifecycle.announce host env scheme h' p' s)) as Hg.
  destruct (Lifecycle.getInstance host k a b _) as [[id | e] s1]; cbn in Hg |- *.
  - rewrite server_wire_and_listen. exact Hg.
  - exact Hg.
Qed.

Lemma server_close host k s :
  Lifecycle.server (snd (Lifecycle.close host k s)) = Lifecycle.server s.
Proof.
  rewrite close_unfold.
  pose proof (server_getInstance host k VUndef VUndef s) as Hg.
  destruct (Lifecycle.getInstance host k VUndef VUndef s) as [[id | e] s1]; exact Hg.
Qed.

(** X9. A [Listen] method binds an exception handler only when none is
    bound: a bound namespace is kept, and otherwise the namespace becomes
    that of the application's [Handler.js] when the file can be read, and
    [Adonis/Exceptions/BaseExceptionHandler] when it cannot. This holds
    whether the method returns or throws, and nothing else of the server's
    routing state changes. *)
Theorem listen_binds_an_exception_handler_once host env k h p a b s :
  let ns := Server._exceptionHandlerNamespace (Lifecycle.server s) in
  Lifecycle.server (snd (Lifecycle.listen host env k h p a b s))
  = Lifecycle.with_namespace
      (if truthy ns then ns
       else VStr (if Lifecycle.accessSync_Handler host then Lifecycle.translate_Handler host
                  else "Adonis/Exceptions/BaseExceptionHandler"))
      (Lifecycle.server s).
Proof.
  intros ns.
  destruct (server_listen_announce host env k h p a b s) as (h' & p' & scheme & ->).
  unfold Lifecycle.announce. subst ns.
  destruct (truthy (Server._exceptionHandlerNamespace (Lifecycle.server s))); cbn.
  - symmetry. apply with_namespace_same.
  - reflexivity.
Qed.

Lemma proxy_call host env c s :
  Server._proxy (Lifecycle.server (Lifecycle.call host env c s))
  = Server._proxy (Lifecycle.server s).
Proof.
  destruct c as [k a b | k v | ns | k h p a b | k]; cbn.
  - rewrite server_getInstance. reflexivity.
  - rewrite server_setInstance. reflexivity.
  - reflexivity.
  - destruct (server_listen_announce host env k h p a b s) as (h' & p' & scheme & ->).
    unfold Lifecycle.announce. destruct (negb _); reflexivity.
  - rewrite server_close. reflexivity.
Qed.

Lemma proxy_calls host env cs : forall s,
  Server._proxy (Lifecycle.server (Lifecycle.calls host env cs s))
  = Server._proxy (Lifecycle.server s).
Proof.
  induction cs as [| c cs IH]; intros s; [reflexivity |].
  change (Lifecycle.calls host env (c :: cs) s)
    with (Lifecycle.calls host env cs (Lifecycle.call host env c s)).
  rewrite IH. apply proxy_call.
Qed.

(** Where upgrades are not forwarded, no call registers a listener. *)

Lemma keeps_upgrade_wire_and_listen host env id h p s :
  Lifecycle.forwards_upgrades env = false ->
  keeps Lifecycle.upgrade s (snd (Lifecycle.wire_and_listen host env id h p s)).
Proof.
  intros Hoff. unfold Lifecycle.wire_and_listen. rewrite Hoff.
  destruct (Lifecycle.server_listen host p h); [apply keeps_refl |].
  apply keeps_on_instance. reflexivity.
Qed.

Lemma keeps_upgrade_call host env c s :
  Lifecycle.forwards_upgrades env = false ->
  keeps Lifecycle.upgrade s (Lifecycle.call host env c s).
Proof.
  intros Hoff. destruct c as [k a b | k v | ns | k h p a b | k]; cbn.
  - apply keeps_getInstance. reflexivity.
  - apply keeps_setInstance.
  - apply keeps_same_servers. reflexivity.
  - destruct (listen_unfold host env k h p a b s) as (h' & p' & scheme & ->).
    eapply keeps_trans; [apply (keeps_announce _ host env scheme h' p') |].
    pose proof (keeps_getInstance Lifecycle.upgrade (fun _ => eq_refl) host k a b
                  (Lifecycle.announce host env scheme h' p' s)) as Hg.
    destruct (Lifecycle.getInstance host k a b _) as [[id | e] s1]; cbn in Hg |- *;
      [| exact Hg].
    eapply keeps_trans; [exact Hg | apply keeps_upgrade_wire_and_listen, Hoff].
  - rewrite close_unfold.
    pose proof (keeps_getInstance Lifecycle.upgrade (fun _ => eq_refl) host k VUndef VUndef s)
      as Hg.
    destruct (Lifecycle.getInstance host k VUndef VUndef s) as [[id | e] s1]; cbn in Hg |- *;
      [| exact Hg].
    eapply keeps_trans; [exact Hg |]. apply keeps_on_instance. reflexivity.
Qed.

Lemma keeps_upgrade_calls host env cs :
  Lifecycle.forwards_upgrades env = false ->
  forall s, keeps Lifecycle.upgrade s (Lifecycle.calls host env cs s).
Proof.
  intros Hoff. induction cs as [| c cs IH]; intros s; [apply keeps_refl |].
  cbn. eapply keeps_trans; [apply (keeps_upgrade_call host env c), Hoff | apply IH].
Qed.

(** X10. On a server whose proxy was made under the environment it then runs
    in, an [upgrade] listener never meets a [null] proxy: whatever is called,
    every listener a server object carries forwards to its target. *)
Theorem upgrade_listeners_find_the_proxy host env cs s :
  Server._proxy (Lifecycle.server s)
  = strict_eq (Server.HTTP_PROXY_ENABLED env) (VStr "true") ->
  unwired s ->
  let s' := Lifecycle.calls host env cs s in
  forall id i target,
    Lifecycle.servers s' !! id = Some i ->
    In target (Lifecycle.upgrade i) ->
    Lifecycle.on_upgrade s' target = inr target.
Proof.
  intros Hproxy Hnone s' id i target Hi Hin.
  unfold Lifecycle.on_upgrade, s'. rewrite proxy_calls, Hproxy.
  destruct (Lifecycle.forwards_upgrades env) eqn:Hfw.
  - unfold Lifecycle.forwards_upgrades in Hfw. apply andb_true_iff in Hfw as [-> _].
    reflexivity.
  - exfalso.
    pose proof (keeps_upgrade_calls host env cs Hfw s id) as Hkeeps.
    fold s' in Hkeeps. rewrite (instance_lookup _ _ _ Hi) in Hkeeps.
    unfold Lifecycle.instance in Hkeeps.
    destruct (Lifecycle.servers s !! id) as [i0 |] eqn:Hi0; cbn in Hkeeps.
    + rewrite (Hnone _ _ Hi0) in Hkeeps. rewrite Hkeeps in Hin. destruct Hin.
    + rewrite Hkeeps in Hin. destruct Hin.
Qed.

Lemma upgrade_listeners_find_the_proxy_witness :
  let s' := Lifecycle.calls Boot.host Boot.web
              [Lifecycle.Listen Lifecycle.Http VUndef VUndef VUndef VUndef;
               Lifecycle.Listen Lifecycle.Https VUndef VUndef (VStr "server.pfx") VNull]
              (Boot.created Boot.web Boot.cluster) in
  Lifecycle.on_upgrade s' "http://localhost:8005" = inr "http://localhost:8005".
Proof.
  cbv zeta.
  apply (upgrade_listeners_find_the_proxy Boot.host Boot.web
           [Lifecycle.Listen Lifecycle.Http VUndef VUndef VUndef VUndef;
            Lifecycle.Listen Lifecycle.Https VUndef VUndef (VStr "server.pfx") VNull]
           (Boot.created Boot.web Boot.cluster))
    with (id := 1%nat)
         (i := Lifecycle.mkInstance (Lifecycle.HttpsServer "certificate" VNull)
                                    ["http://localhost:8005"]
                                    [(VNum (Int 443), VStr "localhost")] 0).
  - reflexivity.
  - apply (bool_decide_unpack _). vm_compute. exact I.
  - vm_compute. reflexivity.
  - left. reflexivity.
Defined.

Lemma strict_eq_sym a b : strict_eq a b = strict_eq b a.
Proof.
  unfold strict_eq.
  destruct a as [| | ? | [| ?] | ? | ?], b as [| | ? | [| ?] | ? | ?];
    try reflexivity; apply bool_decide_ext; split; congruence.
Qed.

Lemma slot_announce host env scheme h p k s :
  Lifecycle.slot k (Lifecycle.announce host env scheme h p s) = Lifecycle.slot k s.
Proof. unfold Lifecycle.announce. destruct (negb _), k; reflexivity. Qed.

(** Whether a getter returns depends on its slot and on the host only. *)
Lemma getInstance_returns host env k a b s s0 :
  Lifecycle.slot k s0 = Lifecycle.slot k s ->
  returned host env (Lifecycle.Get k a b) s = true ->
  exists id s1, Lifecycle.getInstance host k a b s0 = (Server.Ok id, s1).
Proof.
  destruct k; cbn.
  - intros _ _. destruct (Lifecycle.getHttpClusterWorkerInstance s0). eauto.
  - intros _ _. destruct (Lifecycle.getHttpInstance s0). eauto.
  - unfold Lifecycle.getHttpsInstance. intros ->.
    destruct (Lifecycle._httpsInstance s); [eauto |].
    destruct (Lifecycle.readFileSync host a) as [e | pfx]; [discriminate |].
    destruct (Lifecycle.https_createServer host pfx b); [discriminate |]. cbn. eauto.
Qed.

(** X11. WebSocket upgrades and HTTP requests for the group [utility] go to
    the same place: the target of the [upgrade] listener a [Listen] method
    registers is the target [handle] forwards a request to whose route
    belongs to the group [utility], under the same configuration and
    environment. *)
Theorem upgrades_and_requests_share_a_target host env k h p a b s id s' req res rt :
  Lifecycle.forwards_upgrades env = true ->
  Lifecycle.listen host env k h p a b s = (Server.Ok id, s') ->
  Server._proxy (Lifecycle.server s) = true ->
  Server.Route_match (Lifecycle.server s)
                     (Server.url req) (Server.method req) (Server.hostname req) = Some rt ->
  Server.clusterGroup (Server.route rt) = VStr "utility" ->
  let out := Server.serve (Lifecycle.server s) env (Lifecycle.config s) req res in
  exists target,
    last (Lifecycle.upgrade (Lifecycle.instance s' id)) = Some target
    /\ fst out = Server.Ok tt
    /\ Server.trace (snd out) = [Server.EvProxyWeb target].
Proof.
  intros Hfw Hlisten Hproxy Hroute Hgroup out.
  destruct (listen_unfold host env k h p a b s) as (h' & p' & scheme & Hunfold).
  rewrite Hunfold in Hlisten. clear Hunfold.
  pose proof (config_getInstance host k a b (Lifecycle.announce host env scheme h' p' s))
    as Hconfig.
  rewrite config_announce in Hconfig.
  destruct (Lifecycle.getInstance host k a b _) as [[id1 | e] s1]; [| discriminate].
  cbn in Hconfig.
  unfold Lifecycle.wire_and_listen in Hlisten. rewrite Hfw, Hconfig in Hlisten.
  destruct (Config.get (Lifecycle.config s) "app.cluster.groups.utility" VUndef)
    as [group c'] eqn:Hget.
  destruct (nullish group) eqn:Hnull; [discriminate |].
  destruct (Lifecycle.server_listen host p' h'); [discriminate |].
  injection Hlisten as <- <-.
  eexists. split; [| split].
  - unfold Lifecycle.instance at 1. cbn. rewrite lookup_insert_eq. cbn.
    unfold Lifecycle.instance at 1. cbn. rewrite lookup_insert_eq. cbn.
    apply last_snoc.
  - unfold out. rewrite (handle_matched_route _ _ _ _ _ _ Hroute), Hgroup.
    unfold Lifecycle.forwards_upgrades in Hfw. apply andb_true_iff in Hfw as [_ Hother].
    rewrite strict_eq_sym. destruct (strict_eq _ _); [discriminate |]. cbn [negb].
    unfold Server.proxy_request, Server.bind, Server.Config_get, Server.read_prop,
      Server.proxy_web.
    rewrite Hgroup.
    change ("app.cluster.groups." +:+ to_string (VStr "utility"))
      with "app.cluster.groups.utility".
    change (Server.config (routed (Lifecycle.config s) req res rt))
      with (Lifecycle.config s).
    rewrite Hget. cbn. rewrite Hnull, Hproxy. reflexivity.
  - unfold out. rewrite (handle_matched_route _ _ _ _ _ _ Hroute), Hgroup.
    unfold Lifecycle.forwards_upgrades in Hfw. apply andb_true_iff in Hfw as [_ Hother].
    rewrite strict_eq_sym. destruct (strict_eq _ _); [discriminate |]. cbn [negb].
    unfold Server.proxy_request, Server.bind, Server.Config_get, Server.read_prop,
      Server.proxy_web.
    rewrite Hgroup.
    change ("app.cluster.groups." +:+ to_string (VStr "utility"))
      with "app.cluster.groups.utility".
    change (Server.config (routed (Lifecycle.config s) req res rt))
      with (Lifecycle.config s).
    rewrite Hget. cbn. rewrite Hnull, Hproxy. reflexivity.
Qed.

Lemma upgrades_and_requests_share_a_target_witness :
  let s := Boot.created Boot.web Boot.cluster in
  let s' := snd (Lifecycle.listen Boot.host Boot.web Lifecycle.Http VUndef VUndef VUndef VUndef s)
  in
  exists target,
    last (Lifecycle.upgrade (Lifecycle.instance s' 0%nat)) = Some target
    /\ fst (Server.serve (Lifecycle.server s) Boot.web Boot.cluster Scenario.get_user
                         Response.fresh) = Server.Ok tt
    /\ Server.trace (snd (Server.serve (Lifecycle.server s) Boot.web Boot.cluster
                                       Scenario.get_user Response.fresh))
       = [Server.EvProxyWeb target].
Proof.
  cbv zeta.
  apply (upgrades_and_requests_share_a_target Boot.host Boot.web Lifecycle.Http
           VUndef VUndef VUndef VUndef (Boot.created Boot.web Boot.cluster) 0%nat _
           Scenario.get_user Response.fresh
           (Scenario.users (VStr "utility") (Scenario.greets_after 10)));
    vm_compute; reflexivity.
Defined.

(** X12. Where upgrades are forwarded and the configuration has no group
    [utility], a [Listen] method throws a [TypeError] before it asks anything
    to listen and before it registers a listener; the server object it has
    obtained stays in its slot. *)
Theorem listen_without_the_utility_group host env k h p a b s :
  Lifecycle.forwards_upgrades env = true ->
  nullish (fst (Config.get (Lifecycle.config s) "app.cluster.groups.utility" VUndef)) = true ->
  returned host env (Lifecycle.Get k a b) s = true ->
  let out := Lifecycle.listen host env k h p a b s in
  (exists e, fst out = Server.Throw e /\ name e = "TypeError")
  /\ keeps Lifecycle.listen_calls s (snd out)
  /\ keeps Lifecycle.upgrade s (snd out)
  /\ is_Some (Lifecycle.slot k (snd out)).
Proof.
  intros Hfw Hnone Hret out. unfold out.
  destruct (listen_unfold host env k h p a b s) as (h' & p' & scheme & ->).
  destruct (getInstance_returns host env k a b s
              (Lifecycle.announce host env scheme h' p' s)
              (slot_announce host env scheme h' p' k s) Hret) as (id & s1 & Hget).
  pose proof (config_getInstance host k a b (Lifecycle.announce host env scheme h' p' s))
    as Hconfig.
  pose proof (fun A (proj : Lifecycle.Instance -> A) Hnew =>
                keeps_getInstance proj Hnew host k a b
                  (Lifecycle.announce host env scheme h' p' s)) as Hkeeps.
  rewrite config_announce in Hconfig.
  rewrite Hget in Hconfig, Hkeeps |- *. cbn [snd] in Hconfig, Hkeeps.
  unfold Lifecycle.wire_and_listen. rewrite Hfw, Hconfig.
  destruct (Config.get (Lifecycle.config s) "app.cluster.groups.utility" VUndef)
    as [group c'].
  cbn in Hnone. rewrite Hnone. cbn.
  split; [eexists; split; reflexivity |].
  split; [| split].
  - eapply keeps_trans; [apply (keeps_announce _ host env scheme h' p') |].
    eapply keeps_trans; [apply Hkeeps; reflexivity |].
    apply keeps_same_servers. reflexivity.
  - eapply keeps_trans; [apply (keeps_announce _ host env scheme h' p') |].
    eapply keeps_trans; [apply Hkeeps; reflexivity |].
    apply keeps_same_servers. reflexivity.
  - apply getInstance_fills in Hget. exists id. destruct k; exact Hget.
Qed.

Lemma listen_without_the_utility_group_witness :
  let out := Lifecycle.listen Boot.host Boot.web Lifecycle.Https VUndef VUndef
               (VStr "server.pfx") (VStr "secret") (Boot.created Boot.web Scenario.cfg) in
  (exists e, fst out = Server.Throw e /\ name e = "TypeError")
  /\ keeps Lifecycle.listen_calls (Boot.created Boot.web Scenario.cfg) (snd out)
  /\ keeps Lifecycle.upgrade (Boot.created Boot.web Scenario.cfg) (snd out)
  /\ is_Some (Lifecycle.slot Lifecycle.Https (snd out)).
Proof.
  apply (listen_without_the_utility_group Boot.host Boot.web Lifecycle.Https VUndef VUndef
           (VStr "server.pfx") (VStr "secret") (Boot.created Boot.web Scenario.cfg));
    vm_compute; reflexivity.
Defined.

(** X13. Closing a server that was never started: [httpClose] and
    [httpClusterWorkerClose] make a new server, put it in their slot and
    close it; [httpsClose] asks for the certificate at the path [undefined],
    and throws what reading it throws, with nothing changed. *)
Theorem close_without_a_server host k s :
  Lifecycle.slot k s = None ->
  (k <> Lifecycle.Https ->
   exists id,
     (id ∉ dom (Lifecycle.servers s))
     /\ fst (Lifecycle.close host k s) = Server.Ok tt
     /\ Lifecycle.slot k (snd (Lifecycle.close host k s)) = Some id
     /\ Lifecycle.servers (snd (Lifecycle.close host k s)) !! id
        = Some (Lifecycle.mkInstance Lifecycle.HttpServer [] [] 1))
  /\ (k = Lifecycle.Https ->
      forall e, Lifecycle.readFileSync host VUndef = inl e ->
                Lifecycle.close host k s = (Server.Throw e, s)).
Proof.
  intros Hslot. split.
  - intros Hk. exists (fresh (dom (Lifecycle.servers s))).
    split; [apply is_fresh |].
    destruct k; [| | congruence]; cbn in Hslot |- *.
    + unfold Lifecycle.httpClusterWorkerClose, Lifecycle.getHttpClusterWorkerInstance.
      rewrite Hslot. cbn. rewrite lookup_insert_eq.
      unfold Lifecycle.instance. cbn. rewrite lookup_insert_eq. auto.
    + unfold Lifecycle.httpClose, Lifecycle.getHttpInstance.
      rewrite Hslot. cbn. rewrite lookup_insert_eq.
      unfold Lifecycle.instance. cbn. rewrite lookup_insert_eq. auto.
  - intros -> e He. cbn in Hslot |- *.
    unfold Lifecycle.httpsClose, Lifecycle.getHttpsInstance. rewrite Hslot, He. reflexivity.
Qed.

Lemma close_without_a_server_witness :
  let s := Boot.created Scenario.standalone Scenario.cfg in
  (exists id,
     (id ∉ dom (Lifecycle.servers s))
     /\ fst (Lifecycle.close Boot.host Lifecycle.Http s) = Server.Ok tt
     /\ Lifecycle.slot Lifecycle.Http (snd (Lifecycle.close Boot.host Lifecycle.Http s)) = Some id
     /\ Lifecycle.servers (snd (Lifecycle.close Boot.host Lifecycle.Http s)) !! id
        = Some (Lifecycle.mkInstance Lifecycle.HttpServer [] [] 1))
  /\ Lifecycle.close Boot.host Lifecycle.Https s = (Server.Throw Boot.invalid_path, s).
Proof.
  cbv zeta. split.
  - apply (close_without_a_server Boot.host Lifecycle.Http
             (Boot.created Scenario.standalone Scenario.cfg) eq_refl).
    discriminate.
  - apply (close_without_a_server Boot.host Lifecycle.Https
             (Boot.created Scenario.standalone Scenario.cfg) eq_refl);
      reflexivity.
Defined.

(* --------------------------------------------------------------------- *)
(** ** Deleting from the configuration store *)
(* --------------------------------------------------------------------- *)

Lemma split_on_dotted c s :
  contains c s = true -> exists w w' ws, split_on c s = w :: w' :: ws.
Proof.
  induction s as [| a s IH]; cbn; [discriminate |].
  destruct (Ascii.eqb a c); cbn.
  - intros _. destruct (split_on_head c s) as (w & ws & -> & _). eauto.
  - intros Hs. destruct (IH Hs) as (w & w' & ws & ->). eauto.
Qed.

Lemma list_split_last {A} (l : list A) :
  l <> [] -> exists k, last l = Some k /\ l = removelast l ++ [k].
Proof.
  induction l as [| a l IH]; [congruence |]. intros _.
  destruct l as [| b l]; [exists a; auto |].
  destruct IH as (k & Hlast & Heq); [discriminate |].
  exists k. split; [exact Hlast |].
  change (a :: b :: l = a :: (removelast (b :: l) ++ [k])). rewrite <- Heq. reflexivity.
Qed.

Lemma baseGet_loop_undefined h path :
  Lodash.baseGet_loop h VUndef path = VUndef.
Proof. destruct path; reflexivity. Qed.

Lemma baseGet_loop_app h p q : forall cur,
  Lodash.baseGet_loop h cur (p ++ q)
  = Lodash.baseGet_loop h (Lodash.baseGet_loop h cur p) q.
Proof.
  induction p as [| k p IH]; intros cur; [reflexivity |].
  cbn. destruct (nullish cur); [| apply IH].
  symmetry. apply baseGet_loop_undefined.
Qed.

Lemma own_delete_prop_eq h l k : own (Lodash.delete_prop h l k) l k = VUndef.
Proof.
  unfold own, Lodash.delete_prop. rewrite lookup_alter_eq.
  destruct (h !! l) as [o |]; cbn; [| reflexivity].
  rewrite lookup_delete_eq. reflexivity.
Qed.

Lemma own_delete_prop_ne h l k l' k' :
  (l', k') <> (l, k) -> own (Lodash.delete_prop h l k) l' k' = own h l' k'.
Proof.
  intros Hne. unfold own, Lodash.delete_prop.
  destruct (decide (l' = l)) as [-> | Hl].
  - rewrite lookup_alter_eq. destruct (h !! l) as [o |]; cbn; [| reflexivity].
    rewrite lookup_delete_ne; [reflexivity | congruence].
  - rewrite lookup_alter_ne by congruence. reflexivity.
Qed.

Lemma has_own_delete_prop h l k l' k' :
  has_own h l' k' = false -> has_own (Lodash.delete_prop h l k) l' k' = false.
Proof.
  unfold has_own, Lodash.delete_prop. intros Hno.
  apply bool_decide_eq_false_1 in Hno. apply bool_decide_eq_false_2.
  intros Hsome. apply Hno.
  destruct (decide (l' = l)) as [-> | Hl].
  - rewrite lookup_alter_eq in Hsome. destruct (h !! l) as [o |]; cbn in *; [| exact Hsome].
    destruct (decide (k' = k)) as [-> | Hk].
    + rewrite lookup_delete_eq in Hsome. destruct Hsome as [? [=]].
    + rewrite lookup_delete_ne in Hsome by congruence. exact Hsome.
  - rewrite lookup_alter_ne in Hsome by congruence. exact Hsome.
Qed.

(** A read that went through the deleted property, or ends on it, gives
    [undefined]. *)
Lemma baseGet_loop_deleted h l k prefix : forall cur,
  Lodash.baseGet_loop h cur prefix = VRef l ->
  Lodash.baseGet_loop (Lodash.delete_prop h l k) cur (prefix ++ [k]) = VUndef.
Proof.
  induction prefix as [| key rest IH]; intros cur; cbn.
  - intros ->. cbn. apply own_delete_prop_eq.
  - destruct (nullish cur) eqn:Hnull; [discriminate |].
    intros Hwalk.
    destruct cur as [| | ? | ? | ? | l0]; try discriminate Hnull; cbn in Hwalk |- *;
      try (rewrite baseGet_loop_undefined in Hwalk; discriminate).
    destruct (decide ((l0, key) = (l, k))) as [[= -> ->] | Hne].
    + rewrite own_delete_prop_eq. apply baseGet_loop_undefined.
    + rewrite (own_delete_prop_ne _ _ _ _ _ Hne). apply IH, Hwalk.
Qed.

Lemma get_after_unset h root key d :
  contains "." key = false \/ has_own h root key = false ->
  Lodash.get (Lodash.unset h (VRef root) key) (VRef root) key d = d.
Proof.
  intros Hkey.
  assert (Hgone : Lodash.baseGet (Lodash.unset h (VRef root) key) (VRef root) key = VUndef).
  { unfold Lodash.unset, Lodash.baseUnset, Lodash.baseGet, Lodash.castPath, Lodash.isKey.
    cbn [nullish].
    destruct (contains "." key) eqn:Hdot; cbn [negb orb].
    - destruct Hkey as [Hkey | Hkey]; [discriminate |]. rewrite Hkey.
      unfold Lodash.stringToPath.
      destruct (split_on_dotted "." key Hdot) as (w & w' & ws & Hsplit). rewrite Hsplit.
      destruct (list_split_last (w :: w' :: ws)) as (k & Hlast & Hpath); [discriminate |].
      rewrite Hlast.
      change (Lodash.parent h (VRef root) (w :: w' :: ws))
        with (Lodash.baseGet_loop h (VRef root) (removelast (w :: w' :: ws))).
      destruct (Lodash.baseGet_loop h (VRef root) (removelast (w :: w' :: ws)))
        as [| | ? | ? | ? | l] eqn:Hparent.
      all: try (rewrite Hkey; cbv iota; rewrite Hpath, baseGet_loop_app, Hparent;
                reflexivity).
      rewrite (has_own_delete_prop _ _ _ _ _ Hkey). cbv iota.
      rewrite Hpath. apply (baseGet_loop_deleted _ _ _ _ _ Hparent).
    - cbn. apply own_delete_prop_eq. }
  unfold Lodash.get. cbn [nullish]. rewrite Hgone.
  rewrite bool_decide_eq_true_2 by reflexivity. reflexivity.
Qed.

(** X14. A deleted key reads as missing. After [delete(key)], [get(key, d)]
    gives a copy of the default [d], for a key without a dot or a dotted key
    that is not itself a property of the root; the [config::set] events are
    untouched, and the [config::delete] event, when asked for, carries the
    key with a copy of the value it had. The key is a plain dotted path that
    names no inherited property, and is read through objects only. *)
Theorem deleted_key_reads_as_default c key emit d :
  contains "." key = false
  \/ has_own (Config.heap c) (Config._config c) key = false ->
  Config._config c ∈ dom (Config.heap c) ->
  plain_key key ->
  through_objects (Config.heap c) (VRef (Config._config c))
                  (Lodash.castPath (Config.heap c) key (VRef (Config._config c))) = true ->
  let c' := fst (Config.delete c key emit) in
  fst (Config.get c' key d) = fst (Lodash.clone (Config.heap c') d)
  /\ Config.emitted c' = Config.emitted c
  /\ snd (Config.delete c key emit)
     = if emit then Some (Config.mkDeleteEvent key (fst (Config.get c key VUndef))) else None.
Proof.
  intros Hkey Hroot _ _ c'. subst c'.
  unfold Config.delete. rewrite (Config_get_unfold c key VUndef). cbn.
  split; [| split; reflexivity].
  rewrite Config_get_unfold. cbn.
  pose proof (get_after_unset
                (snd (Lodash.clone (Config.heap c)
                        (Lodash.get (Config.heap c) (VRef (Config._config c)) key VUndef)))
                (Config._config c) key d) as Hgone.
  unfold Lodash.unset in Hgone. cbn [nullish] in Hgone.
  rewrite Hgone; [reflexivity |].
  destruct Hkey as [Hkey | Hkey]; [left; exact Hkey | right].
  rewrite (extends_has_own (Config.heap c)); [exact Hkey | apply clone_extends | exact Hroot].
Qed.

Lemma deleted_key_reads_as_default_witness :
  let c' := fst (Config.delete Scenario.cfg "app.http.timeout" true) in
  fst (Config.get c' "app.http.timeout" (VNum (Int 30))) = VNum (Int 30)
  /\ snd (Config.delete Scenario.cfg "app.http.timeout" true)
     = Some (Config.mkDeleteEvent "app.http.timeout" (VNum (Int 5000))).
Proof.
  cbv zeta.
  destruct (deleted_key_reads_as_default Scenario.cfg "app.http.timeout" true (VNum (Int 30)))
    as (Hget & _ & Hevent).
  - right. vm_compute. reflexivity.
  - vm_compute. apply (bool_decide_unpack _). vm_compute. exact I.
  - apply (bool_decide_unpack _). vm_compute. exact I.
  - vm_compute. reflexivity.
  - split; [exact Hget | exact Hevent].
Defined.

(** ** A configuration store over a missing directory *)

Lemma get_of_empty_object l key d :
  Lodash.get {[ l := ∅ ]} (VRef l) key d = d.
Proof.
  unfold Lodash.get, Lodash.baseGet. cbn [nullish].
  pose proof (castPath_nonempty {[ l := ∅ ]} key (VRef l)) as Hpath.
  destruct (Lodash.castPath _ key (VRef l)) as [| k rest]; [congruence |].
  cbn. unfold own. rewrite lookup_singleton_eq. cbn. rewrite lookup_empty. cbn.
  rewrite baseGet_loop_undefined. rewrite bool_decide_eq_true_2 by reflexivity. reflexivity.
Qed.

(** X15. A configuration directory that does not exist is not an error: when
    reading it fails with the code [ENOENT], the constructor returns a store
    with nothing in it, where [get] gives a copy of the default for every
    plain key that names no inherited property. A failure with another code
    is thrown by the constructor. *)
Theorem config_over_a_missing_directory requireAll e :
  requireAll (snd (alloc ∅ ∅)) = inl e ->
  (code e = VStr "ENOENT" ->
   exists c,
     Config.constructor requireAll = inr c
     /\ Config.emitted c = []
     /\ forall key d, plain_key key ->
          fst (Config.get c key d) = fst (Lodash.clone (Config.heap c) d))
  /\ (strict_eq (code e) (VStr "ENOENT") = false -> Config.constructor requireAll = inl e).
Proof.
  intros Hfail. unfold Config.constructor, Config.syncWithFileSystem.
  cbn [alloc fst snd Config.heap] in Hfail |- *. rewrite Hfail. split.
  - intros Hcode. rewrite Hcode. cbn. eexists. split; [reflexivity |].
    split; [reflexivity |]. intros key d _.
    rewrite Config_get_unfold. cbn [Config.heap Config._config].
    rewrite insert_empty, get_of_empty_object. reflexivity.
  - intros ->. reflexivity.
Qed.

Lemma config_over_a_missing_directory_witness :
  let missing := mkError "Error" "ENOENT: no such file or directory, scandir 'config'"
                         VUndef (VStr "ENOENT") EmptyString in
  exists c,
    Config.constructor (fun _ => inl missing) = inr c
    /\ Config.emitted c = []
    /\ forall key d, plain_key key ->
         fst (Config.get c key d) = fst (Lodash.clone (Config.heap c) d).
Proof.
  cbv zeta.
  apply (config_over_a_missing_directory
           (fun _ => inl (mkError "Error" "ENOENT: no such file or directory, scandir 'config'"
                                  VUndef (VStr "ENOENT") EmptyString))
           (mkError "Error" "ENOENT: no such file or directory, scandir 'config'"
                    VUndef (VStr "ENOENT") EmptyString));
    reflexivity.
Defined.

(* --------------------------------------------------------------------- *)
(** ** The environment *)
(* --------------------------------------------------------------------- *)

Lemma env_read vars key :
  contains "." key = false ->
  Lodash.get (Env.store vars) (VRef Env.process_env) key VUndef
  = match vars !! key with
    | Some s => VStr s
    | None => VUndef
    end.
Proof.
  intros Hdot.
  unfold Lodash.get, Lodash.baseGet, Lodash.castPath, Lodash.isKey. cbn [nullish].
  rewrite Hdot. cbn [negb orb Lodash.baseGet_loop nullish prop].
  unfold own, Env.store. rewrite lookup_singleton_eq. cbn [mbind option_bind].
  rewrite lookup_fmap. destruct (vars !! key) as [s |]; cbn; [| reflexivity].
  rewrite bool_decide_eq_false_2 by discriminate. reflexivity.
Qed.

Lemma get_default h object key d :
  Lodash.get h object key d
  = if bool_decide (Lodash.get h object key VUndef = VUndef) then d
    else Lodash.get h object key VUndef.
Proof.
  unfold Lodash.get.
  destruct (bool_decide ((if nullish object then VUndef else Lodash.baseGet h object key)
                         = VUndef)) eqn:Hres.
  - rewrite bool_decide_eq_true_2 by reflexivity. reflexivity.
  - rewrite Hres. reflexivity.
Qed.

Lemma env_reads missingEnvKey vars key d :
  contains "." key = false ->
  Env.get vars key d
  = match vars !! key with
    | Some s => VStr s
    | None => if bool_decide (d = VUndef) then VNull else d
    end
  /\ Env.getOrFail missingEnvKey vars key
     = match vars !! key with
       | Some s => inr (VStr s)
       | None => inl (missingEnvKey key)
       end.
Proof.
  intros Hdot. unfold Env.get, Env.getOrFail.
  rewrite get_default, (env_read vars key Hdot).
  destruct (vars !! key) as [s |].
  - rewrite bool_decide_eq_false_2 by discriminate. auto.
  - rewrite bool_decide_eq_true_2 by reflexivity. auto.
Qed.

(** X16. Reading a variable. For a name without a dot that is not an
    inherited one, [get] gives the variable's string when it is defined, the
    empty string included, and otherwise the default, with [null] standing in
    for a default that is [undefined]; [getOrFail] gives the same string, and
    throws the missing-key failure exactly when the variable is not
    defined. *)
Theorem env_get_reads_the_variable missingEnvKey vars key d :
  contains "." key = false ->
  plain_key key ->
  Env.get vars key d
  = match vars !! key with
    | Some s => VStr s
    | None => if bool_decide (d = VUndef) then VNull else d
    end
  /\ Env.getOrFail missingEnvKey vars key
     = match vars !! key with
       | Some s => inr (VStr s)
       | None => inl (missingEnvKey key)
       end.
Proof. intros Hdot _. apply env_reads, Hdot. Qed.

Lemma env_get_reads_the_variable_witness :
  let vars : Env.Vars := {[ "APP_KEY" := EmptyString ]} in
  let missing := fun k => mkError "RuntimeException" k (VNum (Int 500))
                                  (VStr "E_MISSING_ENV_KEY") EmptyString in
  Env.get vars "APP_KEY" (VStr "fallback") = VStr EmptyString
  /\ Env.getOrFail missing vars "APP_KEY" = inr (VStr EmptyString).
Proof.
  cbv zeta.
  destruct (env_get_reads_the_variable
              (fun k => mkError "RuntimeException" k (VNum (Int 500))
                                (VStr "E_MISSING_ENV_KEY") EmptyString)
              {[ "APP_KEY" := EmptyString ]} "APP_KEY" (VStr "fallback"))
    as [Hget Hfail].
  - reflexivity.
  - apply (bool_decide_unpack _). vm_compute. exact I.
  - split; [rewrite Hget | rewrite Hfail]; reflexivity.
Defined.

Lemma env_set_unfold vars key value :
  contains "." key = false ->
  Env.set vars key value
  = if Lodash.unsafe_key key then vars else <[key := to_string value]> vars.
Proof.
  intros Hdot.
  unfold Env.set, Lodash.set, Lodash.castPath, Lodash.isKey. rewrite Hdot.
  cbn [negb orb Lodash.baseSet_loop].
  assert (Hsame : Env.stored (Env.store vars) = vars).
  { unfold Env.stored, Env.store. rewrite lookup_singleton_eq. cbn.
    rewrite <- map_fmap_compose. apply map_eq. intros k. rewrite lookup_fmap.
    destruct (vars !! k); reflexivity. }
  destruct (Lodash.unsafe_key key); [exact Hsame |].
  unfold Env.stored, assign, Env.store. rewrite lookup_insert_eq, lookup_singleton_eq.
  cbn [default from_option id]. rewrite fmap_insert.
  rewrite <- map_fmap_compose. f_equal. apply map_eq. intros k. rewrite lookup_fmap.
  destruct (vars !! k); reflexivity.
Qed.

(** X17. Setting a variable stores a string. For a name without a dot that
    lodash does not refuse and that is not an inherited one, [set] defines
    the variable as the string form of the value and leaves the other
    variables alone; [get] then gives that string whatever the default, and
    [getOrFail] does not throw, also after [set(key, undefined)]. *)
Theorem env_set_stores_a_string missingEnvKey vars key value d :
  contains "." key = false ->
  plain_key key ->
  Lodash.unsafe_key key = false ->
  Env.set vars key value = <[key := to_string value]> vars
  /\ Env.get (Env.set vars key value) key d = VStr (to_string value)
  /\ Env.getOrFail missingEnvKey (Env.set vars key value) key = inr (VStr (to_string value)).
Proof.
  intros Hdot Hplain Hsafe.
  rewrite (env_set_unfold vars key value Hdot), Hsafe.
  destruct (env_reads missingEnvKey (<[key := to_string value]> vars)
              key d Hdot) as [Hget Hfail].
  rewrite lookup_insert_eq in Hget, Hfail. auto.
Qed.

Lemma env_set_stores_a_string_witness :
  let missing := fun k => mkError "RuntimeException" k (VNum (Int 500))
                                  (VStr "E_MISSING_ENV_KEY") EmptyString in
  Env.set ∅ "PORT" (VNum (Int 3333)) = {[ "PORT" := "3333" ]}
  /\ Env.get (Env.set ∅ "PORT" VUndef) "PORT" VNull = VStr "undefined"
  /\ Env.getOrFail missing (Env.set ∅ "PORT" VUndef) "PORT" = inr (VStr "undefined").
Proof.
  cbv zeta.
  destruct (env_set_stores_a_string
              (fun k => mkError "RuntimeException" k (VNum (Int 500))
                                (VStr "E_MISSING_ENV_KEY") EmptyString)
              ∅ "PORT" (VNum (Int 3333)) VNull) as (Hset & _ & _).
  { reflexivity. }
  { apply (bool_decide_unpack _). vm_compute. exact I. }
  { reflexivity. }
  destruct (env_set_stores_a_string
              (fun k => mkError "RuntimeException" k (VNum (Int 500))
                                (VStr "E_MISSING_ENV_KEY") EmptyString)
              ∅ "PORT" VUndef VNull) as (_ & Hget & Hfail).
  { reflexivity. }
  { apply (bool_decide_unpack _). vm_compute. exact I. }
  { reflexivity. }
  split; [| split; [exact Hget | exact Hfail]].
  rewrite Hset. rewrite insert_empty. reflexivity.
Defined.

(** *** Loading a file *)

Lemma assign_each_keeps interpolate envConfig entries : forall vars k v,
  vars !! k = Some v ->
  snd (Env.assign_each interpolate envConfig false entries vars) !! k = Some v.
Proof.
  induction entries as [| [key value] rest IH]; intros vars k v Hk; cbn; [exact Hk |].
  rewrite orb_false_r. unfold Env.undefined_in.
  destruct (decide (key = k)) as [-> | Hne].
  - rewrite bool_decide_eq_false_2 by congruence. cbn. apply IH, Hk.
  - destruct (_ && _); [| apply IH, Hk].
    destruct (interpolate value envConfig vars) as [e | s]; [exact Hk |].
    apply IH. rewrite lookup_insert_ne by exact Hne. exact Hk.
Qed.

Lemma assign_each_frame interpolate envConfig overwrite entries : forall vars k,
  k ∉ entries.*1 ->
  snd (Env.assign_each interpolate envConfig overwrite entries vars) !! k = vars !! k.
Proof.
  induction entries as [| [key value] rest IH]; intros vars k Hk; cbn; [reflexivity |].
  cbn in Hk. apply not_elem_of_cons in Hk as [Hne Hk].
  destruct (_ || _); [| apply IH, Hk].
  destruct (interpolate value envConfig vars) as [e | s]; [reflexivity |].
  rewrite (IH _ _ Hk). apply lookup_insert_ne. congruence.
Qed.

Lemma assign_each_overwrites interpolate envConfig entries : forall vars vars',
  Env.assign_each interpolate envConfig true entries vars = (None, vars') ->
  NoDup entries.*1 ->
  forall k v, (k, v) ∈ entries ->
    exists vars_then s, interpolate v envConfig vars_then = inr s /\ vars' !! k = Some s.
Proof.
  induction entries as [| [key value] rest IH]; intros vars vars' Hrun Hnodup k v Hin.
  - apply elem_of_nil in Hin. destruct Hin.
  - cbn in Hrun, Hnodup. rewrite orb_true_r in Hrun.
    apply NoDup_cons in Hnodup as [Hfresh Hnodup].
    destruct (interpolate value envConfig vars) as [e | s] eqn:Hvalue; [discriminate |].
    apply elem_of_cons in Hin as [[= -> ->] | Hin].
    + exists vars, s. split; [exact Hvalue |].
      pose proof (assign_each_frame interpolate envConfig true rest
                    (<[key := s]> vars) key Hfresh) as Hframe.
      rewrite Hrun in Hframe. cbn in Hframe. rewrite Hframe. apply lookup_insert_eq.
    + eapply IH; eauto.
Qed.

Lemma load_keeps_defined host interpolate appRoot filePath vars k v :
  vars !! k = Some v ->
  snd (Env.load host interpolate appRoot filePath false vars) !! k = Some v.
Proof.
  intros Hk. unfold Env.load.
  destruct (Env.readFileSync host _) as [e | contents]; [exact Hk |].
  pose proof (assign_each_keeps interpolate (Env.parse host contents)
                (Env.parse host contents) vars k v Hk) as Hkept.
  destruct (Env.assign_each _ _ _ _ _) as [[e |] vars']; exact Hkept.
Qed.

(** X18. Loading a file without overwriting never changes a variable that
    is defined: whatever the file holds, and whether reading it or
    interpolating a value fails, the variable keeps its value. *)
Theorem load_without_overwrite_keeps_what_is_defined host interpolate appRoot filePath
    vars k v :
  vars !! k = Some v ->
  snd (Env.load host interpolate appRoot filePath false vars) !! k = Some v.
Proof. apply load_keeps_defined. Qed.

Lemma load_without_overwrite_keeps_what_is_defined_witness :
  snd (Env.load Dotenv.host Dotenv.literal "/app" ".env" false Dotenv.started) !! "PORT"
  = Some "8080".
Proof.
  apply (load_without_overwrite_keeps_what_is_defined Dotenv.host Dotenv.literal "/app" ".env"
           Dotenv.started "PORT" "8080").
  vm_compute. reflexivity.
Defined.

Lemma load_overwrites host interpolate appRoot filePath vars parsed :
  fst (Env.load host interpolate appRoot filePath true vars) = inr parsed ->
  NoDup parsed.*1 ->
  let vars' := snd (Env.load host interpolate appRoot filePath true vars) in
  (forall k v, (k, v) ∈ parsed ->
     exists vars_then s, interpolate v parsed vars_then = inr s /\ vars' !! k = Some s)
  /\ (forall k, k ∉ parsed.*1 -> vars' !! k = vars !! k).
Proof.
  unfold Env.load.
  destruct (Env.readFileSync host _) as [e | contents]; [discriminate |].
  pose proof (assign_each_frame interpolate (Env.parse host contents) true
                (Env.parse host contents) vars) as Hframe.
  pose proof (assign_each_overwrites interpolate (Env.parse host contents)
                (Env.parse host contents) vars) as Hover.
  destruct (Env.assign_each _ _ _ _ _) as [[e |] vars']; [discriminate |].
  cbn. intros [= <-] Hnodup. split.
  - intros k v Hin. exact (Hover vars' eq_refl Hnodup k v Hin).
  - exact Hframe.
Qed.

(** X19. Loading a file with overwriting takes the file: when [load]
    returns what it has parsed, every key of the file is defined as the
    interpolation of the value the file gives it, and every variable the file
    does not name is as it was. *)
Theorem load_with_overwrite_takes_the_file host interpolate appRoot filePath vars parsed :
  fst (Env.load host interpolate appRoot filePath true vars) = inr parsed ->
  NoDup parsed.*1 ->
  let vars' := snd (Env.load host interpolate appRoot filePath true vars) in
  (forall k v, (k, v) ∈ parsed ->
     exists vars_then s, interpolate v parsed vars_then = inr s /\ vars' !! k = Some s)
  /\ (forall k, k ∉ parsed.*1 -> vars' !! k = vars !! k).
Proof. apply load_overwrites. Qed.

Lemma load_with_overwrite_takes_the_file_witness :
  let vars' := snd (Env.load Dotenv.host Dotenv.literal "/app" ".env" true Dotenv.started) in
  (forall k v, (k, v) ∈ [("PORT", "3333"); ("APP_KEY", "secret")] ->
     exists vars_then s,
       Dotenv.literal v [("PORT", "3333"); ("APP_KEY", "secret")] vars_then = inr s
       /\ vars' !! k = Some s)
  /\ (forall k, k ∉ [("PORT", "3333"); ("APP_KEY", "secret")].*1 ->
       vars' !! k = Dotenv.started !! k).
Proof.
  apply (load_with_overwrite_takes_the_file Dotenv.host Dotenv.literal "/app" ".env"
           Dotenv.started [("PORT", "3333"); ("APP_KEY", "secret")]).
  - vm_compute. reflexivity.
  - apply (bool_decide_unpack _). vm_compute. exact I.
Defined.

(** X20. The real environment wins over the [.env] file. When the process
    was not started with [NODE_ENV=testing], the constructor leaves the
    environment as loading the [.env] file without overwriting leaves it,
    whether it returns or throws and whatever [NODE_ENV] the file gives:
    every variable that was defined keeps its value, and [.env.testing] is
    not loaded. *)
Theorem real_environment_wins_over_the_env_file host interpolate appRoot vars :
  vars !! "NODE_ENV" <> Some "testing" ->
  let out := Env.constructor host interpolate appRoot vars in
  snd out = snd (Env.load host interpolate appRoot (Env.getEnvPath host vars) false vars)
  /\ forall k v, vars !! k = Some v -> snd out !! k = Some v.
Proof.
  intros Hmode out.
  assert (Hout : snd out
                 = snd (Env.load host interpolate appRoot (Env.getEnvPath host vars) false vars)).
  { unfold out, Env.constructor.
    rewrite bool_decide_eq_false_2 by exact Hmode.
    destruct (Env.load host interpolate appRoot _ false vars) as [env vars1]. cbn [snd].
    destruct (Env.readDefaultEnvFile host vars1) as [e | defaults]; [reflexivity |].
    destruct env as [e |]; [| reflexivity].
    destruct (negb _); reflexivity. }
  split; [exact Hout |].
  intros k v Hk. rewrite Hout.
  apply (load_keeps_defined host interpolate appRoot (Env.getEnvPath host vars) vars k v Hk).
Qed.

Lemma real_environment_wins_over_the_env_file_witness :
  let out := Env.constructor Dotenv.host Dotenv.literal "/app" Dotenv.started in
  snd out = snd (Env.load Dotenv.host Dotenv.literal "/app"
                          (Env.getEnvPath Dotenv.host Dotenv.started) false Dotenv.started)
  /\ forall k v, Dotenv.started !! k = Some v -> snd out !! k = Some v.
Proof.
  apply (real_environment_wins_over_the_env_file Dotenv.host Dotenv.literal "/app"
           Dotenv.started).
  vm_compute. discriminate.
Defined.

(* --------------------------------------------------------------------- *)
(** ** Copying the views *)
(* --------------------------------------------------------------------- *)

Lemma existsSync_true fs p : View.existsSync fs p = true <-> is_Some (fs !! p).
Proof. unfold View.existsSync. apply bool_decide_eq_true. Qed.

Lemma existsSync_false fs p : View.existsSync fs p = false <-> fs !! p = None.
Proof.
  unfold View.existsSync. rewrite bool_decide_eq_false. rewrite eq_None_not_Some. reflexivity.
Qed.

Lemma is_dir_true fs p : View.is_dir fs p = true <-> fs !! p = Some View.Dir.
Proof. unfold View.is_dir. apply bool_decide_eq_true. Qed.

Lemma removelast_snoc {A} (l : list A) (a : A) : removelast (l ++ [a]) = l.
Proof. apply removelast_last. Qed.

Lemma ensure_dir fs to fs1 :
  (if negb (View.existsSync fs to) then View.mkdirSync fs to else inr fs) = inr fs1 ->
  (fs1 = fs /\ is_Some (fs !! to))
  \/ (fs1 = <[to := View.Dir]> fs /\ fs !! to = None
      /\ fs !! removelast to = Some View.Dir).
Proof.
  destruct (View.existsSync fs to) eqn:Hex; cbn.
  - intros [= <-]. left. split; [reflexivity | apply existsSync_true, Hex].
  - unfold View.mkdirSync. rewrite Hex.
    destruct (View.is_dir fs (removelast to)) eqn:Hparent; [| discriminate].
    intros [= <-]. right. split; [reflexivity |].
    split; [apply existsSync_false, Hex | apply is_dir_true, Hparent].
Qed.

Lemma copyFileSync_inr fs src dest fs' :
  View.copyFileSync fs src dest = inr fs' ->
  exists content,
    fs !! src = Some (View.File content)
    /\ fs' = <[dest := View.File content]> fs
    /\ fs !! removelast dest = Some View.Dir.
Proof.
  unfold View.copyFileSync.
  destruct (fs !! src) as [[content |] |]; try discriminate.
  destruct (View.is_dir fs dest); [discriminate |].
  destruct (View.is_dir fs (removelast dest)) eqn:Hparent; [| discriminate].
  intros [= <-]. exists content. split; [reflexivity |]. split; [reflexivity |].
  apply is_dir_true, Hparent.
Qed.

Lemma entry_of_Some p q n : View.entry_of p q = Some n <-> q = p ++ [n].
Proof.
  unfold View.entry_of. split.
  - destruct (decide (removelast q = p)) as [<- | _]; [| discriminate].
    intros Hlast. destruct q as [| a q] using rev_ind; [discriminate |].
    rewrite last_snoc in Hlast. injection Hlast as ->.
    rewrite removelast_snoc. reflexivity.
  - intros ->. rewrite removelast_snoc.
    destruct (decide (p = p)); [apply last_snoc | congruence].
Qed.

Lemma readdirSync_inr fs p names :
  View.readdirSync fs p = inr names ->
  fs !! p = Some View.Dir /\ forall n, n ∈ names <-> is_Some (fs !! (p ++ [n])).
Proof.
  unfold View.readdirSync. destruct (View.is_dir fs p) eqn:Hdir; [| discriminate].
  intros [= <-]. split; [apply is_dir_true, Hdir |].
  intros n. rewrite list_elem_of_omap. split.
  - intros (q & Hq & Hentry). apply entry_of_Some in Hentry as ->.
    apply list_elem_of_fmap in Hq as ([q node] & -> & Hin).
    apply elem_of_map_to_list in Hin. cbn. rewrite Hin. eauto.
  - intros [node Hnode]. exists (p ++ [n]). split; [| apply entry_of_Some; reflexivity].
    apply list_elem_of_fmap. exists (p ++ [n], node). split; [reflexivity |].
    apply elem_of_map_to_list, Hnode.
Qed.

(** *** The file system only grows, below the target *)

Lemma grows_below_refl to fs : grows_below to fs fs.
Proof.
  split; [reflexivity |]. split; [| auto].
  intros p Hnone [n Hsome]. congruence.
Qed.

Lemma grows_below_trans to fs1 fs2 fs3 :
  grows_below to fs1 fs2 -> grows_below to fs2 fs3 -> grows_below to fs1 fs3.
Proof.
  intros (Hsub & Hnew & Hwf) (Hsub' & Hnew' & Hwf').
  split; [etrans; eauto |]. split; [| auto].
  intros p Hnone Hsome.
  destruct (fs2 !! p) as [n |] eqn:Hmid; [apply Hnew; eauto | apply Hnew'; auto].
Qed.

Lemma grows_below_deeper to x fs fs' : grows_below (to ++ x) fs fs' -> grows_below to fs fs'.
Proof.
  intros (Hsub & Hnew & Hwf). split; [exact Hsub |]. split; [| exact Hwf].
  intros p Hnone Hsome. etrans; [apply prefix_app_r; reflexivity | apply Hnew; auto].
Qed.

Lemma grows_below_insert to p node fs :
  fs !! p = None -> to `prefix_of` p -> fs !! removelast p = Some View.Dir ->
  grows_below to fs (<[p := node]> fs).
Proof.
  intros Hnone Hbelow Hparent. split; [apply insert_subseteq, Hnone |]. split.
  - intros p' Hnone' Hsome. destruct (decide (p = p')) as [<- | Hne]; [exact Hbelow |].
    rewrite lookup_insert_ne in Hsome by exact Hne. destruct Hsome. congruence.
  - intros Hwf p' Hsome Hroot.
    assert (Hdir : fs !! removelast p' = Some View.Dir).
    { destruct (decide (p = p')) as [<- | Hne]; [exact Hparent |].
      rewrite lookup_insert_ne in Hsome by exact Hne. apply Hwf; assumption. }
    destruct (decide (p = removelast p')) as [Heq | Hne].
    + rewrite <- Heq in Hdir. congruence.
    + rewrite lookup_insert_ne by exact Hne. exact Hdir.
Qed.

Section Each.
Variable copy : View.Path -> View.Path -> View.Fs -> View.Run.
Hypothesis copy_grows :
  forall from to fs fs', View.left_by (copy from to fs) = Some fs' -> grows_below to fs fs'.

Lemma each_grows from to elements : forall fs fs',
  View.left_by (View.each copy from to elements fs) = Some fs' -> grows_below to fs fs'.
Proof.
  induction elements as [| element rest IH]; intros fs fs'; cbn.
  - intros [= <-]. apply grows_below_refl.
  - destruct (fs !! (from ++ [element])) as [[content |] |] eqn:Hnode.
    + destruct (View.existsSync fs (to ++ [element])) eqn:Hex; cbn; [apply IH |].
      destruct (View.copyFileSync fs _ _) as [e | fs1] eqn:Hcopy.
      * cbn. intros [= <-]. apply grows_below_refl.
      * apply copyFileSync_inr in Hcopy as (c & _ & -> & Hparent).
        intros Hrest. eapply grows_below_trans; [| apply IH, Hrest].
        apply grows_below_insert;
          [apply existsSync_false, Hex | apply prefix_app_r; reflexivity | exact Hparent].
    + pose proof (copy_grows (from ++ [element]) (to ++ [element]) fs) as Hcall.
      destruct (copy (from ++ [element]) (to ++ [element]) fs) as [fs1 | e fs1 |]; cbn.
      * intros Hrest. eapply grows_below_trans; [| apply IH, Hrest].
        eapply grows_below_deeper, Hcall. reflexivity.
      * intros [= <-]. eapply grows_below_deeper, Hcall. reflexivity.
      * discriminate.
    + cbn. intros [= <-]. apply grows_below_refl.
Qed.

End Each.

Lemma copyFolderSync_grows fuel : forall from to fs fs',
  View.left_by (View._copyFolderSync fuel from to fs) = Some fs' -> grows_below to fs fs'.
Proof.
  induction fuel as [| fuel IH]; intros from to fs fs'; cbn; [discriminate |].
  destruct (if negb (View.existsSync fs to) then View.mkdirSync fs to else inr fs)
    as [e | fs1] eqn:Hdir.
  - cbn. intros [= <-]. apply grows_below_refl.
  - assert (Hfirst : grows_below to fs fs1).
    { apply ensure_dir in Hdir as [[-> _] | (-> & Hnone & Hparent)];
        [apply grows_below_refl |].
      apply grows_below_insert; [exact Hnone | reflexivity | exact Hparent]. }
    destruct (View.readdirSync fs1 from) as [e | elements].
    + cbn. intros [= <-]. exact Hfirst.
    + intros Hrun. eapply grows_below_trans; [exact Hfirst |].
      eapply each_grows; [| exact Hrun]. exact IH.
Qed.

Lemma well_formed_checked (fs : View.Fs) :
  map_Forall (fun p _ => p <> [] -> fs !! removelast p = Some View.Dir) fs -> well_formed fs.
Proof. intros Hall p [node Hnode] Hroot. exact (Hall p node Hnode Hroot). Qed.

(** X21. [_copyFolderSync] only adds, and only below the target: whatever
    the two paths are, and whether the call returns or throws, every entry
    the file system had is still there unchanged, so that no file of the
    target is overwritten, and every entry that is new lies at the target or
    below it. *)
Theorem copyFolderSync_only_adds_below_the_target fuel from to fs fs' :
  View.left_by (View._copyFolderSync fuel from to fs) = Some fs' ->
  (forall p node, fs !! p = Some node -> fs' !! p = Some node)
  /\ (forall p, fs !! p = None -> is_Some (fs' !! p) -> to `prefix_of` p).
Proof.
  intros Hrun. destruct (copyFolderSync_grows fuel from to fs fs' Hrun) as (Hsub & Hnew & _).
  split; [| exact Hnew].
  intros p node Hp. exact (lookup_weaken _ _ _ _ Hp Hsub).
Qed.

Lemma copyFolderSync_only_adds_below_the_target_witness :
  Views.copied !! ["public"; "home.edge"] = Some (View.File "<h1>edited</h1>")
  /\ forall p, Views.disk !! p = None -> is_Some (Views.copied !! p) -> ["public"] `prefix_of` p.
Proof.
  destruct (copyFolderSync_only_adds_below_the_target 3 ["views"] ["public"]
              Views.disk Views.copied) as [Hkept Hnew].
  - vm_compute. reflexivity.
  - split; [apply Hkept; vm_compute; reflexivity | exact Hnew].
Defined.

(** *** The call ends when the two paths are apart *)

Lemma apart_snoc from to element : apart from to -> apart (from ++ [element]) (to ++ [element]).
Proof.
  intros [Hft Htf]. split; intros Hprefix.
  - destruct (prefix_weak_total from to (to ++ [element])) as [H | H]; auto.
    + etrans; [apply prefix_app_r; reflexivity | exact Hprefix].
    + apply prefix_app_r. reflexivity.
  - destruct (prefix_weak_total from to (from ++ [element])) as [H | H]; auto.
    + apply prefix_app_r. reflexivity.
    + etrans; [apply prefix_app_r; reflexivity | exact Hprefix].
Qed.

Lemma no_deeper_than_grows bound from to fs fs' :
  apart from to -> grows_below to fs fs' ->
  no_deeper_than bound fs from -> no_deeper_than bound fs' from.
Proof.
  intros [Hft Htf] (_ & Hnew & _) Hbound p Hbelow Hsome.
  destruct (fs !! p) as [node |] eqn:Hold; [apply Hbound; eauto |].
  exfalso. destruct (prefix_weak_total from to p Hbelow (Hnew p Hold Hsome)); auto.
Qed.

Lemma no_deeper_than_deeper bound fs from element :
  no_deeper_than bound fs from -> no_deeper_than bound fs (from ++ [element]).
Proof.
  intros Hbound p Hbelow. apply Hbound.
  etrans; [apply prefix_app_r; reflexivity | exact Hbelow].
Qed.

Section EachEnds.
Variable copy : View.Path -> View.Path -> View.Fs -> View.Run.
Variables (from to : View.Path) (bound : nat).
Hypothesis copy_grows :
  forall from to fs fs', View.left_by (copy from to fs) = Some fs' -> grows_below to fs fs'.
Hypothesis copy_ends :
  forall element fs,
    no_deeper_than bound fs from -> is_Some (fs !! (from ++ [element])) ->
    copy (from ++ [element]) (to ++ [element]) fs <> View.OutOfFuel.
Hypothesis from_to_apart : apart from to.

Lemma each_ends elements : forall fs,
  no_deeper_than bound fs from ->
  View.each copy from to elements fs <> View.OutOfFuel.
Proof.
  induction elements as [| element rest IH]; intros fs Hbound; cbn; [discriminate |].
  destruct (fs !! (from ++ [element])) as [[content |] |] eqn:Hnode; [| | discriminate].
  - destruct (View.existsSync fs (to ++ [element])) eqn:Hex; cbn; [apply IH, Hbound |].
    destruct (View.copyFileSync fs _ _) as [e | fs1] eqn:Hcopy; [discriminate |].
    apply copyFileSync_inr in Hcopy as (c & _ & -> & Hparent).
    apply IH. eapply no_deeper_than_grows; [exact from_to_apart | | exact Hbound].
    apply grows_below_insert;
      [apply existsSync_false, Hex | apply prefix_app_r; reflexivity | exact Hparent].
  - pose proof (copy_grows (from ++ [element]) (to ++ [element]) fs) as Hcall.
    pose proof (copy_ends element fs Hbound (ex_intro _ _ Hnode)) as Hends.
    destruct (copy (from ++ [element]) (to ++ [element]) fs) as [fs1 | e fs1 |];
      [| discriminate | congruence].
    apply IH. eapply no_deeper_than_grows; [exact from_to_apart | | exact Hbound].
    eapply grows_below_deeper, Hcall. reflexivity.
Qed.

End EachEnds.

Lemma copyFolderSync_ends fuel : forall from to fs bound,
  apart from to ->
  no_deeper_than bound fs from ->
  (bound <= length from + fuel)%nat ->
  View._copyFolderSync (S fuel) from to fs <> View.OutOfFuel.
Proof.
  induction fuel as [| fuel IH]; intros from to fs bound Hapart Hbound Hfuel.
  - cbn.
    destruct (if negb (View.existsSync fs to) then View.mkdirSync fs to else inr fs)
      as [e | fs1] eqn:Hdir; [discriminate |].
    assert (Hfirst : grows_below to fs fs1).
    { apply ensure_dir in Hdir as [[-> _] | (-> & Hnone & Hparent)];
        [apply grows_below_refl |].
      apply grows_below_insert; [exact Hnone | reflexivity | exact Hparent]. }
    destruct (View.readdirSync fs1 from) as [e | elements]; [discriminate |].
    apply (each_ends _ from to bound); [discriminate | | exact Hapart |].
    + intros element fs2 Hbound2 Hsome. exfalso.
      pose proof (Hbound2 (from ++ [element])
                    ltac:(apply prefix_app_r; reflexivity) Hsome) as Hlen.
      rewrite length_app in Hlen. cbn in Hlen. lia.
    + eapply no_deeper_than_grows; eauto.
  - change (View._copyFolderSync (S (S fuel)) from to fs)
      with (match (if negb (View.existsSync fs to) then View.mkdirSync fs to else inr fs) with
            | inl e => View.Thrown e fs
            | inr fs1 =>
                match View.readdirSync fs1 from with
                | inl e => View.Thrown e fs1
                | inr elements =>
                    View.each (View._copyFolderSync (S fuel)) from to elements fs1
                end
            end).
    destruct (if negb (View.existsSync fs to) then View.mkdirSync fs to else inr fs)
      as [e | fs1] eqn:Hdir; [discriminate |].
    assert (Hfirst : grows_below to fs fs1).
    { apply ensure_dir in Hdir as [[-> _] | (-> & Hnone & Hparent)];
        [apply grows_below_refl |].
      apply grows_below_insert; [exact Hnone | reflexivity | exact Hparent]. }
    destruct (View.readdirSync fs1 from) as [e | elements]; [discriminate |].
    apply (each_ends _ from to bound); [apply copyFolderSync_grows | | exact Hapart |].
    + intros element fs2 Hbound2 Hsome.
      apply (IH _ _ _ bound);
        [apply apart_snoc, Hapart | apply no_deeper_than_deeper, Hbound2 |].
      rewrite length_app. cbn. lia.
    + eapply no_deeper_than_grows; eauto.
Qed.

(** More fuel does not change how a call ends. *)

Lemma each_more_fuel (copy copy' : View.Path -> View.Path -> View.Fs -> View.Run) from to :
  (forall from to fs, copy from to fs <> View.OutOfFuel -> copy' from to fs = copy from to fs) ->
  forall elements fs,
    View.each copy from to elements fs <> View.OutOfFuel ->
    View.each copy' from to elements fs = View.each copy from to elements fs.
Proof.
  intros Hcopy. induction elements as [| element rest IH]; intros fs; cbn; [reflexivity |].
  destruct (fs !! (from ++ [element])) as [[content |] |]; [| | reflexivity].
  - destruct (negb _); [| apply IH].
    destruct (View.copyFileSync fs _ _); [reflexivity | apply IH].
  - pose proof (Hcopy (from ++ [element]) (to ++ [element]) fs) as Hcall.
    destruct (copy (from ++ [element]) (to ++ [element]) fs) as [fs1 | e fs1 |].
    + rewrite Hcall by discriminate. apply IH.
    + rewrite Hcall by discriminate. reflexivity.
    + congruence.
Qed.

Lemma copyFolderSync_more_fuel fuel : forall from to fs,
  View._copyFolderSync fuel from to fs <> View.OutOfFuel ->
  View._copyFolderSync (S fuel) from to fs = View._copyFolderSync fuel from to fs.
Proof.
  induction fuel as [| fuel IH]; intros from to fs; [cbn; congruence |].
  change (View._copyFolderSync (S (S fuel)) from to fs)
    with (match (if negb (View.existsSync fs to) then View.mkdirSync fs to else inr fs) with
          | inl e => View.Thrown e fs
          | inr fs1 =>
              match View.readdirSync fs1 from with
              | inl e => View.Thrown e fs1
              | inr elements =>
                  View.each (View._copyFolderSync (S fuel)) from to elements fs1
              end
          end).
  cbn.
  destruct (if negb (View.existsSync fs to) then View.mkdirSync fs to else inr fs)
    as [e | fs1]; [reflexivity |].
  destruct (View.readdirSync fs1 from) as [e | elements]; [reflexivity |].
  apply each_more_fuel. exact IH.
Qed.

Lemma copyFolderSync_any_more_fuel fuel from to fs more :
  View._copyFolderSync fuel from to fs <> View.OutOfFuel ->
  View._copyFolderSync (fuel + more) from to fs = View._copyFolderSync fuel from to fs.
Proof.
  intros Hends. induction more as [| more IH]; [rewrite Nat.add_0_r; reflexivity |].
  rewrite Nat.add_succ_r, copyFolderSync_more_fuel; [exact IH | congruence].
Qed.

Lemma paths_bounded (fs : View.Fs) :
  exists bound, forall p : View.Path, is_Some (fs !! p) -> (length p <= bound)%nat.
Proof.
  induction fs as [| p node fs Hnone IH] using map_ind.
  - exists 0%nat. intros p [node Hnode]. rewrite lookup_empty in Hnode. discriminate.
  - destruct IH as [bound Hbound]. exists (Nat.max bound (length p)).
    intros p' Hsome. destruct (decide (p = p')) as [<- | Hne]; [lia |].
    rewrite lookup_insert_ne in Hsome by exact Hne. specialize (Hbound p' Hsome). lia.
Qed.

(** X22. Between two paths that are apart, neither below the other,
    [_copyFolderSync] ends: with enough fuel the call returns or throws, and
    more fuel does not change how. *)
Theorem copyFolderSync_ends_between_paths_apart from to fs :
  apart from to ->
  exists fuel r,
    r <> View.OutOfFuel
    /\ forall more, View._copyFolderSync (fuel + more) from to fs = r.
Proof.
  intros Hapart. destruct (paths_bounded fs) as [bound Hbound].
  exists (S bound), (View._copyFolderSync (S bound) from to fs).
  assert (Hends : View._copyFolderSync (S bound) from to fs <> View.OutOfFuel).
  { apply (copyFolderSync_ends bound from to fs bound); [exact Hapart | | lia].
    intros p _ Hsome. apply Hbound, Hsome. }
  split; [exact Hends |].
  intros more. apply copyFolderSync_any_more_fuel, Hends.
Qed.

Lemma copyFolderSync_ends_between_paths_apart_witness :
  exists fuel r,
    r <> View.OutOfFuel
    /\ forall more, View._copyFolderSync (fuel + more) ["views"] ["public"] Views.disk = r.
Proof.
  apply (copyFolderSync_ends_between_paths_apart ["views"] ["public"] Views.disk).
  apply (bool_decide_unpack _). vm_compute. exact I.
Defined.

(** *** What a call that returns has copied *)

Lemma mirrors_refl from to fs : mirrors from to fs fs.
Proof. intros p n Hnone Hsome. congruence. Qed.

Lemma ancestors_are_directories fs p q :
  well_formed fs -> is_Some (fs !! (p ++ q)) -> q <> [] -> fs !! p = Some View.Dir.
Proof.
  intros Hwf. induction q as [| x q IH] using rev_ind; [congruence |].
  intros Hsome _. rewrite app_assoc in Hsome.
  pose proof (Hwf _ Hsome ltac:(intros H; apply app_eq_nil in H as [_ [=]])) as Hdir.
  rewrite removelast_snoc in Hdir.
  destruct q as [| y q]; [rewrite app_nil_r in Hdir; exact Hdir |].
  apply IH; [rewrite Hdir; eauto | discriminate].
Qed.

Section EachCopies.
Variable copy : View.Path -> View.Path -> View.Fs -> View.Run.
Hypothesis copy_grows :
  forall from to fs fs', View.left_by (copy from to fs) = Some fs' -> grows_below to fs fs'.
Hypothesis copy_mirrors :
  forall from to fs fs', copy from to fs = View.Returned fs' -> mirrors from to fs fs'.
Hypothesis copy_complete :
  forall from to fs fs',
    copy from to fs = View.Returned fs' -> well_formed fs ->
    forall q, is_Some (fs !! (from ++ q)) -> is_Some (fs' !! (to ++ q)).

Lemma each_mirrors from to elements : forall fs fs',
  View.each copy from to elements fs = View.Returned fs' -> mirrors from to fs fs'.
Proof.
  induction elements as [| element rest IH]; intros fs fs'; cbn.
  - intros [= <-]. apply mirrors_refl.
  - destruct (fs !! (from ++ [element])) as [[content |] |] eqn:Hnode; [| | discriminate].
    + destruct (View.existsSync fs (to ++ [element])) eqn:Hex; cbn; [apply IH |].
      destruct (View.copyFileSync fs _ _) as [e | fs1] eqn:Hcopy; [discriminate |].
      apply copyFileSync_inr in Hcopy as (c & Hsrc & -> & Hparent).
      intros Hrest p n Hnone Hsome.
      pose proof (each_grows copy copy_grows from to rest _ fs'
                    ltac:(rewrite Hrest; reflexivity)) as (Hsub & _).
      destruct (decide (to ++ [element] = p)) as [<- | Hne].
      * exists [element]. split; [reflexivity |].
        rewrite (lookup_weaken _ _ _ _ (lookup_insert_eq fs _ _) Hsub) in Hsome.
        injection Hsome as <-.
        eapply lookup_weaken; [| exact Hsub].
        rewrite lookup_insert_ne; [congruence |].
        intros Heq. rewrite <- Heq in Hnode. apply existsSync_false in Hex. congruence.
      * apply (IH _ _ Hrest); [| exact Hsome].
        rewrite lookup_insert_ne by exact Hne. exact Hnone.
    + pose proof (copy_grows (from ++ [element]) (to ++ [element]) fs) as Hcall.
      pose proof (copy_mirrors (from ++ [element]) (to ++ [element]) fs) as Hmirror.
      destruct (copy (from ++ [element]) (to ++ [element]) fs) as [fs1 | e fs1 |];
        [| discriminate | discriminate].
      intros Hrest p n Hnone Hsome.
      pose proof (each_grows copy copy_grows from to rest _ fs'
                    ltac:(rewrite Hrest; reflexivity)) as (Hsub & _).
      destruct (fs1 !! p) as [n1 |] eqn:Hmid.
      * rewrite (lookup_weaken _ _ _ _ Hmid Hsub) in Hsome. injection Hsome as <-.
        destruct (Hmirror fs1 eq_refl p n1 Hnone Hmid) as (q & -> & Hq).
        exists (element :: q). rewrite <- !app_assoc in *. cbn in *.
        split; [reflexivity |]. exact (lookup_weaken _ _ _ _ Hq Hsub).
      * exact (IH _ _ Hrest p n Hmid Hsome).
Qed.

Lemma each_complete from to elements : forall fs fs',
  View.each copy from to elements fs = View.Returned fs' -> well_formed fs ->
  forall element q,
    element ∈ elements -> is_Some (fs !! (from ++ element :: q)) ->
    is_Some (fs' !! (to ++ element :: q)).
Proof.
  induction elements as [| head rest IH]; intros fs fs' Hrun Hwf element q Hin Hsome.
  - apply elem_of_nil in Hin. destruct Hin.
  - cbn in Hrun.
    assert (Hstep : exists fs1,
               View.each copy from to rest fs1 = View.Returned fs'
               /\ grows_below to fs fs1
               /\ (element = head -> is_Some (fs1 !! (to ++ element :: q)))).
    { destruct (fs !! (from ++ [head])) as [[content |] |] eqn:Hnode; [| | discriminate].
      - assert (Hleaf : element = head -> q = []).
        { intros ->. destruct q as [| x q]; [reflexivity |]. exfalso.
          change (from ++ head :: x :: q) with (from ++ [head] ++ x :: q) in Hsome.
          rewrite app_assoc in Hsome.
          pose proof (ancestors_are_directories _ _ _ Hwf Hsome ltac:(discriminate)).
          congruence. }
        destruct (View.existsSync fs (to ++ [head])) eqn:Hex; cbn in Hrun.
        + exists fs. split; [exact Hrun |]. split; [apply grows_below_refl |].
          intros ->. rewrite (Hleaf eq_refl). apply existsSync_true, Hex.
        + destruct (View.copyFileSync fs _ _) as [e | fs1] eqn:Hcopy; [discriminate |].
          apply copyFileSync_inr in Hcopy as (c & _ & -> & Hparent).
          eexists. split; [exact Hrun |]. split.
          * apply grows_below_insert;
              [apply existsSync_false, Hex | apply prefix_app_r; reflexivity | exact Hparent].
          * intros ->. rewrite (Hleaf eq_refl), lookup_insert_eq. eauto.
      - pose proof (copy_grows (from ++ [head]) (to ++ [head]) fs) as Hcall.
        pose proof (copy_complete (from ++ [head]) (to ++ [head]) fs) as Hcomplete.
        destruct (copy (from ++ [head]) (to ++ [head]) fs) as [fs1 | e fs1 |];
          [| discriminate | discriminate].
        exists fs1. split; [exact Hrun |]. split.
        + eapply grows_below_deeper, Hcall. reflexivity.
        + intros ->. specialize (Hcomplete fs1 eq_refl Hwf q).
          rewrite <- !app_assoc in Hcomplete. apply Hcomplete, Hsome. }
    destruct Hstep as (fs1 & Hrest & (Hsub & Hnew & Hwf1) & Hhere).
    pose proof (each_grows copy copy_grows from to rest fs1 fs'
                  ltac:(rewrite Hrest; reflexivity)) as (Hsub' & _).
    apply elem_of_cons in Hin as [-> | Hin].
    + destruct (Hhere eq_refl) as [node Hnode]. exists node.
      exact (lookup_weaken _ _ _ _ Hnode Hsub').
    + apply (IH fs1 fs' Hrest (Hwf1 Hwf) element q Hin).
      destruct Hsome as [node Hnode]. exists node. exact (lookup_weaken _ _ _ _ Hnode Hsub).
Qed.

End EachCopies.

Lemma copyFolderSync_copies fuel : forall from to fs fs',
  View._copyFolderSync fuel from to fs = View.Returned fs' ->
  mirrors from to fs fs'
  /\ (well_formed fs ->
      forall q, is_Some (fs !! (from ++ q)) -> is_Some (fs' !! (to ++ q))).
Proof.
  induction fuel as [| fuel IH]; intros from to fs fs'; cbn; [discriminate |].
  destruct (if negb (View.existsSync fs to) then View.mkdirSync fs to else inr fs)
    as [e | fs1] eqn:Hdir; [discriminate |].
  assert (Hfirst : grows_below to fs fs1).
  { pose proof Hdir as Hdir'.
    apply ensure_dir in Hdir' as [[-> _] | (-> & Hnone & Hparent)];
      [apply grows_below_refl |].
    apply grows_below_insert; [exact Hnone | reflexivity | exact Hparent]. }
  destruct (View.readdirSync fs1 from) as [e | elements] eqn:Hread; [discriminate |].
  apply readdirSync_inr in Hread as [Hfrom Hnames].
  intros Hrun.
  pose proof (each_grows _ (copyFolderSync_grows fuel) from to elements fs1 fs'
                ltac:(rewrite Hrun; reflexivity)) as (Hsub' & _).
  destruct Hfirst as (Hsub & Hnew & Hwf1).
  split.
  - intros p n Hnone Hsome.
    destruct (fs1 !! p) as [n1 |] eqn:Hmid.
    + rewrite (lookup_weaken _ _ _ _ Hmid Hsub') in Hsome. injection Hsome as <-.
      apply ensure_dir in Hdir as [[-> _] | (-> & _ & _)]; [congruence |].
      destruct (decide (to = p)) as [<- | Hne].
      * rewrite lookup_insert_eq in Hmid. injection Hmid as <-.
        exists []. rewrite !app_nil_r. split; [reflexivity |].
        exact (lookup_weaken _ _ _ _ Hfrom Hsub').
      * rewrite lookup_insert_ne in Hmid by exact Hne. congruence.
    + eapply (each_mirrors (View._copyFolderSync fuel)); eauto using copyFolderSync_grows.
      intros from0 to0 fs0 fs0' Hcall. apply (IH _ _ _ _ Hcall).
  - intros Hwf [| element q] Hsome.
    + rewrite app_nil_r in *.
      assert (Hto : is_Some (fs1 !! to)).
      { apply ensure_dir in Hdir as [[-> Hex] | (-> & _ & _)]; [exact Hex |].
        rewrite lookup_insert_eq. eauto. }
      destruct Hto as [node Hnode]. exists node. exact (lookup_weaken _ _ _ _ Hnode Hsub').
    + assert (Hin : element ∈ elements).
      { apply Hnames. destruct q as [| x q].
        - destruct Hsome as [node Hnode]. exists node. exact (lookup_weaken _ _ _ _ Hnode Hsub).
        - change (from ++ element :: x :: q) with (from ++ [element] ++ x :: q) in Hsome.
          rewrite app_assoc in Hsome.
          pose proof (ancestors_are_directories _ _ _ Hwf Hsome ltac:(discriminate)) as Hd.
          exists View.Dir. exact (lookup_weaken _ _ _ _ Hd Hsub). }
      eapply (each_complete (View._copyFolderSync fuel)); eauto using copyFolderSync_grows.
      * intros from0 to0 fs0 fs0' Hcall. apply (IH _ _ _ _ Hcall).
      * destruct Hsome as [node Hnode]. exists node. exact (lookup_weaken _ _ _ _ Hnode Hsub).
Qed.

(** X23. What a call that returns has copied. On a file system where every
    entry lies in a directory, when [_copyFolderSync] returns, every entry at
    or below the source has an entry at the same place below the target; and
    every entry that is new is the like of what the source has at that place:
    a directory for a directory, a file with the same contents for a file.
    The file system is still one where every entry lies in a directory. *)
Theorem copyFolderSync_copies_the_source fuel from to fs fs' :
  View._copyFolderSync fuel from to fs = View.Returned fs' ->
  well_formed fs ->
  (forall q, is_Some (fs !! (from ++ q)) -> is_Some (fs' !! (to ++ q)))
  /\ (forall p node, fs !! p = None -> fs' !! p = Some node ->
        exists q, p = to ++ q /\ fs' !! (from ++ q) = Some node)
  /\ well_formed fs'.
Proof.
  intros Hrun Hwf.
  destruct (copyFolderSync_copies fuel from to fs fs' Hrun) as [Hmirror Hcomplete].
  destruct (copyFolderSync_grows fuel from to fs fs' ltac:(rewrite Hrun; reflexivity))
    as (_ & _ & Hwf').
  split; [exact (Hcomplete Hwf) |]. split; [exact Hmirror | exact (Hwf' Hwf)].
Qed.

Lemma copyFolderSync_copies_the_source_witness :
  (forall q, is_Some (Views.disk !! (["views"] ++ q)) ->
             is_Some (Views.copied !! (["public"] ++ q)))
  /\ (forall p node, Views.disk !! p = None -> Views.copied !! p = Some node ->
        exists q, p = ["public"] ++ q /\ Views.copied !! (["views"] ++ q) = Some node)
  /\ well_formed Views.copied.
Proof.
  apply (copyFolderSync_copies_the_source 3 ["views"] ["public"] Views.disk Views.copied).
  - vm_compute. reflexivity.
  - apply well_formed_checked. apply (bool_decide_unpack _). vm_compute. exact I.
Defined.

(** *** Copying again *)

Lemma returned_from_a_directory fuel from to fs fs' :
  View._copyFolderSync fuel from to fs = View.Returned fs' -> fs' !! from = Some View.Dir.
Proof.
  destruct fuel as [| fuel]; cbn; [discriminate |].
  destruct (if negb (View.existsSync fs to) then View.mkdirSync fs to else inr fs)
    as [e | fs1]; [discriminate |].
  destruct (View.readdirSync fs1 from) as [e | elements] eqn:Hread; [discriminate |].
  apply readdirSync_inr in Hread as [Hfrom _]. intros Hrun.
  pose proof (each_grows _ (copyFolderSync_grows fuel) from to elements fs1 fs'
                ltac:(rewrite Hrun; reflexivity)) as (Hsub & _).
  exact (lookup_weaken _ _ _ _ Hfrom Hsub).
Qed.

Lemma each_nothing_to_copy copy from to fs elements :
  (forall element, element ∈ elements ->
     fs !! (from ++ [element]) = Some View.Dir ->
     copy (from ++ [element]) (to ++ [element]) fs = View.Returned fs
     \/ copy (from ++ [element]) (to ++ [element]) fs = View.OutOfFuel) ->
  (forall element, element ∈ elements ->
     is_Some (fs !! (from ++ [element])) /\ is_Some (fs !! (to ++ [element]))) ->
  View.each copy from to elements fs = View.Returned fs
  \/ View.each copy from to elements fs = View.OutOfFuel.
Proof.
  induction elements as [| element rest IH]; intros Hcopy Hboth; cbn; [auto |].
  assert (Hrest : View.each copy from to rest fs = View.Returned fs
                  \/ View.each copy from to rest fs = View.OutOfFuel).
  { apply IH; intros e He; [apply Hcopy | apply Hboth]; apply elem_of_cons; auto. }
  destruct (Hboth element ltac:(apply elem_of_cons; auto)) as [[node Hnode] Hto].
  rewrite Hnode. destruct node as [content |].
  - apply existsSync_true in Hto. rewrite Hto. exact Hrest.
  - destruct (Hcopy element ltac:(apply elem_of_cons; auto) Hnode) as [-> | ->]; auto.
Qed.

Lemma copyFolderSync_nothing_to_copy fuel : forall from to fs,
  fs !! from = Some View.Dir ->
  (forall q, is_Some (fs !! (from ++ q)) -> is_Some (fs !! (to ++ q))) ->
  View._copyFolderSync fuel from to fs = View.Returned fs
  \/ View._copyFolderSync fuel from to fs = View.OutOfFuel.
Proof.
  induction fuel as [| fuel IH]; intros from to fs Hfrom Hcovered; cbn; [auto |].
  assert (Hto : View.existsSync fs to = true).
  { apply existsSync_true. specialize (Hcovered []). rewrite !app_nil_r in Hcovered.
    apply Hcovered. eauto. }
  rewrite Hto. cbn.
  destruct (View.readdirSync fs from) as [e | elements] eqn:Hread.
  { unfold View.readdirSync in Hread. apply is_dir_true in Hfrom. rewrite Hfrom in Hread.
    discriminate. }
  apply readdirSync_inr in Hread as [_ Hnames].
  apply each_nothing_to_copy.
  - intros element _ Hdir. apply IH; [exact Hdir |].
    intros q. rewrite <- !app_assoc. apply Hcovered.
  - intros element Hin. apply Hnames in Hin. split; [exact Hin | apply Hcovered, Hin].
Qed.

(** X24. Copying again changes nothing. Between two paths that are apart,
    once [_copyFolderSync] has returned, a second call returns and leaves the
    file system as the first one left it. *)
Theorem copyFolderSync_again_changes_nothing fuel from to fs fs' :
  apart from to ->
  well_formed fs ->
  View._copyFolderSync fuel from to fs = View.Returned fs' ->
  exists fuel', forall more,
    View._copyFolderSync (fuel' + more) from to fs' = View.Returned fs'.
Proof.
  intros Hapart Hwf Hrun.
  destruct (copyFolderSync_copies fuel from to fs fs' Hrun) as [_ Hcomplete].
  destruct (copyFolderSync_grows fuel from to fs fs' ltac:(rewrite Hrun; reflexivity))
    as (Hsub & Hnew & _).
  assert (Hcovered : forall q, is_Some (fs' !! (from ++ q)) -> is_Some (fs' !! (to ++ q))).
  { intros q Hsome. destruct (fs !! (from ++ q)) as [node |] eqn:Hold.
    - apply (Hcomplete Hwf). eauto.
    - exfalso. destruct Hapart as [Hft Htf].
      destruct (prefix_weak_total from to (from ++ q)) as [H | H]; auto.
      apply prefix_app_r. reflexivity. }
  destruct (paths_bounded fs') as [bound Hbound].
  assert (Hends : View._copyFolderSync (S bound) from to fs' <> View.OutOfFuel).
  { apply (copyFolderSync_ends bound from to fs' bound); [exact Hapart | | lia].
    intros p _ Hsome. apply Hbound, Hsome. }
  exists (S bound). intros more.
  rewrite (copyFolderSync_any_more_fuel _ _ _ _ more Hends).
  destruct (copyFolderSync_nothing_to_copy (S bound) from to fs'
              (returned_from_a_directory _ _ _ _ _ Hrun) Hcovered) as [H | H];
    [exact H | congruence].
Qed.

Lemma copyFolderSync_again_changes_nothing_witness :
  exists fuel', forall more,
    View._copyFolderSync (fuel' + more) ["views"] ["public"] Views.copied
    = View.Returned Views.copied.
Proof.
  apply (copyFolderSync_again_changes_nothing 3 ["views"] ["public"] Views.disk Views.copied).
  - apply (bool_decide_unpack _). vm_compute. exact I.
  - apply well_formed_checked. apply (bool_decide_unpack _). vm_compute. exact I.
  - vm_compute. reflexivity.
Defined.

(** *** A target below the source *)

Section EachNeverReturns.
Variable copy : View.Path -> View.Path -> View.Fs -> View.Run.
Variables (from to : View.Path) (x : string).
Hypothesis copy_grows :
  forall from to fs fs', View.left_by (copy from to fs) = Some fs' -> grows_below to fs fs'.
Hypothesis copy_never :
  forall fs fs', well_formed fs -> copy (from ++ [x]) (to ++ [x]) fs <> View.Returned fs'.
Hypothesis to_below : from ++ [x] `prefix_of` to.

Lemma file_above_the_target fs content :
  well_formed fs -> fs !! (from ++ [x]) = Some (View.File content) ->
  fs !! to <> Some View.Dir.
Proof.
  intros Hwf Hfile Hdir. destruct to_below as [k Hk].
  destruct k as [| y k].
  - rewrite app_nil_r in Hk. congruence.
  - rewrite Hk in Hdir.
    pose proof (ancestors_are_directories fs (from ++ [x]) (y :: k) Hwf
                  ltac:(rewrite Hdir; eauto) ltac:(discriminate)).
    congruence.
Qed.

Lemma each_never_returns elements : forall fs fs',
  well_formed fs -> x ∈ elements ->
  View.each copy from to elements fs <> View.Returned fs'.
Proof.
  induction elements as [| head rest IH]; intros fs fs' Hwf Hin.
  - apply elem_of_nil in Hin. destruct Hin.
  - cbn. destruct (decide (head = x)) as [-> | Hne].
    + destruct (fs !! (from ++ [x])) as [[content |] |] eqn:Hnode; [| | discriminate].
      * pose proof (file_above_the_target fs content Hwf Hnode) as Hnodir.
        assert (Hex : View.existsSync fs (to ++ [x]) = false).
        { apply existsSync_false. destruct (fs !! (to ++ [x])) as [node |] eqn:Hthere;
            [| reflexivity].
          exfalso. apply Hnodir.
          pose proof (Hwf (to ++ [x]) ltac:(eauto)
                        ltac:(intros H; apply app_eq_nil in H as [_ [=]])) as Hparent.
          rewrite removelast_snoc in Hparent. exact Hparent. }
        rewrite Hex. cbn. unfold View.copyFileSync. rewrite Hnode.
        assert (Hdest : View.is_dir fs (to ++ [x]) = false).
        { apply bool_decide_eq_false_2. apply existsSync_false in Hex. congruence. }
        rewrite Hdest, removelast_snoc.
        assert (Hparent : View.is_dir fs to = false).
        { apply bool_decide_eq_false_2. exact Hnodir. }
        rewrite Hparent. discriminate.
      * pose proof (copy_never fs) as Hcall.
        destruct (copy (from ++ [x]) (to ++ [x]) fs) as [fs1 | e fs1 |];
          [| discriminate | discriminate].
        exfalso. exact (Hcall fs1 Hwf eq_refl).
    + apply elem_of_cons in Hin as [-> | Hin]; [congruence |].
      destruct (fs !! (from ++ [head])) as [[content |] |] eqn:Hnode; [| | discriminate].
      * destruct (View.existsSync fs (to ++ [head])) eqn:Hex; cbn; [apply IH; assumption |].
        destruct (View.copyFileSync fs _ _) as [e | fs1] eqn:Hcopy; [discriminate |].
        apply copyFileSync_inr in Hcopy as (c & _ & -> & Hparent).
        apply IH; [| exact Hin].
        apply (grows_below_insert to); [apply existsSync_false, Hex | | exact Hparent | exact Hwf].
        apply prefix_app_r. reflexivity.
      * pose proof (copy_grows (from ++ [head]) (to ++ [head]) fs) as Hcall.
        destruct (copy (from ++ [head]) (to ++ [head]) fs) as [fs1 | e fs1 |];
          [| discriminate | discriminate].
        apply IH; [| exact Hin]. destruct (Hcall fs1 eq_refl) as (_ & _ & Hwf1). auto.
Qed.

End EachNeverReturns.

(** X25. A target below the source is never finished. When [to] lies
    strictly below [from], on a file system where every entry lies in a
    directory, [_copyFolderSync(from, to)] does not return, however long it
    runs: each directory it makes is one more to copy. It throws, or goes on
    until the runtime stops it. *)
Theorem copyFolderSync_below_itself_never_returns fuel : forall from suffix fs fs',
  suffix <> [] ->
  well_formed fs ->
  View._copyFolderSync fuel from (from ++ suffix) fs <> View.Returned fs'.
Proof.
  induction fuel as [| fuel IH]; intros from suffix fs fs' Hsuffix Hwf; cbn; [discriminate |].
  destruct (if negb (View.existsSync fs (from ++ suffix))
            then View.mkdirSync fs (from ++ suffix) else inr fs) as [e | fs1] eqn:Hdir;
    [discriminate |].
  assert (Hfirst : grows_below (from ++ suffix) fs fs1 /\ is_Some (fs1 !! (from ++ suffix))).
  { apply ensure_dir in Hdir as [[-> Hex] | (-> & Hnone & Hparent)];
      [split; [apply grows_below_refl | exact Hex] |].
    split; [| rewrite lookup_insert_eq; eauto].
    apply grows_below_insert; [exact Hnone | reflexivity | exact Hparent]. }
  destruct Hfirst as [(_ & _ & Hwf1) Hto]. specialize (Hwf1 Hwf).
  destruct (View.readdirSync fs1 from) as [e | elements] eqn:Hread; [discriminate |].
  apply readdirSync_inr in Hread as [_ Hnames].
  destruct suffix as [| x rest]; [congruence |].
  apply (each_never_returns _ from (from ++ x :: rest) x).
  - apply copyFolderSync_grows.
  - intros fs2 fs2' Hwf2.
    replace ((from ++ x :: rest) ++ [x]) with ((from ++ [x]) ++ (rest ++ [x]))
      by (rewrite <- !app_assoc; reflexivity).
    apply IH; [| exact Hwf2]. intros H. apply app_eq_nil in H as [_ [=]].
  - exists rest. rewrite <- app_assoc. reflexivity.
  - exact Hwf1.
  - apply Hnames. destruct rest as [| y rest]; [exact Hto |].
    change (from ++ x :: y :: rest) with (from ++ [x] ++ y :: rest) in Hto.
    rewrite app_assoc in Hto.
    rewrite (ancestors_are_directories _ _ _ Hwf1 Hto ltac:(discriminate)). eauto.
Qed.

Lemma copyFolderSync_below_itself_never_returns_witness :
  View._copyFolderSync 40 ["views"] (["views"] ++ ["compiled"]) Views.disk
  <> View.Returned Views.copied.
Proof.
  apply (copyFolderSync_below_itself_never_returns 40 ["views"] ["compiled"] Views.disk
           Views.copied).
  - discriminate.
  - apply well_formed_checked. apply (bool_decide_unpack _). vm_compute. exact I.
Defined.

(* --------------------------------------------------------------------- *)
(** ** The environment under test *)
(* --------------------------------------------------------------------- *)

(** X26. Under test, [.env.testing] wins over everything. When the process
    was started with [NODE_ENV=testing] and the constructor returns, the
    environment is what loading [.env.testing] with overwriting leaves, after
    the [.env] file: every key [.env.testing] gives has the value of that
    file, whatever the real environment and the [.env] file say. *)
Theorem testing_file_wins_over_everything host interpolate appRoot vars inst parsed :
  vars !! "NODE_ENV" = Some "testing" ->
  fst (Env.constructor host interpolate appRoot vars) = inr inst ->
  let vars1 := snd (Env.load host interpolate appRoot (Env.getEnvPath host vars) false vars) in
  fst (Env.load host interpolate appRoot ".env.testing" true vars1) = inr parsed ->
  NoDup parsed.*1 ->
  let out := snd (Env.constructor host interpolate appRoot vars) in
  out = snd (Env.load host interpolate appRoot ".env.testing" true vars1)
  /\ forall k v, (k, v) ∈ parsed ->
       exists vars_then s, interpolate v parsed vars_then = inr s /\ out !! k = Some s.
Proof.
  intros Hmode Hreturns vars1 Hload Hnodup out.
  assert (Hout : out = snd (Env.load host interpolate appRoot ".env.testing" true vars1)).
  { unfold out, vars1. unfold Env.constructor in Hreturns |- *.
    rewrite bool_decide_eq_true_2 in Hreturns |- * by exact Hmode.
    destruct (Env.load host interpolate appRoot _ false vars) as [env vars0].
    cbn [snd] in *.
    destruct (Env.readDefaultEnvFile host vars0) as [e | defaults]; [discriminate |].
    destruct env as [e |]; [| reflexivity].
    destruct (negb _); [discriminate | reflexivity]. }
  split; [exact Hout |].
  rewrite Hout. apply (load_overwrites _ _ _ _ _ _ Hload Hnodup).
Qed.

Lemma testing_file_wins_over_everything_witness :
  snd (Env.constructor Dotenv.under_test Dotenv.literal "/app" Dotenv.started_for_tests)
  !! "PORT" = Some "4000".
Proof.
  destruct (testing_file_wins_over_everything Dotenv.under_test Dotenv.literal "/app"
              Dotenv.started_for_tests (Env.mkEnv "/app" []) [("PORT", "4000")])
    as [_ Hkeys].
  - vm_compute. reflexivity.
  - vm_compute. reflexivity.
  - vm_compute. reflexivity.
  - apply (bool_decide_unpack _). vm_compute. exact I.
  - destruct (Hkeys "PORT" "4000") as (vars_then & s & Hvalue & Hport).
    + apply list_elem_of_singleton. reflexivity.
    + injection Hvalue as <-. exact Hport.
Defined.
